(** * Section activation, theme, contact form and carousel of the portfolio page

    A shallow embedding of [script.js] (the page script) and of the older copy
    of the same script kept next to it (module [Legacy]).

    The browser document is modelled by records that keep exactly the parts
    of the DOM the script reads or writes: class lists as ordered token sets,
    attributes as optional strings, inline [style.transitionDelay] as a
    string.  Lengths and offsets of the layout (bounding rectangles, inner
    height, scroll offsets) are binary64 floating-point numbers with the
    IEEE operations the script performs on them; an intersection ratio is
    only compared with one half and is kept as a rational.  The values of
    form controls are sequences of UTF-16 code units; identifiers, class
    names and the texts the script writes are only compared for equality
    and are kept as strings. *)

From Stdlib Require Import List String Ascii Bool Arith ZArith QArith Qabs Lia.
From Stdlib Require Import DecimalString.
From Stdlib Require Import Floats.
Import ListNotations.

Local Open Scope string_scope.
Local Open Scope list_scope.

(** ** JavaScript primitives used by the script *)

(** [String(b)] for a boolean [b]. *)
Definition String_of_bool (b : bool) : string := if b then "true" else "false".

(** Decimal rendering of a non-negative integer inside a template string. *)
Definition string_of_nat (n : nat) : string :=
  NilEmpty.string_of_uint (Nat.to_uint n).

(** A UTF-16 code unit, and a string value as JavaScript holds it. *)
Definition codeUnit : Set := N.
Definition DOMString : Set := list codeUnit.

(** The code units of a text made of ASCII characters. *)
Definition js (s : string) : DOMString := map N_of_ascii (list_ascii_of_string s).

(** Truthiness of a string value held as code units. *)
Definition nonEmpty (v : DOMString) : bool :=
  match v with [] => false | _ :: _ => true end.

(** [str.slice(1)]. *)
Definition slice1 (s : string) : string :=
  match s with
  | EmptyString => EmptyString
  | String _ rest => rest
  end.

(** Truthiness of a string value: every string but the empty one. *)
Definition truthy (s : string) : bool :=
  match s with EmptyString => false | _ => true end.

(** [Array.prototype.findIndex]: the first index satisfying [p], -1 if none. *)
Fixpoint findIndexFrom {A} (p : A -> bool) (i : Z) (l : list A) : Z :=
  match l with
  | [] => (-1)%Z
  | x :: r => if p x then i else findIndexFrom p (i + 1)%Z r
  end.

Definition findIndex {A} (p : A -> bool) (l : list A) : Z := findIndexFrom p 0%Z l.

(** [arr[i]] for a possibly negative or out-of-range index: [undefined] is [None]. *)
Definition index {A} (l : list A) (i : Z) : option A :=
  if (i <? 0)%Z then None else nth_error l (Z.to_nat i).

(** [arr.map((x, i) => f(i, x))], starting the count at [i]. *)
Fixpoint mapiFrom {A B} (f : nat -> A -> B) (i : nat) (l : list A) : list B :=
  match l with
  | [] => []
  | x :: r => f i x :: mapiFrom f (S i) r
  end.

Definition mapi {A B} (f : nat -> A -> B) (l : list A) : list B := mapiFrom f 0 l.

(** Replace the element at position [n]; nothing happens out of range. *)
Fixpoint updateAt {A} (n : nat) (f : A -> A) (l : list A) : list A :=
  match l, n with
  | [], _ => []
  | x :: r, O => f x :: r
  | x :: r, S m => x :: updateAt m f r
  end.

(** ** Class lists *)

Module DOMTokenList.

(** An ordered set of class names. *)
Definition t := list string.

Definition contains (c : string) (l : t) : bool := existsb (String.eqb c) l.

Definition add (c : string) (l : t) : t :=
  if contains c l then l else l ++ [c].

Definition remove (c : string) (l : t) : t :=
  filter (fun x => negb (String.eqb c x)) l.

(** [toggle(c, force)] with the second argument given. *)
Definition toggle (c : string) (force : bool) (l : t) : t :=
  if force then add c l else remove c l.

End DOMTokenList.

(** ** Elements of the document *)

(** An element below a section: its classes and its inline transition delay. *)
Record Element := mkElement {
  classList : DOMTokenList.t;
  transitionDelay : string
}.

(** A [.section] element.  [descendants] are the elements below it in
    document order; sections are not nested. *)
Record SectionEl := mkSection {
  id : string;
  sectionClasses : DOMTokenList.t;
  ariaHidden : option string;
  descendants : list Element
}.

(** A [.nav-link] anchor; the markup gives every such link an [href]. *)
Record NavLink := mkNavLink {
  href : string;
  ariaCurrent : option string
}.

(** The part of the document the section logic works on.  [otherIds] are
    the ids carried by elements that are not sections; [scrolledTo] and
    [activeElement] record the last [scrollIntoView] target and the element
    holding keyboard focus. *)
Record Doc := mkDoc {
  sections : list SectionEl;
  navLinks : list NavLink;
  otherIds : list string;
  scrolledTo : option string;
  activeElement : option string
}.

(** ** Selectors *)

(** A selector list: alternatives separated by commas, each alternative a
    compound of class names that must all be present. *)
Definition Selector := list (list string).

Definition matches (sel : Selector) (e : Element) : bool :=
  existsb (fun compound =>
             forallb (fun c => DOMTokenList.contains c (classList e)) compound)
          sel.

(** ['.animate-slide-in, .animate-fade-in, .reveal, .glow-in'] *)
Definition REVEAL_TARGETS : Selector :=
  [["animate-slide-in"]; ["animate-fade-in"]; ["reveal"]; ["glow-in"]].

(** ['.animate-slide-in.is-visible, .animate-fade-in.is-visible,
     .reveal.is-visible, .glow-in.is-visible'] *)
Definition VISIBLE_TARGETS : Selector :=
  [["animate-slide-in"; "is-visible"]; ["animate-fade-in"; "is-visible"];
   ["reveal"; "is-visible"]; ["glow-in"; "is-visible"]].

(** ['.animate-slide-in, .animate-fade-in, .reveal'] (the observer's selector) *)
Definition OBSERVER_TARGETS : Selector :=
  [["animate-slide-in"]; ["animate-fade-in"]; ["reveal"]].

(** [s.querySelectorAll(sel)]: the matching descendants, in document order. *)
Definition querySelectorAll (sel : Selector) (els : list Element) : list Element :=
  filter (matches sel) els.

(** [s.querySelectorAll(sel).forEach((el, i) => ...)]: the node list is taken
    before the loop runs, the callback rewrites the [i]-th match in place. *)
Fixpoint forEachMatchFrom (sel : Selector) (f : nat -> Element -> Element)
         (i : nat) (els : list Element) : list Element :=
  match els with
  | [] => []
  | e :: r =>
      if matches sel e
      then f i e :: forEachMatchFrom sel f (S i) r
      else e :: forEachMatchFrom sel f i r
  end.

Definition forEachMatch (sel : Selector) (f : nat -> Element -> Element)
           (els : list Element) : list Element :=
  forEachMatchFrom sel f 0 els.

(** ** Section activation (script.js) *)

Definition getSections (d : Doc) : list SectionEl := sections d.

Definition isActiveSection (s : SectionEl) : bool :=
  DOMTokenList.contains "active" (sectionClasses s).

Definition getActiveIndex (d : Doc) : Z := findIndex isActiveSection (getSections d).

(** The template string [`${i * 70}ms`]. *)
Definition staggerDelay (i : nat) : string := string_of_nat (i * 70) ++ "ms".

(** Body of the first inner loop of [setActiveSection]. *)
Definition revealTarget (i : nat) (el : Element) : Element :=
  {| classList := DOMTokenList.add "is-visible" (classList el);
     transitionDelay := staggerDelay i |}.

(** Body of the second inner loop of [setActiveSection]. *)
Definition hideTarget (_ : nat) (el : Element) : Element :=
  {| classList := DOMTokenList.remove "is-visible" (classList el);
     transitionDelay := "" |}.

(** Body of the outer loop of [setActiveSection] for one section. *)
Definition setActiveSection_body (id0 : string) (s : SectionEl) : SectionEl :=
  let isActive := String.eqb (id s) id0 in
  let revealed := forEachMatch REVEAL_TARGETS revealTarget (descendants s) in
  {| id := id s;
     sectionClasses := DOMTokenList.toggle "active" isActive (sectionClasses s);
     ariaHidden := Some (String_of_bool (negb isActive));
     descendants :=
       if negb isActive
       then forEachMatch VISIBLE_TARGETS hideTarget revealed
       else revealed |}.

(** [updateNavCurrent()]: the argument some callers pass is not read. *)
Definition updateNavCurrent_link (active : option SectionEl) (l : NavLink) : NavLink :=
  let target := slice1 (href l) in
  match active with
  | Some s =>
      if String.eqb target (id s)
      then {| href := href l; ariaCurrent := Some "page" |}
      else {| href := href l; ariaCurrent := None |}
  | None => {| href := href l; ariaCurrent := None |}
  end.

Definition updateNavCurrent (d : Doc) : Doc :=
  let secs := getSections d in
  let activeIndex := findIndex isActiveSection secs in
  {| sections := sections d;
     navLinks := map (updateNavCurrent_link (index secs activeIndex)) (navLinks d);
     otherIds := otherIds d;
     scrolledTo := scrolledTo d;
     activeElement := activeElement d |}.

Definition setActiveSection (id0 : string) (d : Doc) : Doc :=
  updateNavCurrent
    {| sections := map (setActiveSection_body id0) (getSections d);
       navLinks := navLinks d;
       otherIds := otherIds d;
       scrolledTo := scrolledTo d;
       activeElement := activeElement d |}.

(** ** Navigation (script.js) *)

(** What the host does when [focus()] is called on an element. *)
Inductive FocusOutcome := FocusMoves | FocusIgnored | FocusThrows.

(** Host behaviour the script cannot control. *)
Record Host := mkHost {
  focusOutcome : string -> FocusOutcome
}.

(** [document.getElementById(id)] finds an element: an element has an id
    only when its id attribute is not empty. *)
Definition getElementById (id0 : string) (d : Doc) : bool :=
  truthy id0 &&
  (existsb (String.eqb id0) (map id (sections d)) || existsb (String.eqb id0) (otherIds d)).

Definition scrollIntoView (id0 : string) (d : Doc) : Doc :=
  {| sections := sections d; navLinks := navLinks d; otherIds := otherIds d;
     scrolledTo := Some id0; activeElement := activeElement d |}.

(** [try { section.focus({ preventScroll: true }); } catch (e) {}] *)
Definition tryFocus (h : Host) (id0 : string) (d : Doc) : Doc :=
  match focusOutcome h id0 with
  | FocusMoves =>
      {| sections := sections d; navLinks := navLinks d; otherIds := otherIds d;
         scrolledTo := scrolledTo d; activeElement := Some id0 |}
  | FocusIgnored => d
  | FocusThrows => d
  end.

Definition navigateToSection (h : Host) (id0 : string) (d : Doc) : Doc :=
  if negb (getElementById id0 d) then d
  else setActiveSection id0 (tryFocus h id0 (scrollIntoView id0 d)).

Definition goToNextSection (h : Host) (d : Doc) : Doc :=
  let idx := getActiveIndex d in
  let secs := getSections d in
  if (idx <? Z.of_nat (List.length secs) - 1)%Z
  then match index secs (idx + 1)%Z with
       | Some s => navigateToSection h (id s) d
       | None => d
       end
  else d.

Definition goToPrevSection (h : Host) (d : Doc) : Doc :=
  let idx := getActiveIndex d in
  let secs := getSections d in
  if (0 <? idx)%Z
  then match index secs (idx - 1)%Z with
       | Some s => navigateToSection h (id s) d
       | None => d
       end
  else d.

(** The [keydown] listener installed by [initNavigation]. *)
Definition onKeydown (h : Host) (key : string) (d : Doc) : Doc :=
  if String.eqb key "ArrowDown" || String.eqb key "PageDown" then goToNextSection h d
  else if String.eqb key "ArrowUp" || String.eqb key "PageUp" then goToPrevSection h d
  else d.

(** The [click] listener of the [n]-th nav link. *)
Definition onNavClick (h : Host) (n : nat) (d : Doc) : Doc :=
  match nth_error (navLinks d) n with
  | Some link => navigateToSection h (slice1 (href link)) d
  | None => d
  end.

(** ** Intersection observer (script.js) *)

Definition Qlt_bool (x y : Q) : bool := negb (Qle_bool y x).

(** One entry of a callback batch; [target] is the position of the observed
    section in document order. *)
Record IntersectionObserverEntry := mkEntry {
  target : nat;
  intersectionRatio : Q
}.

Definition showTarget (_ : nat) (el : Element) : Element :=
  {| classList := DOMTokenList.add "is-visible" (classList el);
     transitionDelay := transitionDelay el |}.

Definition withSections (secs : list SectionEl) (d : Doc) : Doc :=
  {| sections := secs; navLinks := navLinks d; otherIds := otherIds d;
     scrolledTo := scrolledTo d; activeElement := activeElement d |}.

Definition observerEntry (d : Doc) (entry : IntersectionObserverEntry) : Doc :=
  if Qlt_bool (1 # 2) (intersectionRatio entry)
  then
    updateNavCurrent
      (withSections
         (updateAt (target entry)
            (fun s =>
               {| id := id s;
                  sectionClasses := DOMTokenList.add "active" (sectionClasses s);
                  ariaHidden := ariaHidden s;
                  descendants := forEachMatch OBSERVER_TARGETS showTarget (descendants s) |})
            (sections d))
         d)
  else
    withSections
      (updateAt (target entry)
         (fun s =>
            {| id := id s;
               sectionClasses := DOMTokenList.remove "active" (sectionClasses s);
               ariaHidden := ariaHidden s;
               descendants := descendants s |})
         (sections d))
      d.

(** The observer callback: [entries.forEach(...)]. *)
Definition observerCallback (entries : list IntersectionObserverEntry) (d : Doc) : Doc :=
  fold_left observerEntry entries d.

(** ** Nearest element to a reference point (script.js) *)

(** A JavaScript number: an IEEE 754 binary64 value. *)
Definition number : Set := PrimFloat.float.

Definition Infinity : number := PrimFloat.infinity.

Record DOMRect := mkRect { top : number; left : number; width : number; height : number }.

(** Layout as the browser reports it when the timer fires. *)
Record Viewport := mkViewport {
  innerHeight : number;
  boundingClientRect : nat -> DOMRect
}.

(** [dist < minDist] *)
Definition belowMin (dist minDist : number) : bool := PrimFloat.ltb dist minDist.

(** The loop [forEach(x => { ...; if (dist < minDist) { minDist = dist;
    closest = ... } })] shared by [chooseClosestSection] and
    [indexFromScroll]. *)
Fixpoint closestLoop {A B} (dist : A -> number) (pick : A -> B)
         (l : list A) (minDist : number) (closest : B) : B :=
  match l with
  | [] => closest
  | x :: r =>
      if belowMin (dist x) minDist
      then closestLoop dist pick r (dist x) (pick x)
      else closestLoop dist pick r minDist closest
  end.

Definition indexed {A} (l : list A) : list (nat * A) := mapi (fun i x => (i, x)) l.

Definition sectionDistance (vp : Viewport) (i : nat) : number :=
  let viewportCenter := (innerHeight vp / 2)%float in
  let rect := boundingClientRect vp i in
  let center := (top rect + height rect / 2)%float in
  PrimFloat.abs (center - viewportCenter)%float.

Definition chooseClosestSection (vp : Viewport) (d : Doc) : option SectionEl :=
  match getSections d with
  | [] => None
  | first :: _ =>
      Some (closestLoop (fun p => sectionDistance vp (fst p)) snd
                        (indexed (getSections d)) Infinity first)
  end.

(** The timer callback of [initScrollWatcher], 120ms after the last scroll. *)
Definition onScrollSettled (vp : Viewport) (d : Doc) : Doc :=
  match chooseClosestSection vp d with
  | Some sec => setActiveSection (id sec) d
  | None => d
  end.

(** Last step of the load handler: activate the first section. *)
Definition bootstrap (d : Doc) : Doc :=
  match getSections d with
  | first :: _ => setActiveSection (id first) d
  | [] => d
  end.

(** ** The activation state machine *)

Inductive Event :=
| Intersection (entries : list IntersectionObserverEntry)
| ScrollSettled (vp : Viewport)
| NavClick (n : nat)
| KeyDown (key : string).

Definition handle (h : Host) (ev : Event) (d : Doc) : Doc :=
  match ev with
  | Intersection entries => observerCallback entries d
  | ScrollSettled vp => onScrollSettled vp d
  | NavClick n => onNavClick h n d
  | KeyDown key => onKeydown h key d
  end.

(** States reachable from the loaded document [d0] once the load handler
    has run, under any sequence of callbacks. *)
Inductive Reachable (h : Host) (d0 : Doc) : Doc -> Prop :=
| Reachable_init : Reachable h d0 (bootstrap d0)
| Reachable_step : forall d ev,
    Reachable h d0 d -> Reachable h d0 (handle h ev d).

Definition activeCount (d : Doc) : nat :=
  List.length (filter isActiveSection (sections d)).

(** ** Statements that can throw: a state and exception monad *)

Inductive Exn := TypeError | ReferenceError | DOMException.

Inductive Completion (A : Type) :=
| Normal (a : A)
| Throw (e : Exn).
Arguments Normal {A} a.
Arguments Throw {A} e.

(** A statement run on a state [S]: how it completes, and the state it
    leaves behind (an exception does not undo earlier writes). *)
Definition JS (S A : Type) : Type := S -> Completion A * S.

Definition ret {S A} (a : A) : JS S A := fun s => (Normal a, s).

Definition bind {S A B} (c : JS S A) (k : A -> JS S B) : JS S B :=
  fun s =>
    match c s with
    | (Normal a, s') => k a s'
    | (Throw e, s') => (Throw e, s')
    end.

Definition throw {S A} (e : Exn) : JS S A := fun s => (Throw e, s).

Definition gets {S A} (f : S -> A) : JS S A := fun s => (Normal (f s), s).

Definition modify {S} (f : S -> S) : JS S unit := fun s => (Normal tt, f s).

(** [try { c } catch (e) {}] *)
Definition tryCatch {S} (c : JS S unit) : JS S unit :=
  fun s =>
    match c s with
    | (Normal _, s') => (Normal tt, s')
    | (Throw _, s') => (Normal tt, s')
    end.

(** Run a statement on one component of a larger state. *)
Definition zoom {S T A} (proj : S -> T) (inj : T -> S -> S) (c : JS T A) : JS S A :=
  fun s =>
    match c (proj s) with
    | (r, t') => (r, inj t' s)
    end.

Declare Scope js_scope.
Delimit Scope js_scope with js.
Notation "x <- c1 ;; c2" := (bind c1 (fun x => c2))
  (at level 61, c1 at next level, right associativity) : js_scope.
Notation "c1 ;; c2" := (bind c1 (fun _ => c2))
  (at level 61, right associativity) : js_scope.

Definition completes {A} (r : Completion A) : bool :=
  match r with Normal _ => true | Throw _ => false end.

(** ** Theme (script.js) *)

Module Theme.

Local Open Scope js_scope.

(** [localStorage]: its entries, and whether the host refuses reads or
    writes (blocked storage, exceeded quota). *)
Record Storage := mkStorage {
  items : list (string * string);
  getItemThrows : bool;
  setItemThrows : bool
}.

(** The [#theme-toggle] button; a [None] text is a missing child element. *)
Record Button := mkButton {
  ariaPressed : option string;
  toggleText : option string;
  toggleIcon : option string
}.

Record State := mkState {
  dataTheme : option string;      (* data-theme of the root element *)
  localStorage : Storage;
  themeToggle : option Button
}.

Definition KEY : string := "jz-theme".

Fixpoint lookup (k : string) (l : list (string * string)) : option string :=
  match l with
  | [] => None
  | (k', v) :: r => if String.eqb k k' then Some v else lookup k r
  end.

Definition store (k v : string) (l : list (string * string)) : list (string * string) :=
  (k, v) :: filter (fun p => negb (String.eqb k (fst p))) l.

Definition getItem (k : string) : JS State (option string) :=
  fun s =>
    if getItemThrows (localStorage s) then (Throw DOMException, s)
    else (Normal (lookup k (items (localStorage s))), s).

Definition setItem (k v : string) : JS State unit :=
  fun s =>
    if setItemThrows (localStorage s) then (Throw DOMException, s)
    else (Normal tt,
          {| dataTheme := dataTheme s;
             localStorage :=
               {| items := store k v (items (localStorage s));
                  getItemThrows := getItemThrows (localStorage s);
                  setItemThrows := setItemThrows (localStorage s) |};
             themeToggle := themeToggle s |}).

Definition getAttribute : JS State (option string) := gets dataTheme.

Definition setAttribute (v : string) : JS State unit :=
  modify (fun s => {| dataTheme := Some v;
                      localStorage := localStorage s;
                      themeToggle := themeToggle s |}).

Definition setButton (b : Button) : JS State unit :=
  modify (fun s => {| dataTheme := dataTheme s;
                      localStorage := localStorage s;
                      themeToggle := Some b |}).

Definition isDark (theme : option string) : bool :=
  match theme with
  | Some t => String.eqb t "dark"
  | None => false
  end.

(** [updateThemeButton(theme)]: writing [textContent] of a missing child
    is a [TypeError]. *)
Definition updateThemeButton (theme : option string) : JS State unit :=
  btn <- gets themeToggle ;;
  match btn with
  | None => ret tt
  | Some b =>
      let b1 := {| ariaPressed := Some (String_of_bool (isDark theme));
                   toggleText := toggleText b; toggleIcon := toggleIcon b |} in
      setButton b1 ;;
      match toggleText b1 with
      | None => throw TypeError
      | Some _ =>
          let b2 := {| ariaPressed := ariaPressed b1;
                       toggleText := Some (if isDark theme then "Dark" else "Light");
                       toggleIcon := toggleIcon b1 |} in
          setButton b2 ;;
          match toggleIcon b2 with
          | None => throw TypeError
          | Some _ =>
              setButton {| ariaPressed := ariaPressed b2;
                           toggleText := toggleText b2;
                           toggleIcon := Some (if isDark theme then "🌙" else "☀️") |}
          end
      end
  end.

(** The theme [toggle] reads as current. *)
Definition current (attr : option string) : string :=
  match attr with
  | Some t => if String.eqb t "light" then "light" else "dark"
  | None => "dark"
  end.

Definition toggle : JS State unit :=
  attr <- getAttribute ;;
  let cur := current attr in
  let next := if String.eqb cur "light" then "dark" else "light" in
  setAttribute next ;;
  tryCatch (setItem KEY next) ;;
  updateThemeButton (Some next).

Definition init : JS State unit :=
  saved <- getItem KEY ;;
  (match saved with
   | Some v => if truthy v then setAttribute v else ret tt
   | None => ret tt
   end) ;;
  attr <- getAttribute ;;
  updateThemeButton attr.

(** The preference the storage holds. *)
Definition persisted (s : State) : option string := lookup KEY (items (localStorage s)).

(** The theme on display, as [toggle] reads it. *)
Definition displayed (s : State) : string := current (dataTheme s).

End Theme.

(** ** Regular expressions, for [isEmailValid] *)

Module RegExp.

Inductive t :=
| Fail
| Eps
| Class (p : codeUnit -> bool)
| Seq (r1 r2 : t)
| Alt (r1 r2 : t)
| Star (r : t).

Definition Plus (r : t) : t := Seq r (Star r).

Fixpoint nullable (r : t) : bool :=
  match r with
  | Fail => false
  | Eps => true
  | Class _ => false
  | Seq r1 r2 => nullable r1 && nullable r2
  | Alt r1 r2 => nullable r1 || nullable r2
  | Star _ => true
  end.

(** Brzozowski derivative with respect to one code unit. *)
Fixpoint deriv (c : codeUnit) (r : t) : t :=
  match r with
  | Fail => Fail
  | Eps => Fail
  | Class p => if p c then Eps else Fail
  | Seq r1 r2 =>
      if nullable r1
      then Alt (Seq (deriv c r1) r2) (deriv c r2)
      else Seq (deriv c r1) r2
  | Alt r1 r2 => Alt (deriv c r1) (deriv c r2)
  | Star r1 => Seq (deriv c r1) (Star r1)
  end.

(** [/^r$/.test(s)]: without the [u] flag the expression is matched
    against the code units of [s]. *)
Fixpoint test (r : t) (s : DOMString) : bool :=
  match s with
  | [] => nullable r
  | c :: rest => test (deriv c r) rest
  end.

End RegExp.

(** White space of [\s] and of [trim()]: the WhiteSpace and
    LineTerminator code points of ECMAScript, all of them single code
    units.  U+0009 to U+000D, U+0020, U+00A0, U+1680, U+2000 to U+200A,
    U+2028, U+2029, U+202F, U+205F, U+3000, U+FEFF. *)
Definition isWhiteSpace (c : codeUnit) : bool :=
  (N.leb 9 c && N.leb c 13) || N.eqb c 32 || N.eqb c 160 || N.eqb c 5760
  || (N.leb 8192 c && N.leb c 8202) || N.eqb c 8232 || N.eqb c 8233
  || N.eqb c 8239 || N.eqb c 8287 || N.eqb c 12288 || N.eqb c 65279.

Fixpoint dropWhile {A} (p : A -> bool) (l : list A) : list A :=
  match l with
  | [] => []
  | x :: r => if p x then dropWhile p r else l
  end.

(** [str.trim()] *)
Definition trim (s : DOMString) : DOMString :=
  rev (dropWhile isWhiteSpace (rev (dropWhile isWhiteSpace s))).

(** ** Contact form *)

Module ContactForm.

Local Open Scope js_scope.

(** An input of the form, with the text of its [{id}-error] slot
    ([None] when the slot element does not exist). *)
Record Field := mkField {
  value : DOMString;
  defaultValue : DOMString;
  ariaInvalid : option string;
  errorSlot : option string
}.

(** The form; a [None] field or status is a [querySelector] that found
    nothing. *)
Record Form := mkForm {
  name : option Field;
  email : option Field;
  message : option Field;
  status : option string
}.

Inductive FieldName := FName | FEmail | FMessage.

Definition getField (f : FieldName) (fm : Form) : option Field :=
  match f with
  | FName => name fm
  | FEmail => email fm
  | FMessage => message fm
  end.

Definition putField (f : FieldName) (x : Field) (fm : Form) : Form :=
  match f with
  | FName => {| name := Some x; email := email fm; message := message fm; status := status fm |}
  | FEmail => {| name := name fm; email := Some x; message := message fm; status := status fm |}
  | FMessage => {| name := name fm; email := email fm; message := Some x; status := status fm |}
  end.

(** [setError(input, msg)]; reading [input.id] of [null] throws. *)
Definition setError (f : FieldName) (msg : string) : JS Form unit :=
  input <- gets (getField f) ;;
  match input with
  | None => throw TypeError
  | Some x =>
      modify (putField f
        {| value := value x;
           defaultValue := defaultValue x;
           ariaInvalid := Some (if truthy msg then "true" else "false");
           errorSlot := match errorSlot x with
                        | Some _ => Some msg
                        | None => None
                        end |})
  end.

(** The code units of [@] and of [.]. *)
Definition atSign : codeUnit := 64%N.
Definition fullStop : codeUnit := 46%N.

(** [[^\s@]] *)
Definition notSpaceNorAt (c : codeUnit) : bool :=
  negb (isWhiteSpace c || N.eqb c atSign).

(** [/^[^\s@]+@[^\s@]+\.[^\s@]+$/] *)
Definition emailPattern : RegExp.t :=
  RegExp.Seq (RegExp.Plus (RegExp.Class notSpaceNorAt))
    (RegExp.Seq (RegExp.Class (N.eqb atSign))
       (RegExp.Seq (RegExp.Plus (RegExp.Class notSpaceNorAt))
          (RegExp.Seq (RegExp.Class (N.eqb fullStop))
             (RegExp.Plus (RegExp.Class notSpaceNorAt))))).

Definition isEmailValid (v : DOMString) : bool := RegExp.test emailPattern v.

(** [if (status) status.textContent = msg] *)
Definition setStatus (msg : string) : JS Form unit :=
  modify (fun fm =>
            {| name := name fm; email := email fm; message := message fm;
               status := match status fm with
                         | Some _ => Some msg
                         | None => None
                         end |}).

Definition resetField (x : option Field) : option Field :=
  match x with
  | Some f => Some {| value := defaultValue f; defaultValue := defaultValue f;
                      ariaInvalid := ariaInvalid f; errorSlot := errorSlot f |}
  | None => None
  end.

(** [form.reset()]: every control goes back to its default value. *)
Definition reset : JS Form unit :=
  modify (fun fm =>
            {| name := resetField (name fm); email := resetField (email fm);
               message := resetField (message fm); status := status fm |}).

(** The [input] listener of one field. *)
Definition onInput (f : FieldName) : JS Form unit :=
  setError f "" ;; setStatus "".

(** What the free identifiers [carousel] and [cards] of the submit
    listener resolve to in the global scope, if anything: neither is
    declared by the script outside [initProjectCarousel]. *)
Record GlobalScope := mkGlobalScope {
  global_carousel : option DOMRect;
  global_cards : option (list DOMRect)
}.

(** The [submit] listener of script.js.  Its body computes the index of
    the card nearest to the carousel center and returns it; the
    statements after the [return] are never run. *)
Definition onSubmit (g : GlobalScope) : JS Form nat :=
  match global_carousel g with
  | None => throw ReferenceError
  | Some carouselRect =>
      let center := (left carouselRect + width carouselRect / 2)%float in
      match global_cards g with
      | None => throw ReferenceError
      | Some cards =>
          ret (closestLoop
                 (fun p => let rect := snd p in
                           let cardCenter := (left rect + width rect / 2)%float in
                           PrimFloat.abs (cardCenter - center)%float)
                 fst (indexed cards) Infinity 0%nat)
      end
  end.

End ContactForm.

(** ** Project carousel (script.js) *)

Module Carousel.

Record Card := mkCard {
  cardClasses : DOMTokenList.t;
  offsetLeft : number;
  offsetWidth : number
}.

(** The [.project-carousel] element with its cards, the indicators, the
    closure variable [currentIndex] and the card last scrolled into view. *)
Record State := mkState {
  scrollLeft : number;
  clientWidth : number;
  cards : list Card;
  indicators : list DOMTokenList.t;
  currentIndex : Z;
  scrolledToCard : option Z
}.

Definition isIndex (i : nat) (idx : Z) : bool := (Z.of_nat i =? idx)%Z.

(** [indicators.forEach((ind, i) => ind.classList.toggle('active', i === index))] *)
Definition updateIndicators (idx : Z) (inds : list DOMTokenList.t) : list DOMTokenList.t :=
  mapi (fun i ind => DOMTokenList.toggle "active" (isIndex i idx) ind) inds.

(** [cards.forEach((c, i) => c.classList.toggle('active-slide', i === currentIndex))] *)
Definition markActiveSlide (idx : Z) (cs : list Card) : list Card :=
  mapi (fun i c =>
          {| cardClasses := DOMTokenList.toggle "active-slide" (isIndex i idx) (cardClasses c);
             offsetLeft := offsetLeft c;
             offsetWidth := offsetWidth c |}) cs.

Definition scrollToIndex (idx : Z) (s : State) : State :=
  let idx := Z.max 0 (Z.min (Z.of_nat (List.length (cards s)) - 1) idx) in
  match index (cards s) idx with
  | None => s
  | Some _ =>
      {| scrollLeft := scrollLeft s;
         clientWidth := clientWidth s;
         cards := markActiveSlide idx (cards s);
         indicators := updateIndicators idx (indicators s);
         currentIndex := idx;
         scrolledToCard := Some idx |}
  end.

Definition cardDistance (center : number) (c : Card) : number :=
  let cardCenter := (offsetLeft c + offsetWidth c / 2)%float in
  PrimFloat.abs (cardCenter - center)%float.

Definition indexFromScroll (s : State) : nat :=
  let center := (scrollLeft s + clientWidth s / 2)%float in
  closestLoop (fun p => cardDistance center (snd p)) fst (indexed (cards s)) Infinity 0%nat.

(** The timer callback of the carousel's scroll listener (80ms). *)
Definition onScrollSettled (s : State) : State :=
  let idx := Z.of_nat (indexFromScroll s) in
  if negb (idx =? currentIndex s)%Z
  then {| scrollLeft := scrollLeft s;
          clientWidth := clientWidth s;
          cards := markActiveSlide idx (cards s);
          indicators := updateIndicators idx (indicators s);
          currentIndex := idx;
          scrolledToCard := scrolledToCard s |}
  else s.

(** The state [initProjectCarousel] leaves when the container exists. *)
Definition initialState (s : State) : State :=
  {| scrollLeft := scrollLeft s;
     clientWidth := clientWidth s;
     cards := markActiveSlide 0 (cards s);
     indicators := updateIndicators 0 (indicators s);
     currentIndex := 0;
     scrolledToCard := scrolledToCard s |}.

End Carousel.

(** ** The whole page and its load handler (script.js) *)

(** Where a card or an indicator sits in the document: [Some (k, j)] when it
    is the [j]-th descendant of the [k]-th section, [None] when it is
    outside every section.  A card or indicator below a section is the same
    object as that descendant: it has one class list, reached through
    either name.  No card or indicator is itself a section, and no element
    is listed twice. *)
Definition Place : Set := option (nat * nat).

(** [el.classList.toggle(token, force)] on a descendant of a section. *)
Definition toggleElement (token : string) (force : bool) (e : Element) : Element :=
  {| classList := DOMTokenList.toggle token force (classList e);
     transitionDelay := transitionDelay e |}.

Definition withDescendants (f : list Element -> list Element) (s : SectionEl) : SectionEl :=
  {| id := id s;
     sectionClasses := sectionClasses s;
     ariaHidden := ariaHidden s;
     descendants := f (descendants s) |}.

(** The same [toggle], seen from the document, on the element at a place. *)
Definition toggleAt (token : string) (force : bool) (pl : Place) (d : Doc) : Doc :=
  match pl with
  | None => d
  | Some (k, j) =>
      {| sections :=
           updateAt k (withDescendants (updateAt j (toggleElement token force))) (sections d);
         navLinks := navLinks d;
         otherIds := otherIds d;
         scrolledTo := scrolledTo d;
         activeElement := activeElement d |}
  end.

(** [els.forEach((el, i) => el.classList.toggle(token, i === index))], seen
    from the document: [places] are the places of [els], counted from [i]. *)
Fixpoint toggleEachFrom (token : string) (idx : Z) (i : nat) (places : list Place)
         (d : Doc) : Doc :=
  match places with
  | [] => d
  | pl :: r => toggleEachFrom token idx (S i) r (toggleAt token (Carousel.isIndex i idx) pl d)
  end.

(** The class list of the element at a place, [own] for an element outside
    the sections. *)
Definition classesAt (d : Doc) (pl : Place) (own : DOMTokenList.t) : DOMTokenList.t :=
  match pl with
  | None => own
  | Some (k, j) =>
      match nth_error (sections d) k with
      | None => own
      | Some s =>
          match nth_error (descendants s) j with
          | None => own
          | Some e => classList e
          end
      end
  end.

(** Which listeners, observers and timers have been installed. *)
Record Listeners := mkListeners {
  navigationL : bool;
  observerL : bool;
  formSubmitL : bool;
  formInputL : bool;
  carouselL : bool;
  mobileMenuL : bool;
  scrollWatcherL : bool;
  themeClickL : bool
}.

Definition noListeners : Listeners :=
  mkListeners false false false false false false false false.

Record Page := mkPage {
  doc : Doc;
  theme : Theme.State;
  contactForm : option ContactForm.Form;
  yearText : option string;                 (* text of #year, if it exists *)
  projectCarousel : option Carousel.State;
  cardPlaces : list Place;                  (* where the cards sit *)
  indicatorPlaces : list Place;             (* where the indicators sit *)
  menuExpanded : option (option string);    (* aria-expanded of .menu-toggle,
                                               when toggle and nav both exist *)
  listeners : Listeners
}.

Definition withDoc (f : Doc -> Doc) (p : Page) : Page :=
  mkPage (f (doc p)) (theme p) (contactForm p) (yearText p) (projectCarousel p)
         (cardPlaces p) (indicatorPlaces p) (menuExpanded p) (listeners p).

Definition withTheme (t : Theme.State) (p : Page) : Page :=
  mkPage (doc p) t (contactForm p) (yearText p) (projectCarousel p)
         (cardPlaces p) (indicatorPlaces p) (menuExpanded p) (listeners p).

Definition withYear (y : option string) (p : Page) : Page :=
  mkPage (doc p) (theme p) (contactForm p) y (projectCarousel p)
         (cardPlaces p) (indicatorPlaces p) (menuExpanded p) (listeners p).

Definition withCarousel (c : option Carousel.State) (p : Page) : Page :=
  mkPage (doc p) (theme p) (contactForm p) (yearText p) c
         (cardPlaces p) (indicatorPlaces p) (menuExpanded p) (listeners p).

Definition withMenu (m : option (option string)) (p : Page) : Page :=
  mkPage (doc p) (theme p) (contactForm p) (yearText p) (projectCarousel p)
         (cardPlaces p) (indicatorPlaces p) m (listeners p).

Definition withListeners (f : Listeners -> Listeners) (p : Page) : Page :=
  mkPage (doc p) (theme p) (contactForm p) (yearText p) (projectCarousel p)
         (cardPlaces p) (indicatorPlaces p) (menuExpanded p) (f (listeners p)).

(** The two loops that end [initProjectCarousel], seen from the document:
    the indicators first, then the cards. *)
Definition carouselWrites (p : Page) : Doc :=
  match projectCarousel p with
  | None => doc p
  | Some c =>
      toggleEachFrom "active-slide" 0 0
        (firstn (List.length (Carousel.cards c)) (cardPlaces p))
        (toggleEachFrom "active" 0 0
           (firstn (List.length (Carousel.indicators c)) (indicatorPlaces p))
           (doc p))
  end.

(** The class lists of the cards and indicators that sit below a section,
    read again from the document after the document has been written to. *)
Definition refreshCarousel (p : Page) : Page :=
  withCarousel
    (option_map
       (fun c =>
          {| Carousel.scrollLeft := Carousel.scrollLeft c;
             Carousel.clientWidth := Carousel.clientWidth c;
             Carousel.cards :=
               mapi (fun i card =>
                       {| Carousel.cardClasses :=
                            classesAt (doc p) (nth i (cardPlaces p) None)
                                      (Carousel.cardClasses card);
                          Carousel.offsetLeft := Carousel.offsetLeft card;
                          Carousel.offsetWidth := Carousel.offsetWidth card |})
                    (Carousel.cards c);
             Carousel.indicators :=
               mapi (fun i own => classesAt (doc p) (nth i (indicatorPlaces p) None) own)
                    (Carousel.indicators c);
             Carousel.currentIndex := Carousel.currentIndex c;
             Carousel.scrolledToCard := Carousel.scrolledToCard c |})
       (projectCarousel p))
    p.

(** The functions of script.js that set the page up.  The stray
    [try { card.tabIndex = -1; card.focus(...) } catch (e) {}] the file has
    at top level reads an unbound [card], is caught, and does nothing. *)
Module Script.

Local Open Scope js_scope.

Definition initNavigation : JS Page unit :=
  modify (withListeners (fun l =>
    mkListeners true (observerL l) (formSubmitL l) (formInputL l) (carouselL l)
                (mobileMenuL l) (scrollWatcherL l) (themeClickL l))).

Definition initSectionObserver : JS Page unit :=
  secs <- gets (fun p => getSections (doc p)) ;;
  match secs with
  | [] => ret tt
  | _ :: _ =>
      modify (withListeners (fun l =>
        mkListeners (navigationL l) true (formSubmitL l) (formInputL l) (carouselL l)
                    (mobileMenuL l) (scrollWatcherL l) (themeClickL l)))
  end.

(** [initForm]: the submit listener is attached first; attaching the
    input listeners throws on a missing field. *)
Definition initForm : JS Page unit :=
  form <- gets contactForm ;;
  match form with
  | None => ret tt
  | Some fm =>
      modify (withListeners (fun l =>
        mkListeners (navigationL l) (observerL l) true (formInputL l) (carouselL l)
                    (mobileMenuL l) (scrollWatcherL l) (themeClickL l))) ;;
      match ContactForm.name fm, ContactForm.email fm, ContactForm.message fm with
      | Some _, Some _, Some _ =>
          modify (withListeners (fun l =>
            mkListeners (navigationL l) (observerL l) (formSubmitL l) true (carouselL l)
                        (mobileMenuL l) (scrollWatcherL l) (themeClickL l)))
      | _, _, _ => throw TypeError
      end
  end.

(** [setYear], with the year the host clock gives. *)
Definition setYear (fullYear : nat) : JS Page unit :=
  el <- gets yearText ;;
  match el with
  | Some _ => modify (withYear (Some (string_of_nat fullYear)))
  | None => ret tt
  end.

(** [initProjectCarousel]: the two loops at its end write to the cards and
    to the indicators, which are descendants of a section when the carousel
    sits inside one. *)
Definition initProjectCarousel : JS Page unit :=
  carousel <- gets projectCarousel ;;
  match carousel with
  | None => ret tt
  | Some c =>
      modify (withListeners (fun l =>
        mkListeners (navigationL l) (observerL l) (formSubmitL l) (formInputL l) true
                    (mobileMenuL l) (scrollWatcherL l) (themeClickL l))) ;;
      modify (fun p => withDoc (fun _ => carouselWrites p) p) ;;
      modify (withCarousel (Some (Carousel.initialState c)))
  end.

Definition initMobileMenu : JS Page unit :=
  menu <- gets menuExpanded ;;
  match menu with
  | None => ret tt
  | Some _ =>
      modify (withListeners (fun l =>
        mkListeners (navigationL l) (observerL l) (formSubmitL l) (formInputL l) (carouselL l)
                    true (scrollWatcherL l) (themeClickL l))) ;;
      modify (withMenu (Some (Some "false")))
  end.

Definition initScrollWatcher : JS Page unit :=
  modify (withListeners (fun l =>
    mkListeners (navigationL l) (observerL l) (formSubmitL l) (formInputL l) (carouselL l)
                (mobileMenuL l) true (themeClickL l))).

Definition hookThemeToggle : JS Page unit :=
  btn <- gets (fun p => Theme.themeToggle (theme p)) ;;
  match btn with
  | Some _ =>
      modify (withListeners (fun l =>
        mkListeners (navigationL l) (observerL l) (formSubmitL l) (formInputL l) (carouselL l)
                    (mobileMenuL l) (scrollWatcherL l) true))
  | None => ret tt
  end.

(** [const first = getSections()[0]; if (first) setActiveSection(first.id)];
    the activation writes to every descendant it reveals or hides, cards
    and indicators among them. *)
Definition activateFirst : JS Page unit :=
  modify (fun p => refreshCarousel (withDoc bootstrap p)).

(** The [DOMContentLoaded] listener. *)
Definition onDOMContentLoaded (fullYear : nat) : JS Page unit :=
  zoom theme withTheme Theme.init ;;
  initNavigation ;;
  initSectionObserver ;;
  initForm ;;
  setYear fullYear ;;
  initProjectCarousel ;;
  initMobileMenu ;;
  initScrollWatcher ;;
  hookThemeToggle ;;
  activateFirst.

End Script.

(** ** The older copy of the script

    It shares [setActiveSection], [updateNavCurrent], the observer callback,
    the theme object and the helpers of the form with script.js; what
    differs is modelled here. *)

Module Legacy.

Local Open Scope js_scope.

(** [navigateToSection]: scrolls and focuses, without a [try] and without
    activating the section itself. *)
Definition navigateToSection (h : Host) (id0 : string) : JS Doc unit :=
  found <- gets (getElementById id0) ;;
  if negb found then ret tt
  else
    modify (scrollIntoView id0) ;;
    match focusOutcome h id0 with
    | FocusThrows => throw TypeError
    | _ => modify (tryFocus h id0)
    end.

Definition fieldValue (f : ContactForm.FieldName) : JS ContactForm.Form DOMString :=
  input <- gets (ContactForm.getField f) ;;
  match input with
  | None => throw TypeError
  | Some x => ret (ContactForm.value x)
  end.

(** One [if (!field.value.trim()) { setError(...); valid = false; }
    else setError(field, '')] step; returns the new [valid]. *)
Definition requireValue (f : ContactForm.FieldName) (msg : string) (valid : bool)
  : JS ContactForm.Form bool :=
  v <- fieldValue f ;;
  if negb (nonEmpty (trim v))
  then ContactForm.setError f msg ;; ret false
  else ContactForm.setError f "" ;; ret valid.

Definition requireEmail (valid : bool) : JS ContactForm.Form bool :=
  v <- fieldValue ContactForm.FEmail ;;
  if negb (nonEmpty (trim v))
  then ContactForm.setError ContactForm.FEmail "Please enter your email." ;; ret false
  else
    v' <- fieldValue ContactForm.FEmail ;;
    if negb (ContactForm.isEmailValid (trim v'))
    then ContactForm.setError ContactForm.FEmail "Please enter a valid email address." ;;
         ret false
    else ContactForm.setError ContactForm.FEmail "" ;; ret valid.

(** The [submit] listener. *)
Definition onSubmit : JS ContactForm.Form unit :=
  valid <- requireValue ContactForm.FName "Please enter your name." true ;;
  valid <- requireEmail valid ;;
  valid <- requireValue ContactForm.FMessage "Please enter a message." valid ;;
  if negb valid
  then ContactForm.setStatus "Please fix the errors above."
  else
    ContactForm.setStatus "Thanks — your message was sent (simulation)." ;;
    ContactForm.reset.

(** [initProjectCarousel]: [carousel.querySelectorAll] comes first and
    throws on a missing container; the function only installs listeners,
    it writes to no card and to no indicator. *)
Definition initProjectCarousel : JS Page unit :=
  carousel <- gets projectCarousel ;;
  match carousel with
  | None => throw TypeError
  | Some _ =>
      modify (withListeners (fun l =>
        mkListeners (navigationL l) (observerL l) (formSubmitL l) (formInputL l) true
                    (mobileMenuL l) (scrollWatcherL l) (themeClickL l)))
  end.

(** The [DOMContentLoaded] listener. *)
Definition onDOMContentLoaded (fullYear : nat) : JS Page unit :=
  zoom theme withTheme Theme.init ;;
  Script.initNavigation ;;
  Script.initSectionObserver ;;
  Script.initForm ;;
  Script.setYear fullYear ;;
  initProjectCarousel ;;
  Script.hookThemeToggle ;;
  Script.activateFirst.

End Legacy.

(** ** Carousel controls (script.js) *)

Module CarouselControls.

(** The [click] listener of the previous button. *)
Definition onPrevClick (s : Carousel.State) : Carousel.State :=
  Carousel.scrollToIndex (Carousel.currentIndex s - 1) s.

(** The [click] listener of the next button. *)
Definition onNextClick (s : Carousel.State) : Carousel.State :=
  Carousel.scrollToIndex (Carousel.currentIndex s + 1) s.

(** The [click] listener of the [i]-th indicator; only the indicators that
    exist have one. *)
Definition onIndicatorClick (i : nat) (s : Carousel.State) : Carousel.State :=
  match nth_error (Carousel.indicators s) i with
  | Some _ => Carousel.scrollToIndex (Z.of_nat i) s
  | None => s
  end.

(** The browser has moved the carousel to scroll offset [x] (drag, wheel,
    smooth scrolling): no listener of the script has run yet. *)
Definition scrolledBy (x : number) (s : Carousel.State) : Carousel.State :=
  {| Carousel.scrollLeft := x;
     Carousel.clientWidth := Carousel.clientWidth s;
     Carousel.cards := Carousel.cards s;
     Carousel.indicators := Carousel.indicators s;
     Carousel.currentIndex := Carousel.currentIndex s;
     Carousel.scrolledToCard := Carousel.scrolledToCard s |}.

Inductive Event :=
| PrevClick
| NextClick
| IndicatorClick (i : nat)
| ScrollMoved (x : number)
| ScrollSettled.

Definition handle (ev : Event) (s : Carousel.State) : Carousel.State :=
  match ev with
  | PrevClick => onPrevClick s
  | NextClick => onNextClick s
  | IndicatorClick i => onIndicatorClick i s
  | ScrollMoved x => scrolledBy x s
  | ScrollSettled => Carousel.onScrollSettled s
  end.

(** States reachable once [initProjectCarousel] has run on [s0]. *)
Inductive Reachable (s0 : Carousel.State) : Carousel.State -> Prop :=
| Reachable_init : Reachable s0 (Carousel.initialState s0)
| Reachable_step : forall s ev, Reachable s0 s -> Reachable s0 (handle ev s).

Definition isActiveSlide (c : Carousel.Card) : bool :=
  DOMTokenList.contains "active-slide" (Carousel.cardClasses c).

Definition isActiveIndicator (ind : DOMTokenList.t) : bool :=
  DOMTokenList.contains "active" ind.

(** Cards and indicators carry their flag exactly at [currentIndex]. *)
Definition inSync (s : Carousel.State) : Prop :=
  (forall i c, nth_error (Carousel.cards s) i = Some c ->
               isActiveSlide c = Carousel.isIndex i (Carousel.currentIndex s)) /\
  (forall i ind, nth_error (Carousel.indicators s) i = Some ind ->
                 isActiveIndicator ind = Carousel.isIndex i (Carousel.currentIndex s)).

(** [Math.max(0, Math.min(n - 1, index))] *)
Definition clamp (n : nat) (idx : Z) : Z := Z.max 0 (Z.min (Z.of_nat n - 1) idx).

End CarouselControls.

(** ** Mobile menu (script.js) *)

Module MobileMenu.

(** The [menu-open] class of the body, [aria-expanded] of the toggle and the
    inline [visibility] of the nav; both elements exist. *)
Record State := mkState {
  bodyClasses : DOMTokenList.t;
  ariaExpanded : option string;
  navVisibility : string
}.

Definition closeMenu (s : State) : State :=
  {| bodyClasses := DOMTokenList.remove "menu-open" (bodyClasses s);
     ariaExpanded := Some "false";
     navVisibility := "hidden" |}.

Definition openMenu (s : State) : State :=
  {| bodyClasses := DOMTokenList.add "menu-open" (bodyClasses s);
     ariaExpanded := Some "true";
     navVisibility := "visible" |}.

Definition isOpen (s : State) : bool :=
  DOMTokenList.contains "menu-open" (bodyClasses s).

(** Where a click lands. *)
Inductive ClickTarget := OnToggle | OnNavLink | InsideNav | Elsewhere.

(** The [click] listener of the toggle. *)
Definition onToggleClick (s : State) : State :=
  if isOpen s then closeMenu s else openMenu s.

(** The [click] listener of the document: closes an open menu when the
    target is outside the nav and outside the toggle. *)
Definition onDocumentClick (t : ClickTarget) (s : State) : State :=
  match t with
  | Elsewhere => if isOpen s then closeMenu s else s
  | _ => s
  end.

(** A click, through every listener it reaches: the listener on the
    element first, the listener on the document after it. *)
Definition onClick (t : ClickTarget) (s : State) : State :=
  match t with
  | OnToggle => onDocumentClick t (onToggleClick s)
  | OnNavLink => onDocumentClick t (closeMenu s)
  | InsideNav => onDocumentClick t s
  | Elsewhere => onDocumentClick t s
  end.

(** The [keydown] listener: Escape closes an open menu. *)
Definition onKeydown (key : string) (s : State) : State :=
  if String.eqb key "Escape" && isOpen s then closeMenu s else s.

(** The state [initMobileMenu] leaves. *)
Definition init (s : State) : State :=
  {| bodyClasses := bodyClasses s;
     ariaExpanded := Some "false";
     navVisibility := navVisibility s |}.

Inductive Event :=
| Click (t : ClickTarget)
| Key (key : string).

Definition handle (ev : Event) (s : State) : State :=
  match ev with
  | Click t => onClick t s
  | Key k => onKeydown k s
  end.

Inductive Reachable (s0 : State) : State -> Prop :=
| Reachable_init : Reachable s0 (init s0)
| Reachable_step : forall s ev, Reachable s0 s -> Reachable s0 (handle ev s).

End MobileMenu.

(** ** What a regular expression matches *)

Inductive Matches : RegExp.t -> DOMString -> Prop :=
| MEps : Matches RegExp.Eps []
| MClass : forall p c, p c = true -> Matches (RegExp.Class p) [c]
| MSeq : forall r1 r2 s1 s2,
    Matches r1 s1 -> Matches r2 s2 -> Matches (RegExp.Seq r1 r2) (s1 ++ s2)
| MAltL : forall r1 r2 s, Matches r1 s -> Matches (RegExp.Alt r1 r2) s
| MAltR : forall r1 r2 s, Matches r2 s -> Matches (RegExp.Alt r1 r2) s
| MStarNil : forall r, Matches (RegExp.Star r) []
| MStarApp : forall r s1 s2,
    Matches r s1 -> Matches (RegExp.Star r) s2 -> Matches (RegExp.Star r) (s1 ++ s2).

(** Every code unit of [s] satisfies [p]. *)
Definition allChars (p : codeUnit -> bool) (s : DOMString) : bool := forallb p s.

(** A non-empty run of code units that are neither white space nor [@]. *)
Definition isWord (s : DOMString) : bool :=
  nonEmpty s && allChars ContactForm.notSpaceNorAt s.

(** [!value.trim()] *)
Definition isBlank (v : DOMString) : bool := negb (nonEmpty (trim v)).

(** The three checks of the older copy's submit listener pass. *)
Definition formValid (n e m : DOMString) : bool :=
  negb (isBlank n) && negb (isBlank e) && ContactForm.isEmailValid (trim e)
  && negb (isBlank m).

(** ** Derived notions used in the statements *)

(** An element carries one of the four animation-role classes. *)
Definition hasRole (cl : DOMTokenList.t) : bool :=
  DOMTokenList.contains "animate-slide-in" cl
  || DOMTokenList.contains "animate-fade-in" cl
  || DOMTokenList.contains "reveal" cl
  || DOMTokenList.contains "glow-in" cl.

(** What the two loops do together to one target of an inactive section. *)
Definition revealThenHide (i : nat) (el : Element) : Element :=
  hideTarget i (revealTarget i el).

(** The other theme: [cur === 'light' ? 'dark' : 'light']. *)
Definition flipTheme (cur : string) : string :=
  if String.eqb cur "light" then "dark" else "light".

(** The inline transition delays of the elements below a section. *)
Definition delaysOf (s : SectionEl) : list string := map transitionDelay (descendants s).

(** What the markup fixes: the ids of the sections in order, the hrefs of
    the nav links in order, the ids of the other elements. *)
Definition docShape (d : Doc) : list string * list string * list string :=
  (map id (sections d), map href (navLinks d), otherIds d).

(** A key that orders binary64 values as [<] does: sign class, then
    exponent, then mantissa; NaN has none. *)
Definition floatKey (f : spec_float) : option (Z * Z * Z) :=
  match f with
  | S754_nan => None
  | S754_infinity s => Some (if s then (-2, 0, 0) else (2, 0, 0))%Z
  | S754_zero _ => Some (0, 0, 0)%Z
  | S754_finite s m e => Some (if s then (-1, - e, Zneg m) else (1, e, Zpos m))%Z
  end.

Definition numberKey (x : number) : option (Z * Z * Z) := floatKey (Prim2SF x).

Definition lexCompare (a b : Z * Z * Z) : comparison :=
  match a, b with
  | (a1, a2, a3), (b1, b2, b3) =>
      match (a1 ?= b1)%Z with
      | Eq => match (a2 ?= b2)%Z with
              | Eq => (a3 ?= b3)%Z
              | c => c
              end
      | c => c
      end
  end.

Definition lexLt (a b : Z * Z * Z) : Prop :=
  match a, b with
  | (a1, a2, a3), (b1, b2, b3) =>
      (a1 < b1 \/ (a1 = b1 /\ (a2 < b2 \/ (a2 = b2 /\ a3 < b3))))%Z
  end.

(** The document has a section at position [k], that section is active
    and no other section is. *)
Definition onlyActive (k : nat) (d : Doc) : Prop :=
  (exists s, nth_error (sections d) k = Some s /\ isActiveSection s = true) /\
  forall j s, nth_error (sections d) j = Some s -> isActiveSection s = Nat.eqb j k.

(** ** Sample documents *)

Definition sampleHero : list Element :=
  [ mkElement ["hero-title"; "reveal"] "";
    mkElement ["divider"] "";
    mkElement ["cta"; "glow-in"] "";
    mkElement ["animate-fade-in"; "is-visible"] "" ].

Definition sampleAbout : list Element :=
  [ mkElement ["animate-slide-in"] "";
    mkElement ["reveal"; "is-visible"] "140ms" ].

(** Three sections in order, none active yet, with one nav link each. *)
Definition sampleDoc : Doc :=
  {| sections :=
       [ mkSection "home" ["section"] None sampleHero;
         mkSection "about" ["section"] None sampleAbout;
         mkSection "projects" ["section"] None [] ];
     navLinks :=
       [ mkNavLink "#home" None; mkNavLink "#about" None; mkNavLink "#projects" None ];
     otherIds := ["theme-toggle"; "contact-form"; "year"];
     scrolledTo := None;
     activeElement := None |}.

Definition sampleHost : Host := {| focusOutcome := fun _ => FocusMoves |}.

(** Full-height sections of 800px, the page scrolled by [scrollY]. *)
Definition sampleViewport (scrollY : number) : Viewport :=
  {| innerHeight := 800%float;
     boundingClientRect := fun i =>
       {| top := (match i with
                  | 0%nat => 0
                  | 1%nat => 800
                  | _ => 1600
                  end - scrollY)%float;
          left := 0%float; width := 1200%float; height := 800%float |} |}.

Definition sampleButton : Theme.Button :=
  Theme.mkButton None (Some "Dark") (Some "🌙").

Definition sampleTheme : Theme.State :=
  Theme.mkState (Some "dark") (Theme.mkStorage [] false false) (Some sampleButton).

Definition sampleField (v : string) : ContactForm.Field :=
  ContactForm.mkField (js v) (js "") None (Some "").

Definition sampleForm (n e m : string) : ContactForm.Form :=
  ContactForm.mkForm (Some (sampleField n)) (Some (sampleField e))
                     (Some (sampleField m)) (Some "").

Definition sampleCarousel : Carousel.State :=
  Carousel.mkState 0%float 600%float
    [ Carousel.mkCard ["project-card"] 0%float 600%float;
      Carousel.mkCard ["project-card"] 600%float 600%float;
      Carousel.mkCard ["project-card"] 1200%float 600%float ]
    [ ["indicator"]; ["indicator"]; ["indicator"] ]
    0 None.

Definition samplePage : Page :=
  {| doc := sampleDoc;
     theme := sampleTheme;
     contactForm := Some (sampleForm "" "" "");
     yearText := Some "";
     projectCarousel := Some sampleCarousel;
     cardPlaces := [None; None; None];
     indicatorPlaces := [None; None; None];
     menuExpanded := Some None;
     listeners := noListeners |}.

(** A page whose carousel sits inside the first section: two cards, the
    first one a reveal target, and two indicators, all four descendants of
    that section. *)
Definition nestedDoc : Doc :=
  {| sections :=
       [ mkSection "projects" ["section"] None
           [ mkElement ["project-card"; "reveal"] "";
             mkElement ["project-card"] "";
             mkElement ["indicator"] "";
             mkElement ["indicator"; "active"] "" ];
         mkSection "about" ["section"] None sampleAbout ];
     navLinks := [ mkNavLink "#projects" None; mkNavLink "#about" None ];
     otherIds := [];
     scrolledTo := None;
     activeElement := None |}.

Definition nestedCarousel : Carousel.State :=
  Carousel.mkState 0%float 600%float
    [ Carousel.mkCard ["project-card"; "reveal"] 0%float 600%float;
      Carousel.mkCard ["project-card"] 600%float 600%float ]
    [ ["indicator"]; ["indicator"; "active"] ]
    0 None.

Definition nestedPage : Page :=
  {| doc := nestedDoc;
     theme := sampleTheme;
     contactForm := None;
     yearText := None;
     projectCarousel := Some nestedCarousel;
     cardPlaces := [Some (0, 0); Some (0, 1)]%nat;
     indicatorPlaces := [Some (0, 2); Some (0, 3)]%nat;
     menuExpanded := None;
     listeners := noListeners |}.

(** The sample page without a [.project-carousel] element. *)
Definition pageWithoutCarousel : Page := withCarousel None samplePage.

(** A storage that refuses writes while holding an older preference. *)
Definition writeRefused : Theme.State :=
  Theme.mkState (Some "dark")
                (Theme.mkStorage [("jz-theme", "dark")] false true)
                (Some sampleButton).

(** The sample page on a host that refuses reads of the storage. *)
Definition pageWithBlockedStorage : Page :=
  withTheme (Theme.mkState None (Theme.mkStorage [] true true) (Some sampleButton))
            samplePage.

(** A global scope in which neither [carousel] nor [cards] is bound. *)
Definition scriptScope : ContactForm.GlobalScope :=
  ContactForm.mkGlobalScope None None.

(** The sample page whose theme button has lost its [.toggle-text] child. *)
Definition pageWithoutToggleText : Page :=
  withTheme (Theme.mkState (Some "dark") (Theme.mkStorage [] false false)
                           (Some (Theme.mkButton None None (Some "🌙"))))
            samplePage.

(** A page loaded with the menu closed and the nav hidden by the style sheet. *)
Definition sampleMenu : MobileMenu.State :=
  MobileMenu.mkState ["page"] None "".

(** Two sections whose distances to the viewport midpoint differ in exact
    arithmetic and coincide once rounded to binary64. *)
Definition tieDoc : Doc :=
  {| sections := [ mkSection "a" ["section"] None []; mkSection "b" ["section"] None [] ];
     navLinks := []; otherIds := []; scrolledTo := None; activeElement := None |}.

Definition tieViewport : Viewport :=
  {| innerHeight := 800%float;
     boundingClientRect := fun i =>
       match i with
       | 0%nat => {| top := (-0x1.c2ccccccccccdp+8)%float; left := 0%float;
                     width := 1200%float; height := 0x1.6db3333333333p+8%float |}
       | _ => {| top := 730.5%float; left := 0%float;
                 width := 1200%float; height := 0x1.5173333333333p+9%float |}
       end |}.

(** * Properties *)

(** ** Class lists *)

Module TokenFacts.
Import DOMTokenList.

Lemma contains_app c l1 l2 :
  contains c (l1 ++ l2) = contains c l1 || contains c l2.
Proof. unfold contains. apply existsb_app. Qed.

Lemma contains_add c c' l :
  contains c (add c' l) = contains c l || String.eqb c c'.
Proof.
  unfold add. destruct (contains c' l) eqn:Hc.
  - destruct (String.eqb_spec c c') as [->|Hne].
    + rewrite Hc. reflexivity.
    + rewrite orb_false_r. reflexivity.
  - rewrite contains_app. simpl. rewrite orb_false_r. reflexivity.
Qed.

Lemma contains_remove c c' l :
  contains c (remove c' l) = contains c l && negb (String.eqb c' c).
Proof.
  unfold remove, contains. induction l as [|x l IH]; simpl.
  - reflexivity.
  - destruct (String.eqb_spec c' x) as [->|Hne]; simpl.
    + rewrite IH. destruct (String.eqb_spec c x) as [->|Hcx]; simpl.
      * rewrite String.eqb_refl. simpl. rewrite andb_false_r. reflexivity.
      * reflexivity.
    + rewrite IH. destruct (String.eqb_spec c x) as [->|Hcx]; simpl.
      * destruct (String.eqb_spec c' x); [contradiction | reflexivity].
      * reflexivity.
Qed.

Lemma remove_absent c l : contains c l = false -> remove c l = l.
Proof.
  unfold remove, contains. induction l as [|x l IH]; simpl; intros H.
  - reflexivity.
  - apply orb_false_iff in H. destruct H as [Hx Hl].
    rewrite Hx. simpl. rewrite IH by assumption. reflexivity.
Qed.

Lemma remove_app c l1 l2 : remove c (l1 ++ l2) = remove c l1 ++ remove c l2.
Proof. unfold remove. apply filter_app. Qed.

Lemma remove_add_absent c l : contains c l = false -> remove c (add c l) = l.
Proof.
  intros H. unfold add. rewrite H, remove_app, (remove_absent _ _ H).
  unfold remove. simpl. rewrite String.eqb_refl. simpl. apply app_nil_r.
Qed.

Lemma add_present c l : contains c l = true -> add c l = l.
Proof. intros H. unfold add. rewrite H. reflexivity. Qed.

Lemma add_idem c l : add c (add c l) = add c l.
Proof.
  apply add_present. rewrite contains_add, String.eqb_refl. apply orb_true_r.
Qed.

Lemma remove_idem c l : remove c (remove c l) = remove c l.
Proof.
  apply remove_absent. rewrite contains_remove, String.eqb_refl.
  apply andb_false_r.
Qed.

Lemma toggle_idem c b l : toggle c b (toggle c b l) = toggle c b l.
Proof. destruct b; simpl; [apply add_idem | apply remove_idem]. Qed.

Lemma contains_toggle c b l : contains c (toggle c b l) = b.
Proof.
  destruct b; simpl.
  - rewrite contains_add, String.eqb_refl. apply orb_true_r.
  - rewrite contains_remove, String.eqb_refl. apply andb_false_r.
Qed.

End TokenFacts.

(** ** Selectors and the two inner loops *)

Lemma matches_REVEAL e : matches REVEAL_TARGETS e = hasRole (classList e).
Proof.
  unfold matches, REVEAL_TARGETS, hasRole. simpl.
  rewrite !andb_true_r, orb_false_r, !orb_assoc. reflexivity.
Qed.

Lemma matches_VISIBLE e :
  matches VISIBLE_TARGETS e
  = hasRole (classList e) && DOMTokenList.contains "is-visible" (classList e).
Proof.
  unfold matches, VISIBLE_TARGETS, hasRole. simpl.
  destruct (DOMTokenList.contains "animate-slide-in" (classList e));
    destruct (DOMTokenList.contains "animate-fade-in" (classList e));
    destruct (DOMTokenList.contains "reveal" (classList e));
    destruct (DOMTokenList.contains "glow-in" (classList e));
    destruct (DOMTokenList.contains "is-visible" (classList e)); reflexivity.
Qed.

Lemma hasRole_add_visible cl :
  hasRole (DOMTokenList.add "is-visible" cl) = hasRole cl.
Proof.
  unfold hasRole. rewrite !TokenFacts.contains_add. simpl.
  rewrite !orb_false_r. reflexivity.
Qed.

Lemma hasRole_remove_visible cl :
  hasRole (DOMTokenList.remove "is-visible" cl) = hasRole cl.
Proof.
  unfold hasRole. rewrite !TokenFacts.contains_remove. simpl.
  rewrite !andb_true_r. reflexivity.
Qed.

Lemma hide_after_reveal els : forall i j,
  forEachMatchFrom VISIBLE_TARGETS hideTarget j
    (forEachMatchFrom REVEAL_TARGETS revealTarget i els)
  = forEachMatchFrom REVEAL_TARGETS revealThenHide i els.
Proof.
  induction els as [|e r IH]; intros i j; cbn [forEachMatchFrom].
  - reflexivity.
  - destruct (matches REVEAL_TARGETS e) eqn:Hm; cbn [forEachMatchFrom].
    + assert (Hv : matches VISIBLE_TARGETS (revealTarget i e) = true).
      { rewrite matches_VISIBLE. simpl. rewrite hasRole_add_visible.
        rewrite <- matches_REVEAL, Hm, TokenFacts.contains_add.
        simpl. apply orb_true_r. }
      rewrite Hv, IH. reflexivity.
    + assert (Hv : matches VISIBLE_TARGETS e = false).
      { rewrite matches_VISIBLE, <- matches_REVEAL, Hm. reflexivity. }
      rewrite Hv, IH. reflexivity.
Qed.

(** A loop over the matches of [REVEAL_TARGETS] whose body keeps the role
    classes rewrites the node list pointwise. *)
Lemma querySelectorAll_forEach f els :
  (forall i e, hasRole (classList (f i e)) = hasRole (classList e)) ->
  forall i,
    querySelectorAll REVEAL_TARGETS (forEachMatchFrom REVEAL_TARGETS f i els)
    = mapiFrom f i (querySelectorAll REVEAL_TARGETS els).
Proof.
  intros Hf. unfold querySelectorAll.
  induction els as [|e r IH]; intros i; cbn [forEachMatchFrom filter mapiFrom].
  - reflexivity.
  - destruct (matches REVEAL_TARGETS e) eqn:Hm; cbn [filter mapiFrom].
    + rewrite matches_REVEAL, Hf, <- matches_REVEAL, Hm.
      cbn [mapiFrom]. rewrite IH. reflexivity.
    + rewrite Hm. apply IH.
Qed.

Lemma forEach_idem f els :
  (forall i e, hasRole (classList (f i e)) = hasRole (classList e)) ->
  (forall i e, f i (f i e) = f i e) ->
  forall i,
    forEachMatchFrom REVEAL_TARGETS f i (forEachMatchFrom REVEAL_TARGETS f i els)
    = forEachMatchFrom REVEAL_TARGETS f i els.
Proof.
  intros Hrole Hidem.
  induction els as [|e r IH]; intros i; cbn [forEachMatchFrom].
  - reflexivity.
  - destruct (matches REVEAL_TARGETS e) eqn:Hm; cbn [forEachMatchFrom].
    + rewrite matches_REVEAL, Hrole, <- matches_REVEAL, Hm, Hidem, IH. reflexivity.
    + rewrite Hm, IH. reflexivity.
Qed.

Lemma revealTarget_role i e : hasRole (classList (revealTarget i e)) = hasRole (classList e).
Proof. simpl. apply hasRole_add_visible. Qed.

Lemma revealThenHide_role i e :
  hasRole (classList (revealThenHide i e)) = hasRole (classList e).
Proof. simpl. rewrite hasRole_remove_visible. apply hasRole_add_visible. Qed.

Lemma revealTarget_idem i e : revealTarget i (revealTarget i e) = revealTarget i e.
Proof. unfold revealTarget. simpl. rewrite TokenFacts.add_idem. reflexivity. Qed.

Lemma revealThenHide_idem i e :
  revealThenHide i (revealThenHide i e) = revealThenHide i e.
Proof.
  unfold revealThenHide, hideTarget, revealTarget. simpl. f_equal.
  rewrite TokenFacts.remove_add_absent.
  - reflexivity.
  - rewrite TokenFacts.contains_remove. simpl. apply andb_false_r.
Qed.

(** ** Arrays *)

Lemma findIndexFrom_find {A} (p : A -> bool) (l : list A) : forall i,
  match find p l with
  | None => findIndexFrom p i l = (-1)%Z
  | Some x =>
      exists k, findIndexFrom p i l = (i + Z.of_nat k)%Z /\
                nth_error l k = Some x /\ p x = true /\
                forall j y, (j < k)%nat -> nth_error l j = Some y -> p y = false
  end.
Proof.
  induction l as [|a l IH]; intros i; simpl.
  - reflexivity.
  - destruct (p a) eqn:Hp.
    + exists 0%nat. repeat split; auto.
      * lia.
      * intros j y Hj. lia.
    + specialize (IH (i + 1)%Z). destruct (find p l) as [x|].
      * destruct IH as (k & Hk & Hn & Hx & Hlt).
        exists (S k). repeat split; auto.
        -- rewrite Hk. lia.
        -- intros [|j] y Hj Hy; simpl in Hy.
           ++ congruence.
           ++ apply (Hlt j); [lia | assumption].
      * assumption.
Qed.

Lemma index_findIndex {A} (p : A -> bool) (l : list A) :
  index l (findIndex p l) = find p l.
Proof.
  unfold findIndex, index.
  pose proof (findIndexFrom_find p l 0%Z) as H.
  destruct (find p l) as [x|].
  - destruct H as (k & Hk & Hn & _). rewrite Hk. simpl.
    destruct (Z.ltb_spec (Z.of_nat k) 0); [lia|].
    rewrite Nat2Z.id. assumption.
  - rewrite H. reflexivity.
Qed.

Lemma find_map {A B} (f : A -> B) (p : B -> bool) (l : list A) :
  find p (map f l) = option_map f (find (fun x => p (f x)) l).
Proof.
  induction l as [|a l IH]; simpl.
  - reflexivity.
  - destruct (p (f a)); [reflexivity | apply IH].
Qed.

Lemma find_pointwise {A} (p q : A -> bool) (l : list A) :
  (forall x, p x = q x) -> find p l = find q l.
Proof.
  intros H. induction l as [|a l IH]; simpl.
  - reflexivity.
  - rewrite H, IH. reflexivity.
Qed.

Lemma nth_error_mapiFrom {A B} (f : nat -> A -> B) (l : list A) : forall i k,
  nth_error (mapiFrom f i l) k = option_map (f (i + k)%nat) (nth_error l k).
Proof.
  induction l as [|a l IH]; intros i [|k]; simpl; try reflexivity.
  - rewrite Nat.add_0_r. reflexivity.
  - rewrite IH. replace (S i + k)%nat with (i + S k)%nat by lia. reflexivity.
Qed.

Lemma length_mapiFrom {A B} (f : nat -> A -> B) (l : list A) : forall i,
  List.length (mapiFrom f i l) = List.length l.
Proof. induction l as [|a l IH]; intros i; simpl; [|rewrite IH]; reflexivity. Qed.

Lemma find_some_id (id0 : string) (secs : list SectionEl) :
  In id0 (map id secs) ->
  exists s, find (fun s => String.eqb (id s) id0) secs = Some s /\ id s = id0.
Proof.
  induction secs as [|a secs IH]; simpl; intros H.
  - contradiction.
  - destruct (String.eqb_spec (id a) id0) as [Heq|Hne].
    + exists a. split; auto.
    + destruct H as [H|H]; [contradiction|]. apply IH. assumption.
Qed.

Lemma find_none_id (id0 : string) (secs : list SectionEl) :
  ~ In id0 (map id secs) ->
  find (fun s => String.eqb (id s) id0) secs = None.
Proof.
  induction secs as [|a secs IH]; simpl; intros H.
  - reflexivity.
  - destruct (String.eqb_spec (id a) id0) as [Heq|Hne].
    + exfalso. apply H. left. assumption.
    + apply IH. intros Hin. apply H. right. assumption.
Qed.

(** ** [setActiveSection], section by section *)

Lemma isActive_body id0 s :
  isActiveSection (setActiveSection_body id0 s) = String.eqb (id s) id0.
Proof. unfold isActiveSection. simpl. apply TokenFacts.contains_toggle. Qed.

Lemma id_body id0 s : id (setActiveSection_body id0 s) = id s.
Proof. reflexivity. Qed.

Lemma descendants_body id0 s :
  descendants (setActiveSection_body id0 s)
  = if String.eqb (id s) id0
    then forEachMatch REVEAL_TARGETS revealTarget (descendants s)
    else forEachMatch REVEAL_TARGETS revealThenHide (descendants s).
Proof.
  unfold setActiveSection_body. cbn [descendants].
  destruct (String.eqb (id s) id0); cbn [negb].
  - reflexivity.
  - apply hide_after_reveal.
Qed.

(** The sections and links [setActiveSection] leaves, in closed form. *)
Lemma setActiveSection_unfold id0 d :
  setActiveSection id0 d =
  {| sections := map (setActiveSection_body id0) (sections d);
     navLinks :=
       map (updateNavCurrent_link
              (option_map (setActiveSection_body id0)
                          (find (fun s => String.eqb (id s) id0) (sections d))))
           (navLinks d);
     otherIds := otherIds d;
     scrolledTo := scrolledTo d;
     activeElement := activeElement d |}.
Proof.
  unfold setActiveSection, updateNavCurrent, getSections. cbn [sections navLinks otherIds scrolledTo activeElement].
  rewrite index_findIndex, find_map.
  rewrite (find_pointwise
             (fun x => isActiveSection (setActiveSection_body id0 x))
             (fun s => String.eqb (id s) id0))
    by (intros s; apply isActive_body).
  reflexivity.
Qed.

Lemma targets_of_active id0 s :
  id s = id0 ->
  querySelectorAll REVEAL_TARGETS (descendants (setActiveSection_body id0 s))
  = mapi revealTarget (querySelectorAll REVEAL_TARGETS (descendants s)).
Proof.
  intros H. rewrite descendants_body, H, String.eqb_refl.
  apply querySelectorAll_forEach. apply revealTarget_role.
Qed.

Lemma targets_of_inactive id0 s :
  id s <> id0 ->
  querySelectorAll REVEAL_TARGETS (descendants (setActiveSection_body id0 s))
  = mapi revealThenHide (querySelectorAll REVEAL_TARGETS (descendants s)).
Proof.
  intros H. rewrite descendants_body.
  destruct (String.eqb_spec (id s) id0); [contradiction|].
  apply querySelectorAll_forEach. apply revealThenHide_role.
Qed.

Lemma body_unfold id0 s :
  setActiveSection_body id0 s =
  {| id := id s;
     sectionClasses :=
       DOMTokenList.toggle "active" (String.eqb (id s) id0) (sectionClasses s);
     ariaHidden := Some (String_of_bool (negb (String.eqb (id s) id0)));
     descendants :=
       if String.eqb (id s) id0
       then forEachMatch REVEAL_TARGETS revealTarget (descendants s)
       else forEachMatch REVEAL_TARGETS revealThenHide (descendants s) |}.
Proof.
  rewrite <- descendants_body. reflexivity.
Qed.

Lemma body_idem id0 s :
  setActiveSection_body id0 (setActiveSection_body id0 s) = setActiveSection_body id0 s.
Proof.
  rewrite (body_unfold id0 (setActiveSection_body id0 s)).
  rewrite (body_unfold id0 s). cbn [id sectionClasses ariaHidden descendants].
  rewrite TokenFacts.toggle_idem. f_equal.
  destruct (String.eqb (id s) id0); unfold forEachMatch.
  - apply forEach_idem; [apply revealTarget_role | apply revealTarget_idem].
  - apply forEach_idem; [apply revealThenHide_role | apply revealThenHide_idem].
Qed.

Lemma navLink_twice a a' l :
  updateNavCurrent_link a (updateNavCurrent_link a' l) = updateNavCurrent_link a l.
Proof.
  unfold updateNavCurrent_link.
  destruct a' as [s'|]; [destruct (String.eqb (slice1 (href l)) (id s'))|];
    reflexivity.
Qed.

Lemma navLink_active s l :
  updateNavCurrent_link (Some s) l =
  {| href := href l;
     ariaCurrent := if String.eqb (slice1 (href l)) (id s) then Some "page" else None |}.
Proof.
  unfold updateNavCurrent_link. destruct (String.eqb (slice1 (href l)) (id s)); reflexivity.
Qed.

Lemma activeCount_setActiveSection id0 d :
  activeCount (setActiveSection id0 d)
  = List.length (filter (fun s => String.eqb (id s) id0) (sections d)).
Proof.
  rewrite setActiveSection_unfold. unfold activeCount. cbn [sections].
  induction (sections d) as [|s l IH]; simpl.
  - reflexivity.
  - fold (isActiveSection (setActiveSection_body id0 s)).
    rewrite isActive_body. destruct (String.eqb (id s) id0); simpl; rewrite IH; reflexivity.
Qed.

Lemma filter_id_absent id0 (secs : list SectionEl) :
  ~ In id0 (map id secs) -> filter (fun s => String.eqb (id s) id0) secs = [].
Proof.
  induction secs as [|a secs IH]; simpl; intros H.
  - reflexivity.
  - destruct (String.eqb_spec (id a) id0) as [Heq|Hne].
    + exfalso. apply H. left. assumption.
    + apply IH. intros Hin. apply H. right. assumption.
Qed.

Lemma filter_id_unique id0 (secs : list SectionEl) :
  NoDup (map id secs) -> In id0 (map id secs) ->
  List.length (filter (fun s => String.eqb (id s) id0) secs) = 1%nat.
Proof.
  induction secs as [|a secs IH]; simpl; intros Hnd Hin.
  - contradiction.
  - inversion Hnd as [|x l Hnotin Hnd' Heq]; subst.
    destruct (String.eqb_spec (id a) id0) as [Heq|Hne].
    + subst id0. rewrite filter_id_absent by assumption. reflexivity.
    + destruct Hin as [Hin|Hin]; [contradiction|]. apply IH; assumption.
Qed.

(** ** C2, C4, C10: what [setActiveSection] leaves behind *)

(** C2. For an id carried by a section, [setActiveSection] leaves every
    section with that id active with [aria-hidden="false"], its i-th reveal
    target with delay [i * 70 ms] and the [is-visible] class; every section
    with another id inactive with [aria-hidden="true"], its reveal targets
    without [is-visible] and with an empty delay; and a nav link has
    [aria-current="page"] exactly when its href target is that id, no
    [aria-current] otherwise. *)
Theorem setActiveSection_activates (id0 : string) (d : Doc) :
  In id0 (map id (sections d)) ->
  let d' := setActiveSection id0 d in
  List.length (sections d') = List.length (sections d) /\
  (forall k s, nth_error (sections d) k = Some s ->
     exists s', nth_error (sections d') k = Some s' /\ id s' = id s /\
       (id s = id0 ->
          isActiveSection s' = true /\ ariaHidden s' = Some "false" /\
          querySelectorAll REVEAL_TARGETS (descendants s')
          = mapi revealTarget (querySelectorAll REVEAL_TARGETS (descendants s)) /\
          forall i t,
            nth_error (querySelectorAll REVEAL_TARGETS (descendants s')) i = Some t ->
            transitionDelay t = (string_of_nat (i * 70) ++ "ms")%string /\
            DOMTokenList.contains "is-visible" (classList t) = true) /\
       (id s <> id0 ->
          isActiveSection s' = false /\ ariaHidden s' = Some "true" /\
          List.length (querySelectorAll REVEAL_TARGETS (descendants s'))
          = List.length (querySelectorAll REVEAL_TARGETS (descendants s)) /\
          forall t,
            In t (querySelectorAll REVEAL_TARGETS (descendants s')) ->
            DOMTokenList.contains "is-visible" (classList t) = false /\
            transitionDelay t = "")) /\
  (forall k l, nth_error (navLinks d) k = Some l ->
     exists l', nth_error (navLinks d') k = Some l' /\ href l' = href l /\
       ariaCurrent l' = if String.eqb (slice1 (href l)) id0 then Some "page" else None).
Proof.
  intros Hin d'. subst d'. rewrite setActiveSection_unfold. cbn [sections navLinks].
  split; [apply length_map|]. split.
  - intros k s Hk. exists (setActiveSection_body id0 s). split.
    { rewrite nth_error_map, Hk. reflexivity. }
    split; [reflexivity|]. split.
    + intros Hid. rewrite isActive_body, Hid, String.eqb_refl.
      split; [reflexivity|]. split.
      { simpl. rewrite Hid, String.eqb_refl. reflexivity. }
      split; [apply targets_of_active; rewrite Hid; reflexivity|].
      intros i t. rewrite targets_of_active by (rewrite Hid; reflexivity).
      unfold mapi. rewrite nth_error_mapiFrom. simpl.
      destruct (nth_error _ i) as [e|]; simpl; [|discriminate].
      intros Ht. injection Ht as <-. simpl. split; [reflexivity|].
      rewrite TokenFacts.contains_add. apply orb_true_r.
    + intros Hid. rewrite isActive_body.
      destruct (String.eqb_spec (id s) id0) as [|_]; [contradiction|].
      split; [reflexivity|]. split.
      { simpl. destruct (String.eqb_spec (id s) id0); [contradiction | reflexivity]. }
      rewrite targets_of_inactive by assumption. unfold mapi. split.
      { apply length_mapiFrom. }
      intros t Ht. apply In_nth_error in Ht. destruct Ht as [i Hi].
      rewrite nth_error_mapiFrom in Hi.
      destruct (nth_error _ i) as [e|]; simpl in Hi; [|discriminate].
      injection Hi as <-. simpl. split; [|reflexivity].
      rewrite TokenFacts.contains_remove. simpl. apply andb_false_r.
  - intros k l Hk. destruct (find_some_id id0 (sections d) Hin) as (s0 & Hfind & Hid0).
    rewrite Hfind. cbn [option_map].
    exists (updateNavCurrent_link (Some (setActiveSection_body id0 s0)) l). split.
    { rewrite nth_error_map, Hk. reflexivity. }
    rewrite navLink_active. cbn [href ariaCurrent id setActiveSection_body].
    rewrite Hid0. split; reflexivity.
Qed.

(** C2, on the sample document: activating "about". *)
Lemma setActiveSection_activates_witness :
  In "about" (map id (sections sampleDoc)) /\
  List.length (sections (setActiveSection "about" sampleDoc))
  = List.length (sections sampleDoc).
Proof.
  assert (H : In "about" (map id (sections sampleDoc))) by (simpl; auto).
  split; [exact H|].
  exact (proj1 (setActiveSection_activates "about" sampleDoc H)).
Defined.


(** C10. For an id no section carries, [setActiveSection] leaves every
    section inactive with [aria-hidden="true"], whatever was active before:
    no section is active afterwards, and no nav link is current. *)
Theorem setActiveSection_unknown_id (id0 : string) (d : Doc) :
  ~ In id0 (map id (sections d)) ->
  let d' := setActiveSection id0 d in
  List.length (sections d') = List.length (sections d) /\
  (forall s', In s' (sections d') ->
     isActiveSection s' = false /\ ariaHidden s' = Some "true") /\
  activeCount d' = 0%nat /\
  (forall l', In l' (navLinks d') -> ariaCurrent l' = None).
Proof.
  intros Hnot d'. subst d'. split; [|split; [|split]].
  - rewrite setActiveSection_unfold. apply length_map.
  - rewrite setActiveSection_unfold. cbn [sections].
    intros s' Hs'. apply in_map_iff in Hs'. destruct Hs' as (s & <- & Hs).
    assert (Hne : String.eqb (id s) id0 = false).
    { apply String.eqb_neq. intros Heq. apply Hnot. rewrite <- Heq.
      apply in_map. assumption. }
    rewrite isActive_body, Hne. split; [reflexivity|].
    simpl. rewrite Hne. reflexivity.
  - rewrite activeCount_setActiveSection, filter_id_absent by assumption. reflexivity.
  - rewrite setActiveSection_unfold. cbn [navLinks].
    rewrite find_none_id by assumption. cbn [option_map].
    intros l' Hl'. apply in_map_iff in Hl'. destruct Hl' as (l & <- & _). reflexivity.
Qed.

(** C10, on the sample document after load: "contact-form" is the id of an
    element that is not a section. *)
Lemma setActiveSection_unknown_id_witness :
  ~ In "contact-form" (map id (sections (bootstrap sampleDoc))) /\
  activeCount (bootstrap sampleDoc) = 1%nat /\
  activeCount (setActiveSection "contact-form" (bootstrap sampleDoc)) = 0%nat.
Proof.
  assert (H : ~ In "contact-form" (map id (sections (bootstrap sampleDoc)))).
  { simpl. intros [H|[H|[H|H]]]; try discriminate H. exact H. }
  split; [exact H|]. split; [reflexivity|].
  exact (proj1 (proj2 (proj2
           (setActiveSection_unknown_id "contact-form" (bootstrap sampleDoc) H)))).
Defined.

(** ** The order of binary64 numbers *)

Lemma SFcompare_key f1 f2 :
  SFcompare f1 f2 =
  match floatKey f1, floatKey f2 with
  | Some a, Some b => Some (lexCompare a b)
  | _, _ => None
  end.
Proof.
  destruct f1 as [s1|s1| |s1 m1 e1], f2 as [s2|s2| |s2 m2 e2]; simpl; try reflexivity;
    try (destruct s1; reflexivity); try (destruct s2; reflexivity);
    try (destruct s1, s2; reflexivity).
  destruct s1, s2; simpl; try reflexivity.
  rewrite Z.compare_opp, (Z.compare_antisym e1 e2).
  destruct (e1 ?= e2)%Z; reflexivity.
Qed.

Lemma lexCompare_Lt a b : lexCompare a b = Lt <-> lexLt a b.
Proof.
  destruct a as [[a1 a2] a3], b as [[b1 b2] b3]. unfold lexCompare, lexLt.
  destruct (Z.compare_spec a1 b1), (Z.compare_spec a2 b2), (Z.compare_spec a3 b3);
    split; intros Hc; try discriminate; try reflexivity; try lia.
Qed.

Lemma lexCompare_Eq a b : lexCompare a b = Eq <-> a = b.
Proof.
  destruct a as [[a1 a2] a3], b as [[b1 b2] b3]. unfold lexCompare.
  destruct (Z.compare_spec a1 b1), (Z.compare_spec a2 b2), (Z.compare_spec a3 b3);
    split; intros Hc; try discriminate; try reflexivity;
    try (injection Hc; lia); subst; reflexivity.
Qed.

Lemma ltb_key x y :
  PrimFloat.ltb x y = true <->
  match numberKey x, numberKey y with
  | Some a, Some b => lexLt a b
  | _, _ => False
  end.
Proof.
  rewrite ltb_spec. unfold SFltb, numberKey. rewrite SFcompare_key.
  destruct (floatKey (Prim2SF x)) as [a|], (floatKey (Prim2SF y)) as [b|];
    try (split; [discriminate | contradiction]).
  rewrite <- lexCompare_Lt. destruct (lexCompare a b); split; congruence.
Qed.

Lemma leb_key x y :
  PrimFloat.leb x y = true <->
  match numberKey x, numberKey y with
  | Some a, Some b => lexLt a b \/ a = b
  | _, _ => False
  end.
Proof.
  rewrite leb_spec. unfold SFleb, numberKey. rewrite SFcompare_key.
  destruct (floatKey (Prim2SF x)) as [a|], (floatKey (Prim2SF y)) as [b|];
    try (split; [discriminate | contradiction]).
  rewrite <- lexCompare_Lt, <- lexCompare_Eq.
  destruct (lexCompare a b); split; try congruence; try tauto.
  intros [H|H]; discriminate.
Qed.

Lemma is_nan_key x : PrimFloat.is_nan x = false <-> numberKey x <> None.
Proof.
  unfold PrimFloat.is_nan. rewrite eqb_spec. unfold SFeqb, numberKey. rewrite SFcompare_key.
  destruct (floatKey (Prim2SF x)) as [a|].
  - assert (H : lexCompare a a = Eq) by (apply lexCompare_Eq; reflexivity).
    rewrite H. split; [discriminate | reflexivity].
  - split; [discriminate | congruence].
Qed.

Lemma key_bound x a b c :
  numberKey x = Some (a, b, c) -> (a <= 2 /\ (a = 2 -> b = 0 /\ c = 0))%Z.
Proof.
  unfold numberKey. destruct (Prim2SF x) as [s|s| |s m e]; simpl; try discriminate;
    try destruct s; intros H; injection H as <- <- <-; lia.
Qed.

Lemma key_Infinity : numberKey Infinity = Some (2, 0, 0)%Z.
Proof. reflexivity. Qed.

Lemma ltb_trans x y z :
  PrimFloat.ltb x y = true -> PrimFloat.ltb y z = true -> PrimFloat.ltb x z = true.
Proof.
  intros H1 H2. apply ltb_key. apply ltb_key in H1. apply ltb_key in H2.
  destruct (numberKey x) as [[[a1 a2] a3]|], (numberKey y) as [[[b1 b2] b3]|],
    (numberKey z) as [[[c1 c2] c3]|]; try contradiction.
  unfold lexLt in *. lia.
Qed.

Lemma ltb_irrefl x : PrimFloat.ltb x x = false.
Proof.
  apply not_true_iff_false. rewrite ltb_key.
  destruct (numberKey x) as [[[a1 a2] a3]|]; [|tauto]. unfold lexLt. lia.
Qed.

Lemma ltb_asym x y : PrimFloat.ltb x y = true -> PrimFloat.ltb y x = false.
Proof.
  intros H. apply not_true_iff_false. intros H'.
  pose proof (ltb_trans _ _ _ H H') as Hxx. rewrite ltb_irrefl in Hxx. discriminate.
Qed.

Lemma ltb_not_nan x y :
  PrimFloat.ltb x y = true -> PrimFloat.is_nan x = false /\ PrimFloat.is_nan y = false.
Proof.
  intros H. apply ltb_key in H. rewrite !is_nan_key.
  destruct (numberKey x), (numberKey y); try contradiction. split; discriminate.
Qed.

(** [x < y] and [z] a number that is not below [y]: then [x < z]. *)
Lemma ltb_below x y z :
  PrimFloat.ltb x y = true -> PrimFloat.ltb z y = false -> PrimFloat.is_nan z = false ->
  PrimFloat.ltb x z = true.
Proof.
  intros H1 H2 H3. apply ltb_key. apply ltb_key in H1.
  apply not_true_iff_false in H2. rewrite ltb_key in H2. apply is_nan_key in H3.
  destruct (numberKey x) as [[[a1 a2] a3]|], (numberKey y) as [[[b1 b2] b3]|],
    (numberKey z) as [[[c1 c2] c3]|]; try contradiction; try congruence.
  unfold lexLt in *. lia.
Qed.

Lemma ltb_Infinity x : PrimFloat.ltb Infinity x = false.
Proof.
  apply not_true_iff_false. rewrite ltb_key, key_Infinity.
  destruct (numberKey x) as [[[a1 a2] a3]|] eqn:Hk; [|tauto].
  apply key_bound in Hk. unfold lexLt. lia.
Qed.

Lemma ltb_total x y :
  PrimFloat.is_nan x = false -> PrimFloat.is_nan y = false ->
  PrimFloat.ltb x y = false -> PrimFloat.leb y x = true.
Proof.
  intros H1 H2 H3. apply leb_key. apply is_nan_key in H1. apply is_nan_key in H2.
  apply not_true_iff_false in H3. rewrite ltb_key in H3.
  destruct (numberKey x) as [[[a1 a2] a3]|], (numberKey y) as [[[b1 b2] b3]|]; try congruence.
  unfold lexLt in *.
  destruct (Z.eq_dec a1 b1), (Z.eq_dec a2 b2), (Z.eq_dec a3 b3); subst;
    try (right; reflexivity); left; lia.
Qed.

(** ** C3: the nearest element *)

Section Nearest.

Context {A B : Type}.
Variable dist : A -> number.
Variable pick : A -> B.

(** With running minimum [m] and candidate [c], the loop either keeps [c]
    (nothing in the list is below [m]) or ends on an element below [m]
    that no element is below, every element before it being strictly
    farther or without a distance. *)
Lemma closestLoop_running (l : list A) : forall (m : number) (c : B),
  (closestLoop dist pick l m c = c /\
   forall y, In y l -> PrimFloat.ltb (dist y) m = false) \/
  (exists k x,
      nth_error l k = Some x /\
      closestLoop dist pick l m c = pick x /\
      PrimFloat.ltb (dist x) m = true /\
      (forall y, In y l -> PrimFloat.ltb (dist y) (dist x) = false) /\
      (forall j y, (j < k)%nat -> nth_error l j = Some y ->
                   PrimFloat.ltb (dist x) (dist y) = true \/
                   PrimFloat.is_nan (dist y) = true)).
Proof.
  induction l as [|a l IH]; intros m c.
  - left. split; [reflexivity | intros y []].
  - cbn [closestLoop]. unfold belowMin. destruct (PrimFloat.ltb (dist a) m) eqn:Hlt.
    + destruct (IH (dist a) (pick a))
        as [[Hres Hall] | (k & x & Hk & Hres & Hx & Hall & Hbefore)].
      * right. exists 0%nat, a. repeat split; auto.
        -- intros y [<-|Hy]; [apply ltb_irrefl | apply Hall; assumption].
        -- intros j y Hj. lia.
      * right. exists (S k), x. repeat split; auto.
        -- eapply ltb_trans; eassumption.
        -- intros y [<-|Hy]; [apply ltb_asym; assumption | apply Hall; assumption].
        -- intros [|j] y Hj Hy; simpl in Hy.
           ++ injection Hy as <-. left. assumption.
           ++ apply (Hbefore j); [lia | assumption].
    + destruct (IH m c) as [[Hres Hall] | (k & x & Hk & Hres & Hx & Hall & Hbefore)].
      * left. split; [assumption|].
        intros y [<-|Hy]; [assumption | apply Hall; assumption].
      * right. exists (S k), x. repeat split; auto.
        -- intros y [<-|Hy]; [|apply Hall; assumption].
           apply not_true_iff_false. intros Hax.
           rewrite (ltb_trans _ _ _ Hax Hx) in Hlt. discriminate.
        -- intros [|j] y Hj Hy; simpl in Hy.
           ++ injection Hy as <-.
              destruct (PrimFloat.is_nan (dist a)) eqn:Hnan; [right; reflexivity|].
              left. eapply ltb_below; eassumption.
           ++ apply (Hbefore j); [lia | assumption].
Qed.

(** Started from [Infinity] with the first element as candidate, the loop
    ends on an element that no element is nearer than, every element before
    it being strictly farther or without a distance. *)
Lemma closestLoop_nearest (x0 : A) (r : list A) :
  exists k x,
    nth_error (x0 :: r) k = Some x /\
    closestLoop dist pick (x0 :: r) Infinity (pick x0) = pick x /\
    (forall y, In y (x0 :: r) -> PrimFloat.ltb (dist y) (dist x) = false) /\
    (forall j y, (j < k)%nat -> nth_error (x0 :: r) j = Some y ->
                 PrimFloat.ltb (dist x) (dist y) = true \/
                 PrimFloat.is_nan (dist y) = true).
Proof.
  destruct (closestLoop_running (x0 :: r) Infinity (pick x0))
    as [[Hres Hall] | (k & x & Hk & Hres & Hx & Hall & Hbefore)].
  - exists 0%nat, x0. repeat split; auto.
    + intros y Hy. apply not_true_iff_false. intros Hlt.
      assert (Hinf : PrimFloat.ltb (dist y) Infinity = true).
      { apply (ltb_below _ (dist x0)); [assumption | apply ltb_Infinity | reflexivity]. }
      rewrite (Hall y Hy) in Hinf. discriminate.
    + intros j y Hj. lia.
  - exists k, x. repeat split; auto.
Qed.

Lemma closestLoop_ext (dist' : A -> number) (l : list A) :
  (forall x, dist x = dist' x) ->
  forall m c, closestLoop dist pick l m c = closestLoop dist' pick l m c.
Proof.
  intros H. induction l as [|a l IH]; intros m c; cbn [closestLoop].
  - reflexivity.
  - rewrite H, !IH. reflexivity.
Qed.

End Nearest.

Lemma nth_error_indexed {A} (l : list A) k :
  nth_error (indexed l) k = option_map (fun x => (k, x)) (nth_error l k).
Proof. unfold indexed, mapi. apply nth_error_mapiFrom. Qed.

Lemma indexed_nil {A} (l : list A) : l <> [] -> indexed l <> [].
Proof. destruct l; [congruence | discriminate]. Qed.

Lemma indexed_cons {A} (a : A) (l : list A) :
  indexed (a :: l) = (0%nat, a) :: mapiFrom (fun i x => (i, x)) 1 l.
Proof. reflexivity. Qed.

(** What [chooseClosestSection] returns, for any rendering [dist] of the
    distance of the section at a position. *)
Lemma chooseClosestSection_spec vp d :
  sections d <> [] ->
  exists k s,
    nth_error (sections d) k = Some s /\
    chooseClosestSection vp d = Some s /\
    (forall j, (j < List.length (sections d))%nat ->
               PrimFloat.ltb (sectionDistance vp j) (sectionDistance vp k) = false) /\
    (forall j, (j < k)%nat ->
               PrimFloat.ltb (sectionDistance vp k) (sectionDistance vp j) = true \/
               PrimFloat.is_nan (sectionDistance vp j) = true).
Proof.
  intros Hsecs. unfold chooseClosestSection, getSections.
  destruct (sections d) as [|first rest] eqn:Hd; [congruence|].
  rewrite indexed_cons.
  destruct (closestLoop_nearest (fun p => sectionDistance vp (fst p)) snd
              (0%nat, first) (mapiFrom (fun i x => (i, x)) 1 rest))
    as (k & [k' s] & Hk & Hres & Hall & Hbefore).
  rewrite <- indexed_cons in Hk, Hall, Hbefore.
  rewrite nth_error_indexed in Hk.
  destruct (nth_error (first :: rest) k) as [s'|] eqn:Hs; [|discriminate].
  simpl in Hk. injection Hk as <- <-.
  assert (Hlt : (k < List.length (first :: rest))%nat)
    by (apply nth_error_Some; rewrite Hs; discriminate).
  exists k, s'. split; [assumption|]. split; [cbn [snd] in Hres; rewrite Hres; reflexivity|].
  split.
  - intros j Hj. destruct (nth_error (first :: rest) j) as [sj|] eqn:Hsj.
    + apply (Hall (j, sj)). eapply nth_error_In with (n := j).
      rewrite nth_error_indexed, Hsj. reflexivity.
    + apply nth_error_None in Hsj. lia.
  - intros j Hj. destruct (nth_error (first :: rest) j) as [sj|] eqn:Hsj.
    + apply (Hbefore j (j, sj) Hj). rewrite nth_error_indexed, Hsj. reflexivity.
    + apply nth_error_None in Hsj. lia.
Qed.

(** What [indexFromScroll] returns on a carousel with cards. *)
Lemma indexFromScroll_spec (c : Carousel.State) :
  Carousel.cards c <> [] ->
  let center := (Carousel.scrollLeft c + Carousel.clientWidth c / 2)%float in
  exists card,
    nth_error (Carousel.cards c) (Carousel.indexFromScroll c) = Some card /\
    (forall j cj, nth_error (Carousel.cards c) j = Some cj ->
                  PrimFloat.ltb (Carousel.cardDistance center cj)
                                (Carousel.cardDistance center card) = false) /\
    (forall j cj, (j < Carousel.indexFromScroll c)%nat ->
                  nth_error (Carousel.cards c) j = Some cj ->
                  PrimFloat.ltb (Carousel.cardDistance center card)
                                (Carousel.cardDistance center cj) = true \/
                  PrimFloat.is_nan (Carousel.cardDistance center cj) = true).
Proof.
  intros Hcards center. unfold Carousel.indexFromScroll. fold center.
  destruct (Carousel.cards c) as [|card0 rest] eqn:Hc; [congruence|].
  rewrite indexed_cons.
  destruct (closestLoop_nearest (fun p => Carousel.cardDistance center (snd p)) fst
              (0%nat, card0) (mapiFrom (fun i x => (i, x)) 1 rest))
    as (k & [k' card] & Hk & Hres & Hall & Hbefore).
  rewrite <- indexed_cons in Hk, Hall, Hbefore.
  rewrite nth_error_indexed in Hk.
  destruct (nth_error (card0 :: rest) k) as [card'|] eqn:Hck; [|discriminate].
  simpl in Hk. injection Hk as <- <-. cbn [fst] in Hres. rewrite Hres. cbn [fst].
  exists card'. split; [assumption|]. split.
  - intros j cj Hj. apply (Hall (j, cj)). eapply nth_error_In with (n := j).
    rewrite nth_error_indexed, Hj. reflexivity.
  - intros j cj Hlt Hj. apply (Hbefore j (j, cj) Hlt).
    rewrite nth_error_indexed, Hj. reflexivity.
Qed.

(** C3. On a non-empty list, [chooseClosestSection] returns a section, and
    [indexFromScroll] the index of a card, that no element is nearer than:
    the distance is the one the script computes in binary64 arithmetic,
    [|top + height / 2 - innerHeight / 2|] for a section and
    [|offsetLeft + offsetWidth / 2 - (scrollLeft + clientWidth / 2)|] for a
    card.  Every element before the result in document order is strictly
    farther (or has no distance, NaN): among elements at the least distance
    the first one is returned.  When no distance is NaN the result's
    distance is less than or equal to every other.  The result is
    determined by the geometry and the element list alone. *)
Theorem nearest_element (vp : Viewport) (d : Doc) (c : Carousel.State) :
  sections d <> [] ->
  Carousel.cards c <> [] ->
  let dist := fun i : nat =>
    PrimFloat.abs (top (boundingClientRect vp i) + height (boundingClientRect vp i) / 2
                   - innerHeight vp / 2)%float in
  let cdist := fun card : Carousel.Card =>
    PrimFloat.abs (Carousel.offsetLeft card + Carousel.offsetWidth card / 2
                   - (Carousel.scrollLeft c + Carousel.clientWidth c / 2))%float in
  (exists k s,
      nth_error (sections d) k = Some s /\
      chooseClosestSection vp d = Some s /\
      (forall j, (j < List.length (sections d))%nat ->
                 PrimFloat.ltb (dist j) (dist k) = false) /\
      (forall j, (j < k)%nat ->
                 PrimFloat.ltb (dist k) (dist j) = true \/ PrimFloat.is_nan (dist j) = true) /\
      ((forall j, (j < List.length (sections d))%nat -> PrimFloat.is_nan (dist j) = false) ->
       (forall j, (j < List.length (sections d))%nat -> PrimFloat.leb (dist k) (dist j) = true) /\
       (forall j, (j < k)%nat -> PrimFloat.ltb (dist k) (dist j) = true))) /\
  (exists card,
      nth_error (Carousel.cards c) (Carousel.indexFromScroll c) = Some card /\
      (forall j cj, nth_error (Carousel.cards c) j = Some cj ->
                    PrimFloat.ltb (cdist cj) (cdist card) = false) /\
      (forall j cj, (j < Carousel.indexFromScroll c)%nat ->
                    nth_error (Carousel.cards c) j = Some cj ->
                    PrimFloat.ltb (cdist card) (cdist cj) = true \/
                    PrimFloat.is_nan (cdist cj) = true) /\
      ((forall cj, In cj (Carousel.cards c) -> PrimFloat.is_nan (cdist cj) = false) ->
       (forall cj, In cj (Carousel.cards c) -> PrimFloat.leb (cdist card) (cdist cj) = true) /\
       (forall j cj, (j < Carousel.indexFromScroll c)%nat ->
                     nth_error (Carousel.cards c) j = Some cj ->
                     PrimFloat.ltb (cdist card) (cdist cj) = true))) /\
  (forall vp' d',
      sections d' = sections d ->
      innerHeight vp' = innerHeight vp ->
      (forall i, boundingClientRect vp' i = boundingClientRect vp i) ->
      chooseClosestSection vp' d' = chooseClosestSection vp d) /\
  (forall c',
      Carousel.cards c' = Carousel.cards c ->
      Carousel.scrollLeft c' = Carousel.scrollLeft c ->
      Carousel.clientWidth c' = Carousel.clientWidth c ->
      Carousel.indexFromScroll c' = Carousel.indexFromScroll c).
Proof.
  intros Hsecs Hcards dist cdist. split; [|split; [|split]].
  - destruct (chooseClosestSection_spec vp d Hsecs) as (k & s & Hk & Hc & Hmin & Hfirst).
    change (forall j, (j < List.length (sections d))%nat ->
                      PrimFloat.ltb (dist j) (dist k) = false) in Hmin.
    change (forall j, (j < k)%nat ->
                      PrimFloat.ltb (dist k) (dist j) = true \/
                      PrimFloat.is_nan (dist j) = true) in Hfirst.
    assert (Hlt : (k < List.length (sections d))%nat)
      by (apply nth_error_Some; rewrite Hk; discriminate).
    exists k, s. repeat split; try assumption.
    + intros j Hj. apply ltb_total; auto.
    + intros j Hj. destruct (Hfirst j Hj) as [Hl|Hn]; [assumption|].
      rewrite H in Hn by lia. discriminate.
  - destruct (indexFromScroll_spec c Hcards) as (card & Hk & Hmin & Hfirst).
    change (forall j cj, nth_error (Carousel.cards c) j = Some cj ->
                         PrimFloat.ltb (cdist cj) (cdist card) = false) in Hmin.
    change (forall j cj, (j < Carousel.indexFromScroll c)%nat ->
                         nth_error (Carousel.cards c) j = Some cj ->
                         PrimFloat.ltb (cdist card) (cdist cj) = true \/
                         PrimFloat.is_nan (cdist cj) = true) in Hfirst.
    exists card. repeat split; try assumption.
    + intros cj Hcj. apply In_nth_error in Hcj. destruct Hcj as [j Hj].
      apply ltb_total.
      * apply H. eapply nth_error_In. eassumption.
      * apply H. eapply nth_error_In. eassumption.
      * eapply Hmin. eassumption.
    + intros j cj Hlt Hj. destruct (Hfirst j cj Hlt Hj) as [Hl|Hn]; [assumption|].
      rewrite H in Hn by (eapply nth_error_In; eassumption). discriminate.
  - intros vp' d' Hs Hh Hr. unfold chooseClosestSection, getSections. rewrite Hs.
    destruct (sections d) as [|first rest]; [reflexivity|]. f_equal.
    apply closestLoop_ext. intros [i s]. unfold sectionDistance. cbn [fst].
    rewrite Hh, Hr. reflexivity.
  - intros c' Hc Hl Hw. unfold Carousel.indexFromScroll. rewrite Hc, Hl, Hw. reflexivity.
Qed.

(** C3, on the sample page scrolled half-way between the first two
    sections: both are 400px from the midpoint and the first one wins. *)
Lemma nearest_element_witness :
  sections sampleDoc <> [] /\
  Carousel.cards sampleCarousel <> [] /\
  option_map id (chooseClosestSection (sampleViewport 400%float) sampleDoc) = Some "home" /\
  exists k s,
    nth_error (sections sampleDoc) k = Some s /\
    chooseClosestSection (sampleViewport 400%float) sampleDoc = Some s.
Proof.
  assert (H1 : sections sampleDoc <> []) by discriminate.
  assert (H2 : Carousel.cards sampleCarousel <> []) by discriminate.
  split; [exact H1|]. split; [exact H2|]. split; [reflexivity|].
  destruct (proj1 (nearest_element (sampleViewport 400%float) sampleDoc sampleCarousel H1 H2))
    as (k & s & Hk & Hc & _).
  exists k, s. split; assumption.
Defined.

(** Rounding decides ties as the script does: with rectangles of tops
    -450.8 and 730.5 and heights 365.7 and 674.9 in a viewport of height
    800, both distances round to the same binary64 value and the first
    section is kept, although the second is nearer in exact arithmetic. *)
Lemma rounding_tie_keeps_first :
  sectionDistance tieViewport 0 = sectionDistance tieViewport 1 /\
  option_map id (chooseClosestSection tieViewport tieDoc) = Some "a".
Proof. split; reflexivity. Qed.

(** ** What the callbacks keep: the sections and their ids *)

Lemma sections_setActiveSection id0 d :
  sections (setActiveSection id0 d) = map (setActiveSection_body id0) (sections d).
Proof. rewrite setActiveSection_unfold. reflexivity. Qed.

Lemma ids_setActiveSection id0 d :
  map id (sections (setActiveSection id0 d)) = map id (sections d).
Proof. rewrite sections_setActiveSection, map_map. reflexivity. Qed.

Lemma sections_tryFocus h id0 d : sections (tryFocus h id0 d) = sections d.
Proof. unfold tryFocus. destruct (focusOutcome h id0); reflexivity. Qed.

Lemma sections_navigateToSection h id0 d :
  sections (navigateToSection h id0 d)
  = if getElementById id0 d
    then map (setActiveSection_body id0) (sections d)
    else sections d.
Proof.
  unfold navigateToSection. destruct (getElementById id0 d); cbn [negb].
  - rewrite sections_setActiveSection, sections_tryFocus. reflexivity.
  - reflexivity.
Qed.

Lemma ids_navigateToSection h id0 d :
  map id (sections (navigateToSection h id0 d)) = map id (sections d).
Proof.
  rewrite sections_navigateToSection. destruct (getElementById id0 d).
  - rewrite map_map. reflexivity.
  - reflexivity.
Qed.

Lemma nth_error_updateAt {A} (f : A -> A) (l : list A) : forall n j,
  nth_error (updateAt n f l) j
  = if Nat.eqb j n then option_map f (nth_error l j) else nth_error l j.
Proof.
  induction l as [|a l IH]; intros n j.
  - destruct n, j; simpl; try reflexivity. destruct (Nat.eqb j n); reflexivity.
  - destruct n, j; simpl; try reflexivity. apply IH.
Qed.

Lemma map_updateAt {A B} (g : A -> B) (f : A -> A) (l : list A) :
  (forall x, g (f x) = g x) -> forall n, map g (updateAt n f l) = map g l.
Proof.
  intros H. induction l as [|a l IH]; intros [|n]; simpl; try reflexivity.
  - rewrite H. reflexivity.
  - rewrite IH. reflexivity.
Qed.

Lemma ids_observerEntry d entry :
  map id (sections (observerEntry d entry)) = map id (sections d).
Proof.
  unfold observerEntry.
  destruct (Qlt_bool (1 # 2) (intersectionRatio entry)); cbn [updateNavCurrent withSections sections];
    apply map_updateAt; reflexivity.
Qed.

Lemma ids_observerCallback entries : forall d,
  map id (sections (observerCallback entries d)) = map id (sections d).
Proof.
  unfold observerCallback. induction entries as [|e r IH]; intros d; simpl.
  - reflexivity.
  - rewrite IH. apply ids_observerEntry.
Qed.

Lemma closestLoop_In {A B} (dist : A -> number) (pick : A -> B) (l : list A) : forall m c,
  closestLoop dist pick l m c = c \/
  exists x, In x l /\ closestLoop dist pick l m c = pick x.
Proof.
  induction l as [|a l IH]; intros m c; cbn [closestLoop].
  - left. reflexivity.
  - destruct (belowMin (dist a) m).
    + destruct (IH (dist a) (pick a)) as [H | (x & Hx & H)].
      * right. exists a. split; [left; reflexivity | assumption].
      * right. exists x. split; [right; assumption | assumption].
    + destruct (IH m c) as [H | (x & Hx & H)].
      * left. assumption.
      * right. exists x. split; [right; assumption | assumption].
Qed.

Lemma In_indexed {A} (l : list A) (p : nat * A) : In p (indexed l) -> In (snd p) l.
Proof.
  intros H. apply In_nth_error in H. destruct H as [k Hk].
  rewrite nth_error_indexed in Hk.
  destruct (nth_error l k) as [x|] eqn:Hx; [|discriminate].
  injection Hk as <-. eapply nth_error_In. eassumption.
Qed.

Lemma chooseClosestSection_In vp d s :
  chooseClosestSection vp d = Some s -> In s (sections d).
Proof.
  unfold chooseClosestSection, getSections.
  destruct (sections d) as [|first rest] eqn:Hd; [discriminate|].
  set (r := closestLoop _ _ _ _ _).
  assert (Hr : r = first \/ exists x, In x (indexed (first :: rest)) /\ r = snd x)
    by apply closestLoop_In.
  clearbody r. intros H. injection H as <-.
  destruct Hr as [-> | (x & Hx & ->)].
  - left. reflexivity.
  - apply In_indexed. assumption.
Qed.

Lemma chooseClosestSection_some vp d :
  sections d <> [] -> exists s, chooseClosestSection vp d = Some s.
Proof.
  unfold chooseClosestSection, getSections.
  destruct (sections d); [congruence|]. intros _. eexists. reflexivity.
Qed.

Lemma ids_onScrollSettled vp d :
  map id (sections (onScrollSettled vp d)) = map id (sections d).
Proof.
  unfold onScrollSettled. destruct (chooseClosestSection vp d).
  - apply ids_setActiveSection.
  - reflexivity.
Qed.

Lemma ids_onKeydown h key d :
  map id (sections (onKeydown h key d)) = map id (sections d).
Proof.
  unfold onKeydown, goToNextSection, goToPrevSection.
  repeat match goal with
         | |- context [if ?b then _ else _] => destruct b
         | |- context [match index ?l ?i with _ => _ end] => destruct (index l i)
         end; try reflexivity; apply ids_navigateToSection.
Qed.

Lemma ids_handle h ev d : map id (sections (handle h ev d)) = map id (sections d).
Proof.
  destruct ev as [entries|vp|n|key]; cbn [handle].
  - apply ids_observerCallback.
  - apply ids_onScrollSettled.
  - unfold onNavClick. destruct (nth_error (navLinks d) n).
    + apply ids_navigateToSection.
    + reflexivity.
  - apply ids_onKeydown.
Qed.

Lemma ids_bootstrap d : map id (sections (bootstrap d)) = map id (sections d).
Proof.
  unfold bootstrap, getSections. destruct (sections d) eqn:Hd.
  - rewrite Hd. reflexivity.
  - rewrite ids_setActiveSection, Hd. reflexivity.
Qed.

Lemma ids_reachable h d0 d :
  Reachable h d0 d -> map id (sections d) = map id (sections d0).
Proof.
  induction 1 as [|d ev Hr IH].
  - apply ids_bootstrap.
  - rewrite ids_handle. assumption.
Qed.

Lemma getElementById_section id0 d :
  id0 <> "" -> In id0 (map id (sections d)) -> getElementById id0 d = true.
Proof.
  intros Hne Hin. unfold getElementById.
  destruct id0; [congruence|]. cbn [truthy andb].
  apply orb_true_iff. left. apply existsb_exists.
  eexists. split; [eassumption | apply String.eqb_refl].
Qed.

Lemma activeCount_navigate h id0 d :
  NoDup (map id (sections d)) -> id0 <> "" -> In id0 (map id (sections d)) ->
  activeCount (navigateToSection h id0 d) = 1%nat.
Proof.
  intros Hnd Hne Hin. unfold navigateToSection.
  rewrite getElementById_section by assumption. cbn [negb].
  rewrite activeCount_setActiveSection, sections_tryFocus. cbn [scrollIntoView sections].
  apply filter_id_unique; assumption.
Qed.

Lemma activeCount_settled vp d :
  NoDup (map id (sections d)) -> sections d <> [] ->
  activeCount (onScrollSettled vp d) = 1%nat.
Proof.
  intros Hnd Hne. unfold onScrollSettled.
  destruct (chooseClosestSection_some vp d Hne) as [s Hs]. rewrite Hs.
  rewrite activeCount_setActiveSection. apply filter_id_unique; [assumption|].
  apply in_map. eapply chooseClosestSection_In. eassumption.
Qed.

(** ** C1: how many sections are active *)

Lemma activeCount_bootstrap d :
  NoDup (map id (sections d)) -> sections d <> [] ->
  activeCount (bootstrap d) = 1%nat.
Proof.
  intros Hnd Hne. unfold bootstrap, getSections.
  destruct (sections d) as [|first rest] eqn:Hd; [congruence|].
  rewrite activeCount_setActiveSection, Hd. apply filter_id_unique.
  - assumption.
  - left. reflexivity.
Qed.

Lemma observerEntry_sections d entry :
  sections (observerEntry d entry)
  = updateAt (target entry)
      (fun s =>
         if Qlt_bool (1 # 2) (intersectionRatio entry)
         then {| id := id s;
                 sectionClasses := DOMTokenList.add "active" (sectionClasses s);
                 ariaHidden := ariaHidden s;
                 descendants := forEachMatch OBSERVER_TARGETS showTarget (descendants s) |}
         else {| id := id s;
                 sectionClasses := DOMTokenList.remove "active" (sectionClasses s);
                 ariaHidden := ariaHidden s;
                 descendants := descendants s |})
      (sections d).
Proof.
  unfold observerEntry. destruct (Qlt_bool (1 # 2) (intersectionRatio entry)); reflexivity.
Qed.

(** C1, amended.  On a document with at least one section and pairwise
    distinct section ids, exactly one section is active when the load
    handler has activated the first one, and, from every state reachable
    afterwards, after a scroll-settle resolution and after a navigation
    request to the id of a section.  An observer callback entry only
    touches the section it reports: that section is active afterwards
    exactly when its intersection ratio exceeds one half, every other
    section is as before. *)
Theorem single_active_restored (h : Host) (d0 : Doc) :
  sections d0 <> [] ->
  NoDup (map id (sections d0)) ->
  activeCount (bootstrap d0) = 1%nat /\
  forall d, Reachable h d0 d ->
    (forall vp, activeCount (onScrollSettled vp d) = 1%nat) /\
    (forall id0, id0 <> "" -> In id0 (map id (sections d0)) ->
                 activeCount (navigateToSection h id0 d) = 1%nat) /\
    (forall entry j, j <> target entry ->
        nth_error (sections (observerEntry d entry)) j = nth_error (sections d) j) /\
    (forall entry s, nth_error (sections d) (target entry) = Some s ->
        exists s', nth_error (sections (observerEntry d entry)) (target entry) = Some s' /\
                   isActiveSection s' = Qlt_bool (1 # 2) (intersectionRatio entry)).
Proof.
  intros Hne Hnd. split; [apply activeCount_bootstrap; assumption|].
  intros d Hr. pose proof (ids_reachable h d0 d Hr) as Hids.
  assert (Hnd' : NoDup (map id (sections d))) by (rewrite Hids; assumption).
  assert (Hne' : sections d <> []).
  { intros Hnil. rewrite Hnil in Hids. destruct (sections d0); [congruence | discriminate]. }
  split; [|split; [|split]].
  - intros vp. apply activeCount_settled; assumption.
  - intros id0 Hid Hin. apply activeCount_navigate; try assumption.
    rewrite Hids. assumption.
  - intros entry j Hj. rewrite observerEntry_sections, nth_error_updateAt.
    destruct (Nat.eqb_spec j (target entry)); [contradiction | reflexivity].
  - intros entry s Hs. rewrite observerEntry_sections, nth_error_updateAt.
    rewrite Nat.eqb_refl, Hs. cbn [option_map]. eexists. split; [reflexivity|].
    unfold isActiveSection.
    destruct (Qlt_bool (1 # 2) (intersectionRatio entry)); cbn [sectionClasses].
    + rewrite TokenFacts.contains_add. apply orb_true_r.
    + rewrite TokenFacts.contains_remove. apply andb_false_r.
Qed.

(** C1 amended, on the sample document. *)
Lemma single_active_restored_witness :
  sections sampleDoc <> [] /\
  NoDup (map id (sections sampleDoc)) /\
  activeCount (bootstrap sampleDoc) = 1%nat.
Proof.
  assert (H1 : sections sampleDoc <> []) by discriminate.
  assert (H2 : NoDup (map id (sections sampleDoc))).
  { simpl. repeat constructor; simpl; intuition discriminate. }
  split; [exact H1|]. split; [exact H2|].
  exact (proj1 (single_active_restored sampleHost sampleDoc H1 H2)).
Defined.

(** C1 as stated fails: after load, one observer callback reporting the
    first section at ratio 0.3 leaves no section active, and one reporting
    the second section at ratio 0.9 leaves two. *)
Lemma observer_breaks_single_active :
  (Reachable sampleHost sampleDoc
     (handle sampleHost (Intersection [mkEntry 0 (3 # 10)]) (bootstrap sampleDoc)) /\
   activeCount
     (handle sampleHost (Intersection [mkEntry 0 (3 # 10)]) (bootstrap sampleDoc)) = 0%nat) /\
  (Reachable sampleHost sampleDoc
     (handle sampleHost (Intersection [mkEntry 1 (9 # 10)]) (bootstrap sampleDoc)) /\
   activeCount
     (handle sampleHost (Intersection [mkEntry 1 (9 # 10)]) (bootstrap sampleDoc)) = 2%nat).
Proof.
  split; (split; [apply Reachable_step; apply Reachable_init | reflexivity]).
Qed.

(** ** C7: keyboard navigation *)

Lemma getActiveIndex_nth d i :
  getActiveIndex d = Z.of_nat i ->
  exists s, nth_error (sections d) i = Some s /\ isActiveSection s = true.
Proof.
  unfold getActiveIndex, getSections, findIndex. intros H.
  pose proof (findIndexFrom_find isActiveSection (sections d) 0%Z) as Hf.
  destruct (find isActiveSection (sections d)) as [x|].
  - destruct Hf as (k & Hk & Hn & Hx & _).
    assert (k = i) by lia. subst k. exists x. split; assumption.
  - lia.
Qed.

Lemma body_onlyActive secs id0 k s1 :
  NoDup (map id secs) ->
  nth_error secs k = Some s1 ->
  id s1 = id0 ->
  (exists s, nth_error (map (setActiveSection_body id0) secs) k = Some s /\
             isActiveSection s = true) /\
  forall j s, nth_error (map (setActiveSection_body id0) secs) j = Some s ->
              isActiveSection s = Nat.eqb j k.
Proof.
  intros Hnd Hk Hid. split.
  - exists (setActiveSection_body id0 s1). split.
    + rewrite nth_error_map, Hk. reflexivity.
    + rewrite isActive_body, Hid. apply String.eqb_refl.
  - intros j s' Hj. rewrite nth_error_map in Hj.
    destruct (nth_error secs j) as [sj|] eqn:Hsj; [|discriminate].
    injection Hj as <-. rewrite isActive_body.
    destruct (Nat.eqb_spec j k) as [->|Hjk].
    + assert (sj = s1) by congruence. subst sj. rewrite Hid. apply String.eqb_refl.
    + apply String.eqb_neq. intros Heq. apply Hjk.
      apply (proj1 (NoDup_nth_error (map id secs)) Hnd).
      * rewrite length_map. apply nth_error_Some. rewrite Hsj. discriminate.
      * rewrite !nth_error_map, Hsj, Hk. simpl. rewrite Heq, Hid. reflexivity.
Qed.

(** What a navigation request to the id of section [k] leaves. *)
Lemma navigate_effect h d k s1 :
  NoDup (map id (sections d)) ->
  nth_error (sections d) k = Some s1 ->
  id s1 <> "" ->
  sections (navigateToSection h (id s1) d) = sections (setActiveSection (id s1) d) /\
  navLinks (navigateToSection h (id s1) d) = navLinks (setActiveSection (id s1) d) /\
  scrolledTo (navigateToSection h (id s1) d) = Some (id s1) /\
  onlyActive k (navigateToSection h (id s1) d) /\
  activeCount (navigateToSection h (id s1) d) = 1%nat.
Proof.
  intros Hnd Hk Hne.
  assert (Hin : In (id s1) (map id (sections d)))
    by (apply in_map; eapply nth_error_In; eassumption).
  assert (Hsec : sections (navigateToSection h (id s1) d)
                 = map (setActiveSection_body (id s1)) (sections d)).
  { rewrite sections_navigateToSection, getElementById_section by assumption. reflexivity. }
  split; [rewrite Hsec, sections_setActiveSection; reflexivity|].
  split.
  { unfold navigateToSection. rewrite getElementById_section by assumption. cbn [negb].
    rewrite !setActiveSection_unfold. cbn [navLinks sections].
    rewrite sections_tryFocus. unfold tryFocus.
    destruct (focusOutcome h (id s1)); reflexivity. }
  split.
  { unfold navigateToSection. rewrite getElementById_section by assumption. cbn [negb].
    rewrite setActiveSection_unfold. cbn [scrolledTo]. unfold tryFocus.
    destruct (focusOutcome h (id s1)); reflexivity. }
  split.
  - unfold onlyActive. rewrite Hsec.
    apply (body_onlyActive (sections d) (id s1) k s1 Hnd Hk eq_refl).
  - apply activeCount_navigate; assumption.
Qed.

(** C7. With pairwise distinct, non-empty section ids and section [i] the
    active one: ArrowDown or PageDown activates section [i + 1] (the
    sections and nav links are those [setActiveSection] leaves for its id,
    it is the scroll target, it is active and it is the only active
    section), or changes nothing when [i] is the last section; ArrowUp or
    PageUp does the same for section [i - 1], or changes nothing when [i]
    is the first section. *)
Theorem keyboard_navigation (h : Host) (d : Doc) (i : nat) :
  NoDup (map id (sections d)) ->
  Forall (fun s => id s <> "") (sections d) ->
  getActiveIndex d = Z.of_nat i ->
  (forall key, key = "ArrowDown" \/ key = "PageDown" ->
     ((S i < List.length (sections d))%nat ->
      exists next,
        nth_error (sections d) (S i) = Some next /\
        sections (onKeydown h key d) = sections (setActiveSection (id next) d) /\
        navLinks (onKeydown h key d) = navLinks (setActiveSection (id next) d) /\
        scrolledTo (onKeydown h key d) = Some (id next) /\
        onlyActive (S i) (onKeydown h key d) /\
        activeCount (onKeydown h key d) = 1%nat) /\
     (S i = List.length (sections d) -> onKeydown h key d = d)) /\
  (forall key, key = "ArrowUp" \/ key = "PageUp" ->
     ((0 < i)%nat ->
      exists prev,
        nth_error (sections d) (i - 1) = Some prev /\
        sections (onKeydown h key d) = sections (setActiveSection (id prev) d) /\
        navLinks (onKeydown h key d) = navLinks (setActiveSection (id prev) d) /\
        scrolledTo (onKeydown h key d) = Some (id prev) /\
        onlyActive (i - 1) (onKeydown h key d) /\
        activeCount (onKeydown h key d) = 1%nat) /\
     (i = 0%nat -> onKeydown h key d = d)).
Proof.
  intros Hnd Hids Hact.
  destruct (getActiveIndex_nth d i Hact) as (si & Hsi & _).
  assert (Hlen : (i < List.length (sections d))%nat)
    by (apply nth_error_Some; rewrite Hsi; discriminate).
  rewrite Forall_forall in Hids.
  split.
  - intros key Hkey.
    assert (Hk : onKeydown h key d = goToNextSection h d)
      by (destruct Hkey as [-> | ->]; reflexivity).
    rewrite Hk. unfold goToNextSection, getSections. rewrite Hact. split.
    + intros Hlt.
      destruct (Z.ltb_spec (Z.of_nat i) (Z.of_nat (List.length (sections d)) - 1)); [|lia].
      unfold index. destruct (Z.ltb_spec (Z.of_nat i + 1) 0); [lia|].
      replace (Z.to_nat (Z.of_nat i + 1)) with (S i) by lia.
      destruct (nth_error (sections d) (S i)) as [s1|] eqn:Hs1.
      * exists s1. split; [reflexivity|].
        apply (navigate_effect h d (S i) s1); try assumption.
        apply Hids. eapply nth_error_In. eassumption.
      * apply nth_error_None in Hs1. lia.
    + intros Heq.
      destruct (Z.ltb_spec (Z.of_nat i) (Z.of_nat (List.length (sections d)) - 1)); [lia|].
      reflexivity.
  - intros key Hkey.
    assert (Hk : onKeydown h key d = goToPrevSection h d)
      by (destruct Hkey as [-> | ->]; reflexivity).
    rewrite Hk. unfold goToPrevSection, getSections. rewrite Hact. split.
    + intros Hpos.
      destruct (Z.ltb_spec 0 (Z.of_nat i)); [|lia].
      unfold index. destruct (Z.ltb_spec (Z.of_nat i - 1) 0); [lia|].
      replace (Z.to_nat (Z.of_nat i - 1)) with (i - 1)%nat by lia.
      destruct (nth_error (sections d) (i - 1)) as [s1|] eqn:Hs1.
      * exists s1. split; [reflexivity|].
        apply (navigate_effect h d (i - 1) s1); try assumption.
        apply Hids. eapply nth_error_In. eassumption.
      * apply nth_error_None in Hs1. lia.
    + intros ->. reflexivity.
Qed.

(** C7, on the sample document after load: the first section is active,
    ArrowUp changes nothing and ArrowDown moves to the second section. *)
Lemma keyboard_navigation_witness :
  NoDup (map id (sections (bootstrap sampleDoc))) /\
  Forall (fun s => id s <> "") (sections (bootstrap sampleDoc)) /\
  getActiveIndex (bootstrap sampleDoc) = Z.of_nat 0 /\
  onKeydown sampleHost "ArrowUp" (bootstrap sampleDoc) = bootstrap sampleDoc /\
  onlyActive 1 (onKeydown sampleHost "ArrowDown" (bootstrap sampleDoc)) /\
  getActiveIndex (onKeydown sampleHost "ArrowDown" (bootstrap sampleDoc)) = 1%Z.
Proof.
  assert (H1 : NoDup (map id (sections (bootstrap sampleDoc)))).
  { simpl. repeat constructor; simpl; intuition discriminate. }
  assert (H2 : Forall (fun s => id s <> "") (sections (bootstrap sampleDoc))).
  { simpl. repeat constructor; simpl; discriminate. }
  assert (H3 : getActiveIndex (bootstrap sampleDoc) = Z.of_nat 0) by reflexivity.
  pose proof (keyboard_navigation sampleHost (bootstrap sampleDoc) 0 H1 H2 H3) as [Hdown Hup].
  split; [exact H1|]. split; [exact H2|]. split; [exact H3|]. split; [|split].
  - apply (Hup "ArrowUp"); [left; reflexivity | reflexivity].
  - destruct (proj1 (Hdown "ArrowDown" (or_introl eq_refl))) as (next & _ & _ & _ & _ & Ho & _).
    + simpl. lia.
    + exact Ho.
  - reflexivity.
Defined.

(** ** C8: the theme toggle *)

Module ThemeFacts.
Import Theme.

Lemma current_flip attr :
  current (Some (flipTheme (current attr))) = flipTheme (current attr).
Proof.
  destruct attr as [t|]; simpl; [|reflexivity].
  unfold flipTheme. destruct (String.eqb t "light"); reflexivity.
Qed.

Lemma flip_flip attr : flipTheme (flipTheme (current attr)) = current attr.
Proof.
  destruct attr as [t|]; simpl; [|reflexivity].
  unfold flipTheme. destruct (String.eqb t "light"); reflexivity.
Qed.

(** [updateThemeButton] touches the button only. *)
Lemma updateThemeButton_frame theme s :
  dataTheme (snd (updateThemeButton theme s)) = dataTheme s /\
  localStorage (snd (updateThemeButton theme s)) = localStorage s.
Proof.
  unfold updateThemeButton, bind, gets, setButton, modify, throw, ret.
  destruct s as [attr st btn]. cbn [themeToggle].
  destruct btn as [[p [txt|] [icon|]]|]; cbn; split; reflexivity.
Qed.

(** [updateThemeButton] completes unless a child of the button is missing. *)
Lemma updateThemeButton_completes theme s :
  match themeToggle s with
  | None => True
  | Some b => toggleText b <> None /\ toggleIcon b <> None
  end ->
  fst (updateThemeButton theme s) = Normal tt.
Proof.
  unfold updateThemeButton, bind, gets, setButton, modify, throw, ret.
  destruct s as [attr st btn]. cbn [themeToggle].
  destruct btn as [[p [txt|] [icon|]]|]; cbn; intros H;
    try reflexivity; destruct H; congruence.
Qed.

(** The attribute and the storage [toggle] leaves. *)
Lemma toggle_state s :
  let next := flipTheme (current (dataTheme s)) in
  dataTheme (snd (toggle s)) = Some next /\
  localStorage (snd (toggle s))
  = if setItemThrows (localStorage s) then localStorage s
    else {| items := store KEY next (items (localStorage s));
            getItemThrows := getItemThrows (localStorage s);
            setItemThrows := false |}.
Proof.
  destruct s as [attr [its g w] btn]. unfold flipTheme.
  destruct w; destruct btn as [[p [txt|] [icon|]]|]; cbn; split; reflexivity.
Qed.

Lemma lookup_store k v l : lookup k (store k v l) = Some v.
Proof. unfold store. simpl. rewrite String.eqb_refl. reflexivity. Qed.

End ThemeFacts.

(** C8, amended.  Two toggles in succession bring the displayed theme (the
    one [toggle] reads from [data-theme]: light when the attribute is
    "light", dark otherwise) back to where it was, one toggle changes it,
    and a [data-theme] of "light" or "dark" is restored literally.  After a
    toggle whose storage write is accepted the stored preference is the
    displayed theme; when the write is refused the stored preference stays
    as it was. *)
Theorem toggle_twice_and_persistence (s : Theme.State) :
  let s1 := snd (Theme.toggle s) in
  let s2 := snd (Theme.toggle s1) in
  Theme.displayed s2 = Theme.displayed s /\
  Theme.displayed s1 = flipTheme (Theme.displayed s) /\
  (Theme.dataTheme s = Some "light" \/ Theme.dataTheme s = Some "dark" ->
   Theme.dataTheme s2 = Theme.dataTheme s) /\
  (Theme.setItemThrows (Theme.localStorage s) = false ->
   Theme.persisted s1 = Some (Theme.displayed s1)) /\
  (Theme.setItemThrows (Theme.localStorage s) = true ->
   Theme.persisted s1 = Theme.persisted s).
Proof.
  intros s1 s2.
  destruct (ThemeFacts.toggle_state s) as [Hattr1 Hst1]. fold s1 in Hattr1, Hst1.
  destruct (ThemeFacts.toggle_state s1) as [Hattr2 _]. fold s2 in Hattr2.
  assert (Hd1 : Theme.displayed s1 = flipTheme (Theme.displayed s)).
  { unfold Theme.displayed. rewrite Hattr1. apply ThemeFacts.current_flip. }
  assert (Hd2 : Theme.dataTheme s2 = Some (Theme.displayed s)).
  { rewrite Hattr2. fold (Theme.displayed s1). rewrite Hd1.
    unfold Theme.displayed. rewrite ThemeFacts.flip_flip. reflexivity. }
  split; [|split; [assumption|split; [|split]]].
  - unfold Theme.displayed at 1. rewrite Hd2. unfold Theme.displayed.
    destruct (Theme.dataTheme s) as [t|]; simpl; [|reflexivity].
    destruct (String.eqb t "light"); reflexivity.
  - intros [H|H]; rewrite Hd2; unfold Theme.displayed; rewrite H; reflexivity.
  - intros Hw. unfold Theme.persisted. rewrite Hst1, Hw. cbn [Theme.items].
    rewrite ThemeFacts.lookup_store. rewrite Hd1. reflexivity.
  - intros Hw. unfold Theme.persisted. rewrite Hst1, Hw. reflexivity.
Qed.

(** C8 amended, on the sample theme state (dark, storage working). *)
Lemma toggle_twice_and_persistence_witness :
  Theme.setItemThrows (Theme.localStorage sampleTheme) = false /\
  Theme.dataTheme sampleTheme = Some "dark" /\
  Theme.persisted (snd (Theme.toggle sampleTheme)) = Some "light" /\
  Theme.dataTheme (snd (Theme.toggle (snd (Theme.toggle sampleTheme)))) = Some "dark".
Proof.
  pose proof (toggle_twice_and_persistence sampleTheme) as (_ & _ & Hattr & Hok & _).
  split; [reflexivity|]. split; [reflexivity|]. split.
  - exact (Hok eq_refl).
  - exact (Hattr (or_intror eq_refl)).
Defined.

(** C8 as stated fails: when the host refuses the write, the toggle
    displays "light" while the storage still holds "dark". *)
Lemma toggle_write_refused :
  Theme.displayed (snd (Theme.toggle writeRefused)) = "light" /\
  Theme.persisted (snd (Theme.toggle writeRefused)) = Some "dark" /\
  Theme.persisted (snd (Theme.toggle writeRefused))
  <> Some (Theme.displayed (snd (Theme.toggle writeRefused))).
Proof.
  split; [reflexivity|]. split; [reflexivity|]. discriminate.
Qed.

(** ** C9: storage failures *)

(** The write in [toggle] is guarded: a refused write never makes
    [toggle] throw. *)
Lemma toggle_swallows_write_failure (s : Theme.State) :
  match Theme.themeToggle s with
  | None => True
  | Some b => Theme.toggleText b <> None /\ Theme.toggleIcon b <> None
  end ->
  fst (Theme.toggle s) = Normal tt.
Proof.
  destruct s as [attr [its g w] btn].
  destruct w; destruct btn as [[p [txt|] [icon|]]|]; cbn; intros H;
    try reflexivity; destruct H; congruence.
Qed.

(** The read in [init] is not guarded: a refused read leaves [init] by the
    exception, with nothing done. *)
Lemma init_propagates_read_failure (s : Theme.State) :
  Theme.getItemThrows (Theme.localStorage s) = true ->
  Theme.init s = (Throw DOMException, s).
Proof.
  intros H. unfold Theme.init, bind, Theme.getItem. rewrite H. reflexivity.
Qed.

Lemma load_propagates_read_failure (fullYear : nat) (p : Page) :
  Theme.getItemThrows (Theme.localStorage (theme p)) = true ->
  Script.onDOMContentLoaded fullYear p = (Throw DOMException, p).
Proof.
  intros H. unfold Script.onDOMContentLoaded. unfold bind at 1. unfold zoom.
  rewrite init_propagates_read_failure by assumption.
  destruct p. reflexivity.
Qed.

(** C9, at the failing input: with a storage that refuses reads, [init]
    throws, the load handler ends there, no listener is installed and no
    section is activated; the write of [toggle] on the same storage is
    swallowed. *)
Theorem storage_read_failure_is_fatal :
  Theme.init (theme pageWithBlockedStorage)
  = (Throw DOMException, theme pageWithBlockedStorage) /\
  Script.onDOMContentLoaded 2025 pageWithBlockedStorage
  = (Throw DOMException, pageWithBlockedStorage) /\
  listeners (snd (Script.onDOMContentLoaded 2025 pageWithBlockedStorage)) = noListeners /\
  activeCount (doc (snd (Script.onDOMContentLoaded 2025 pageWithBlockedStorage))) = 0%nat /\
  fst (Theme.toggle (theme pageWithBlockedStorage)) = Normal tt.
Proof.
  repeat split; reflexivity.
Qed.

(** ** C5: submitting the contact form *)

(** The submit listener of script.js never writes to the form. *)
Lemma script_submit_leaves_form (g : ContactForm.GlobalScope) (fm : ContactForm.Form) :
  snd (ContactForm.onSubmit g fm) = fm.
Proof.
  unfold ContactForm.onSubmit.
  destruct (ContactForm.global_carousel g); [destruct (ContactForm.global_cards g)|];
    reflexivity.
Qed.

Lemma script_submit_throws (g : ContactForm.GlobalScope) (fm : ContactForm.Form) :
  ContactForm.global_carousel g = None ->
  ContactForm.onSubmit g fm = (Throw ReferenceError, fm).
Proof. intros H. unfold ContactForm.onSubmit. rewrite H. reflexivity. Qed.

(** The submit listener of the older copy, name left blank. *)
Lemma legacy_submit_blank_name (n e m : ContactForm.Field) (st : string) :
  nonEmpty (trim (ContactForm.value n)) = false ->
  exists n' e' m',
    Legacy.onSubmit (ContactForm.mkForm (Some n) (Some e) (Some m) (Some st))
    = (Normal tt,
       ContactForm.mkForm (Some n') (Some e') (Some m')
                          (Some "Please fix the errors above.")) /\
    ContactForm.value n' = ContactForm.value n /\
    ContactForm.value e' = ContactForm.value e /\
    ContactForm.value m' = ContactForm.value m /\
    ContactForm.ariaInvalid n' = Some "true" /\
    ContactForm.errorSlot n'
    = match ContactForm.errorSlot n with
      | Some _ => Some "Please enter your name."
      | None => None
      end.
Proof.
  intros Hn. unfold Legacy.onSubmit, Legacy.requireValue, Legacy.requireEmail,
    Legacy.fieldValue, ContactForm.setError, ContactForm.setStatus,
    bind, gets, modify, ret, throw.
  cbn. rewrite Hn. cbn.
  destruct (nonEmpty (trim (ContactForm.value e))); cbn;
    [destruct (ContactForm.isEmailValid (trim (ContactForm.value e))); cbn|];
    destruct (nonEmpty (trim (ContactForm.value m))); cbn;
    do 3 eexists; (split; [reflexivity|]); cbn; repeat split; reflexivity.
Qed.

(** The submit listener of the older copy, every field valid. *)
Lemma legacy_submit_valid (n e m : ContactForm.Field) (st : string) :
  nonEmpty (trim (ContactForm.value n)) = true ->
  nonEmpty (trim (ContactForm.value e)) = true ->
  ContactForm.isEmailValid (trim (ContactForm.value e)) = true ->
  nonEmpty (trim (ContactForm.value m)) = true ->
  exists n' e' m',
    Legacy.onSubmit (ContactForm.mkForm (Some n) (Some e) (Some m) (Some st))
    = (Normal tt,
       ContactForm.mkForm (Some n') (Some e') (Some m')
                          (Some "Thanks — your message was sent (simulation).")) /\
    ContactForm.value n' = ContactForm.defaultValue n /\
    ContactForm.value e' = ContactForm.defaultValue e /\
    ContactForm.value m' = ContactForm.defaultValue m.
Proof.
  intros Hn He Hv Hm. unfold Legacy.onSubmit, Legacy.requireValue, Legacy.requireEmail,
    Legacy.fieldValue, ContactForm.setError, ContactForm.setStatus, ContactForm.reset,
    bind, gets, modify, ret, throw.
  cbn. rewrite Hn. cbn. rewrite He. cbn. rewrite Hv. cbn. rewrite Hm. cbn.
  do 3 eexists. split; [reflexivity|]. cbn. repeat split; reflexivity.
Qed.

(** C5, at the failing input: the form is submitted with a blank name,
    then again with every field filled.  The listener of script.js throws
    on its first statement both times and leaves the form as it was: no
    inline error, no status message, no reset.  The listener of the older
    copy sets the error and the status. *)
Theorem script_submit_blank_name :
  ContactForm.onSubmit scriptScope (sampleForm "" "ada@example.org" "Hello")
  = (Throw ReferenceError, sampleForm "" "ada@example.org" "Hello") /\
  ContactForm.onSubmit scriptScope (sampleForm "Ada" "ada@example.org" "Hello")
  = (Throw ReferenceError, sampleForm "Ada" "ada@example.org" "Hello") /\
  Legacy.onSubmit (sampleForm "" "ada@example.org" "Hello")
  = (Normal tt,
     ContactForm.mkForm
       (Some (ContactForm.mkField (js "") (js "") (Some "true")
                                  (Some "Please enter your name.")))
       (Some (ContactForm.mkField (js "ada@example.org") (js "") (Some "false") (Some "")))
       (Some (ContactForm.mkField (js "Hello") (js "") (Some "false") (Some "")))
       (Some "Please fix the errors above.")).
Proof.
  repeat split; reflexivity.
Qed.

(** ** C6: missing elements *)

(** script.js: a navigation request for an id no element carries changes
    nothing. *)
Lemma navigateToSection_missing (h : Host) (id0 : string) (d : Doc) :
  getElementById id0 d = false -> navigateToSection h id0 d = d.
Proof. intros H. unfold navigateToSection. rewrite H. reflexivity. Qed.

(** The older copy behaves the same on a missing id. *)
Lemma legacy_navigateToSection_missing (h : Host) (id0 : string) (d : Doc) :
  getElementById id0 d = false -> Legacy.navigateToSection h id0 d = (Normal tt, d).
Proof.
  intros H. unfold Legacy.navigateToSection, bind, gets. rewrite H. reflexivity.
Qed.

(** script.js: without a carousel container, [initProjectCarousel] returns
    and leaves the page as it was. *)
Lemma initProjectCarousel_absent (p : Page) :
  projectCarousel p = None -> Script.initProjectCarousel p = (Normal tt, p).
Proof.
  intros H. unfold Script.initProjectCarousel, bind, gets. rewrite H. reflexivity.
Qed.

(** The older copy: without a carousel container, [initProjectCarousel]
    throws. *)
Lemma legacy_initProjectCarousel_absent (p : Page) :
  projectCarousel p = None -> Legacy.initProjectCarousel p = (Throw TypeError, p).
Proof.
  intros H. unfold Legacy.initProjectCarousel, bind, gets. rewrite H. reflexivity.
Qed.

(** script.js: the load handler completes whenever the storage can be read
    and every widget that exists has its children; absent widgets are
    skipped. *)
Lemma load_completes (fullYear : nat) (p : Page) :
  Theme.getItemThrows (Theme.localStorage (theme p)) = false ->
  match Theme.themeToggle (theme p) with
  | None => True
  | Some b => Theme.toggleText b <> None /\ Theme.toggleIcon b <> None
  end ->
  match contactForm p with
  | None => True
  | Some fm => ContactForm.name fm <> None /\ ContactForm.email fm <> None /\
               ContactForm.message fm <> None
  end ->
  fst (Script.onDOMContentLoaded fullYear p) = Normal tt.
Proof.
  destruct p as [d [attr [its g w] btn] fm yr car cps ips menu ls]. cbn [theme contactForm
    Theme.localStorage Theme.getItemThrows Theme.themeToggle].
  intros -> Hbtn Hfm.
  unfold Script.onDOMContentLoaded, Script.initNavigation, Script.initSectionObserver,
    Script.initForm, Script.setYear, Script.initProjectCarousel, Script.initMobileMenu,
    Script.initScrollWatcher, Script.hookThemeToggle, Theme.init, Theme.getItem,
    Theme.getAttribute, Theme.setAttribute, Theme.updateThemeButton, Theme.setButton,
    zoom, bind, gets, modify, ret, throw.
  cbn.
  destruct (Theme.lookup Theme.KEY its) as [v|]; [destruct (truthy v)|];
    (destruct btn as [[pr [txt|] [icon|]]|]; cbn;
     try (cbn in Hbtn; destruct Hbtn; congruence);
     destruct (getSections d); cbn;
     (destruct fm as [[[n|] [e|] [m|] st]|]; cbn;
      try (cbn in Hfm; destruct Hfm as (? & ? & ?); congruence);
      destruct yr; cbn; destruct car; cbn; destruct menu; cbn; reflexivity)).
Qed.

(** script.js guards the lookup of a widget, not the lookups below it: a
    theme button without its text child makes [updateThemeButton] throw,
    and the load handler ends there. *)
Lemma load_missing_toggle_text :
  fst (Script.onDOMContentLoaded 2025 pageWithoutToggleText) = Throw TypeError /\
  listeners (snd (Script.onDOMContentLoaded 2025 pageWithoutToggleText)) = noListeners /\
  activeCount (doc (snd (Script.onDOMContentLoaded 2025 pageWithoutToggleText))) = 0%nat.
Proof.
  repeat split; reflexivity.
Qed.

(** C6, at the failing input: the page has no carousel container.  In the
    older copy [initProjectCarousel] throws, the load handler ends there,
    the theme toggle is never hooked up and no section is activated.  In
    script.js [initProjectCarousel] returns without effect, the load
    handler completes and the first section is active. *)
Theorem legacy_missing_carousel_is_fatal :
  Legacy.initProjectCarousel pageWithoutCarousel = (Throw TypeError, pageWithoutCarousel) /\
  fst (Legacy.onDOMContentLoaded 2025 pageWithoutCarousel) = Throw TypeError /\
  themeClickL (listeners (snd (Legacy.onDOMContentLoaded 2025 pageWithoutCarousel))) = false /\
  activeCount (doc (snd (Legacy.onDOMContentLoaded 2025 pageWithoutCarousel))) = 0%nat /\
  Script.initProjectCarousel pageWithoutCarousel = (Normal tt, pageWithoutCarousel) /\
  fst (Script.onDOMContentLoaded 2025 pageWithoutCarousel) = Normal tt /\
  themeClickL (listeners (snd (Script.onDOMContentLoaded 2025 pageWithoutCarousel))) = true /\
  activeCount (doc (snd (Script.onDOMContentLoaded 2025 pageWithoutCarousel))) = 1%nat.
Proof.
  repeat split; reflexivity.
Qed.

(** * Further properties *)

(** ** The carousel *)

Lemma nth_error_mapi {A B} (f : nat -> A -> B) (l : list A) i :
  nth_error (mapi f l) i = option_map (f i) (nth_error l i).
Proof. unfold mapi. apply nth_error_mapiFrom. Qed.

Lemma length_mapi {A B} (f : nat -> A -> B) (l : list A) :
  List.length (mapi f l) = List.length l.
Proof. unfold mapi. apply length_mapiFrom. Qed.

Lemma markActiveSlide_flag idx cs i c :
  nth_error (Carousel.markActiveSlide idx cs) i = Some c ->
  CarouselControls.isActiveSlide c = Carousel.isIndex i idx.
Proof.
  unfold Carousel.markActiveSlide. rewrite nth_error_mapi.
  destruct (nth_error cs i) as [c0|]; [|discriminate].
  intros H. injection H as <-. unfold CarouselControls.isActiveSlide.
  cbn [Carousel.cardClasses]. apply TokenFacts.contains_toggle.
Qed.

Lemma updateIndicators_flag idx inds i ind :
  nth_error (Carousel.updateIndicators idx inds) i = Some ind ->
  CarouselControls.isActiveIndicator ind = Carousel.isIndex i idx.
Proof.
  unfold Carousel.updateIndicators. rewrite nth_error_mapi.
  destruct (nth_error inds i) as [i0|]; [|discriminate].
  intros H. injection H as <-. apply TokenFacts.contains_toggle.
Qed.

Lemma inSync_marked sl cw cs inds idx sc :
  CarouselControls.inSync
    (Carousel.mkState sl cw (Carousel.markActiveSlide idx cs)
                      (Carousel.updateIndicators idx inds) idx sc).
Proof.
  split; cbn [Carousel.cards Carousel.indicators Carousel.currentIndex].
  - apply markActiveSlide_flag.
  - apply updateIndicators_flag.
Qed.

Lemma index_in_range {A} (l : list A) (idx : Z) :
  (0 <= idx < Z.of_nat (List.length l))%Z -> exists x, index l idx = Some x.
Proof.
  intros H. unfold index. destruct (Z.ltb_spec idx 0); [lia|].
  destruct (nth_error l (Z.to_nat idx)) as [x|] eqn:Hx.
  - exists x. reflexivity.
  - apply nth_error_None in Hx. lia.
Qed.

Lemma clamp_range n idx :
  (0 < n)%nat -> (0 <= CarouselControls.clamp n idx < Z.of_nat n)%Z.
Proof. unfold CarouselControls.clamp. lia. Qed.

Lemma scrollToIndex_nonempty idx s :
  Carousel.cards s <> [] ->
  Carousel.scrollToIndex idx s =
  let k := CarouselControls.clamp (List.length (Carousel.cards s)) idx in
  Carousel.mkState (Carousel.scrollLeft s) (Carousel.clientWidth s)
                   (Carousel.markActiveSlide k (Carousel.cards s))
                   (Carousel.updateIndicators k (Carousel.indicators s))
                   k (Some k).
Proof.
  intros Hne. unfold Carousel.scrollToIndex. fold (CarouselControls.clamp (List.length (Carousel.cards s)) idx).
  assert (Hlen : (0 < List.length (Carousel.cards s))%nat).
  { destruct (Carousel.cards s); [congruence | simpl; lia]. }
  destruct (index_in_range (Carousel.cards s) _ (clamp_range _ idx Hlen)) as [x Hx].
  rewrite Hx. reflexivity.
Qed.

Lemma scrollToIndex_empty idx s :
  Carousel.cards s = [] -> Carousel.scrollToIndex idx s = s.
Proof.
  intros He. unfold Carousel.scrollToIndex. rewrite He. cbn [List.length].
  unfold index. destruct (Z.max 0 (Z.min (Z.of_nat 0 - 1) idx) <? 0)%Z; [reflexivity|].
  destruct (Z.to_nat _); reflexivity.
Qed.

Lemma none_flagged {A} (p : A -> bool) (l : list A) :
  (forall i x, nth_error l i = Some x -> p x = false) -> filter p l = [].
Proof.
  induction l as [|a l IH]; intros H; cbn [filter]; [reflexivity|].
  rewrite (H 0%nat a eq_refl). apply IH.
  intros i x Hi. apply (H (S i) x Hi).
Qed.

(** A list whose flag is set exactly at position [k] has one flagged element. *)
Lemma one_flagged {A} (p : A -> bool) (l : list A) : forall k,
  (k < List.length l)%nat ->
  (forall i x, nth_error l i = Some x -> p x = Nat.eqb i k) ->
  List.length (filter p l) = 1%nat.
Proof.
  induction l as [|a l IH]; intros k Hk H; simpl in Hk; [lia|].
  cbn [filter]. rewrite (H 0%nat a eq_refl). destruct k as [|k]; cbn.
  - rewrite none_flagged; [reflexivity|].
    intros i x Hi. apply (H (S i) x Hi).
  - apply (IH k); [lia|].
    intros i x Hi. apply (H (S i) x Hi).
Qed.

(** X1. [scrollToIndex] on a carousel with cards: the requested index is
    clamped into the range of the cards, the clamped index becomes
    [currentIndex] and the card scrolled into view, exactly the card and the
    indicator at that index carry their active flag, and one card is
    active. *)
Theorem scrollToIndex_clamps (idx : Z) (s : Carousel.State) :
  Carousel.cards s <> [] ->
  let n := List.length (Carousel.cards s) in
  let s' := Carousel.scrollToIndex idx s in
  Carousel.currentIndex s' = Z.max 0 (Z.min (Z.of_nat n - 1) idx) /\
  (0 <= Carousel.currentIndex s' < Z.of_nat n)%Z /\
  Carousel.scrolledToCard s' = Some (Carousel.currentIndex s') /\
  CarouselControls.inSync s' /\
  List.length (filter CarouselControls.isActiveSlide (Carousel.cards s')) = 1%nat /\
  List.length (Carousel.cards s') = n /\
  List.length (Carousel.indicators s') = List.length (Carousel.indicators s).
Proof.
  intros Hne n s'. subst s'. rewrite scrollToIndex_nonempty by assumption.
  cbv zeta. fold n.
  assert (Hlen : (0 < n)%nat).
  { subst n. destruct (Carousel.cards s); [congruence | simpl; lia]. }
  pose proof (clamp_range n idx Hlen) as Hr.
  cbn [Carousel.currentIndex Carousel.scrolledToCard Carousel.cards Carousel.indicators].
  split; [reflexivity|]. split; [exact Hr|]. split; [reflexivity|].
  split; [apply inSync_marked|]. split; [|split].
  - apply (one_flagged _ _ (Z.to_nat (CarouselControls.clamp n idx))).
    + unfold Carousel.markActiveSlide. rewrite length_mapi. fold n. lia.
    + intros i c Hi. rewrite (markActiveSlide_flag _ _ _ _ Hi).
      unfold Carousel.isIndex.
      destruct (Z.eqb_spec (Z.of_nat i) (CarouselControls.clamp n idx));
        destruct (Nat.eqb_spec i (Z.to_nat (CarouselControls.clamp n idx)));
        try reflexivity; lia.
  - unfold Carousel.markActiveSlide. apply length_mapi.
  - unfold Carousel.updateIndicators. apply length_mapi.
Qed.

(** X1, on the sample carousel: asking for card 7 of 3 lands on card 2. *)
Lemma scrollToIndex_clamps_witness :
  Carousel.cards sampleCarousel <> [] /\
  Carousel.currentIndex (Carousel.scrollToIndex 7 sampleCarousel) = 2%Z.
Proof.
  assert (H : Carousel.cards sampleCarousel <> []) by discriminate.
  split; [exact H|].
  exact (proj1 (scrollToIndex_clamps 7 sampleCarousel H)).
Defined.

Lemma closestLoop_geometry (center : number) (f : nat -> Carousel.Card -> Carousel.Card)
      (l : list Carousel.Card) :
  (forall i c, Carousel.offsetLeft (f i c) = Carousel.offsetLeft c /\
               Carousel.offsetWidth (f i c) = Carousel.offsetWidth c) ->
  forall k m c0,
    closestLoop (fun p => Carousel.cardDistance center (snd p)) fst
                (mapiFrom (fun i x => (i, x)) k (mapiFrom f k l)) m c0
    = closestLoop (fun p => Carousel.cardDistance center (snd p)) fst
                  (mapiFrom (fun i x => (i, x)) k l) m c0.
Proof.
  intros Hf. induction l as [|a l IH]; intros k m c0; cbn [mapiFrom closestLoop].
  - reflexivity.
  - cbn [snd fst].
    assert (Hd : Carousel.cardDistance center (f k a) = Carousel.cardDistance center a).
    { unfold Carousel.cardDistance. destruct (Hf k a) as [-> ->]. reflexivity. }
    rewrite Hd, !IH. reflexivity.
Qed.

Lemma indexFromScroll_marked sl cw cs inds idx sc k inds' idx' sc' :
  Carousel.indexFromScroll
    (Carousel.mkState sl cw (Carousel.markActiveSlide k cs) inds idx sc)
  = Carousel.indexFromScroll (Carousel.mkState sl cw cs inds' idx' sc').
Proof.
  unfold Carousel.indexFromScroll, indexed, mapi, Carousel.markActiveSlide, mapi.
  cbn [Carousel.scrollLeft Carousel.clientWidth Carousel.cards].
  apply closestLoop_geometry. intros i c. split; reflexivity.
Qed.

Lemma indexFromScroll_range s :
  (Z.of_nat (Carousel.indexFromScroll s)
   <= Z.max 0 (Z.of_nat (List.length (Carousel.cards s)) - 1))%Z.
Proof.
  unfold Carousel.indexFromScroll.
  match goal with |- context [closestLoop ?d ?p ?l ?m ?c] =>
    destruct (closestLoop_In d p l m c) as [H | ([k c'] & Hin & H)]; rewrite H end.
  - lia.
  - cbn [fst]. apply In_nth_error in Hin. destruct Hin as [j Hj].
    rewrite nth_error_indexed in Hj.
    destruct (nth_error (Carousel.cards s) j) eqn:Hc; [|discriminate].
    injection Hj as <- _.
    assert (j < List.length (Carousel.cards s))%nat
      by (apply nth_error_Some; rewrite Hc; discriminate).
    lia.
Qed.

Lemma settled_same s :
  Z.of_nat (Carousel.indexFromScroll s) = Carousel.currentIndex s ->
  Carousel.onScrollSettled s = s.
Proof.
  intros H. unfold Carousel.onScrollSettled. rewrite H, Z.eqb_refl. reflexivity.
Qed.

Lemma settled_moved s :
  Z.of_nat (Carousel.indexFromScroll s) <> Carousel.currentIndex s ->
  Carousel.onScrollSettled s =
  let idx := Z.of_nat (Carousel.indexFromScroll s) in
  Carousel.mkState (Carousel.scrollLeft s) (Carousel.clientWidth s)
                   (Carousel.markActiveSlide idx (Carousel.cards s))
                   (Carousel.updateIndicators idx (Carousel.indicators s))
                   idx (Carousel.scrolledToCard s).
Proof.
  intros H. unfold Carousel.onScrollSettled.
  destruct (Z.eqb_spec (Z.of_nat (Carousel.indexFromScroll s)) (Carousel.currentIndex s));
    [contradiction | reflexivity].
Qed.

(** X2. When the carousel's scroll-settle timer fires on a carousel with
    cards, [currentIndex] becomes the index of a card that no card is
    nearer to the carousel center than, every card before it being strictly
    farther (or without a distance); the distance is
    [|offsetLeft + offsetWidth / 2 - (scrollLeft + clientWidth / 2)|] in
    binary64 arithmetic.  Cards and indicators that were in sync with
    [currentIndex] are in sync with the new one, so that card is the active
    one; no card is scrolled into view; and a second firing with the
    carousel where it is changes nothing. *)
Theorem settle_tracks_nearest_card (s : Carousel.State) :
  CarouselControls.inSync s ->
  Carousel.cards s <> [] ->
  let s' := Carousel.onScrollSettled s in
  let cdist := fun card : Carousel.Card =>
    PrimFloat.abs (Carousel.offsetLeft card + Carousel.offsetWidth card / 2
                   - (Carousel.scrollLeft s + Carousel.clientWidth s / 2))%float in
  (exists k card card',
      Carousel.currentIndex s' = Z.of_nat k /\
      k = Carousel.indexFromScroll s /\
      nth_error (Carousel.cards s) k = Some card /\
      (forall j cj, nth_error (Carousel.cards s) j = Some cj ->
                    PrimFloat.ltb (cdist cj) (cdist card) = false) /\
      (forall j cj, (j < k)%nat -> nth_error (Carousel.cards s) j = Some cj ->
                    PrimFloat.ltb (cdist card) (cdist cj) = true \/
                    PrimFloat.is_nan (cdist cj) = true) /\
      nth_error (Carousel.cards s') k = Some card' /\
      CarouselControls.isActiveSlide card' = true /\
      Carousel.offsetLeft card' = Carousel.offsetLeft card /\
      Carousel.offsetWidth card' = Carousel.offsetWidth card) /\
  CarouselControls.inSync s' /\
  Carousel.scrolledToCard s' = Carousel.scrolledToCard s /\
  Carousel.onScrollSettled s' = s'.
Proof.
  intros Hs Hne s' cdist. subst s'.
  destruct (indexFromScroll_spec s Hne) as (card & Hk & Hmin & Hfirst).
  change (forall j cj, nth_error (Carousel.cards s) j = Some cj ->
                       PrimFloat.ltb (cdist cj) (cdist card) = false) in Hmin.
  change (forall j cj, (j < Carousel.indexFromScroll s)%nat ->
                       nth_error (Carousel.cards s) j = Some cj ->
                       PrimFloat.ltb (cdist card) (cdist cj) = true \/
                       PrimFloat.is_nan (cdist cj) = true) in Hfirst.
  destruct (Z.eq_dec (Z.of_nat (Carousel.indexFromScroll s)) (Carousel.currentIndex s))
    as [Heq|Hneq].
  - rewrite (settled_same s Heq). split; [|split; [assumption|split; [reflexivity|]]].
    + exists (Carousel.indexFromScroll s), card, card.
      repeat split; try assumption.
      * symmetry. assumption.
      * rewrite (proj1 Hs _ _ Hk). unfold Carousel.isIndex. rewrite Heq. apply Z.eqb_refl.
    + apply settled_same. assumption.
  - rewrite (settled_moved s Hneq). cbv zeta.
    cbn [Carousel.currentIndex Carousel.scrolledToCard Carousel.cards].
    split; [|split; [apply inSync_marked|split; [reflexivity|]]].
    + assert (Hk' : exists card',
                 nth_error (Carousel.markActiveSlide
                              (Z.of_nat (Carousel.indexFromScroll s)) (Carousel.cards s))
                           (Carousel.indexFromScroll s) = Some card' /\
                 Carousel.offsetLeft card' = Carousel.offsetLeft card /\
                 Carousel.offsetWidth card' = Carousel.offsetWidth card).
      { unfold Carousel.markActiveSlide. rewrite nth_error_mapi, Hk. cbn [option_map].
        eexists. repeat split; reflexivity. }
      destruct Hk' as (card' & Hc' & Hl & Hw).
      exists (Carousel.indexFromScroll s), card, card'.
      repeat split; try assumption.
      rewrite (markActiveSlide_flag _ _ _ _ Hc'). unfold Carousel.isIndex. apply Z.eqb_refl.
    + apply settled_same. cbn [Carousel.currentIndex]. f_equal.
      rewrite (indexFromScroll_marked _ _ _ _ _ _ _
                 (Carousel.indicators s) (Carousel.currentIndex s) (Carousel.scrolledToCard s)).
      destruct s. reflexivity.
Qed.

(** X2, on the sample carousel dragged to offset 500: card 1 is nearest. *)
Lemma settle_tracks_nearest_card_witness :
  CarouselControls.inSync (Carousel.initialState sampleCarousel) /\
  Carousel.currentIndex
    (Carousel.onScrollSettled
       (CarouselControls.scrolledBy 500%float (Carousel.initialState sampleCarousel))) = 1%Z /\
  CarouselControls.inSync
    (Carousel.onScrollSettled
       (CarouselControls.scrolledBy 500%float (Carousel.initialState sampleCarousel))).
Proof.
  assert (H : CarouselControls.inSync
                (CarouselControls.scrolledBy 500%float (Carousel.initialState sampleCarousel))).
  { apply inSync_marked. }
  assert (Hne : Carousel.cards
                  (CarouselControls.scrolledBy 500%float (Carousel.initialState sampleCarousel))
                <> []) by discriminate.
  split; [apply inSync_marked|]. split; [reflexivity|].
  exact (proj1 (proj2 (settle_tracks_nearest_card _ H Hne))).
Defined.

(** What every carousel state after initialization satisfies. *)
Lemma carousel_invariant s0 s :
  CarouselControls.Reachable s0 s ->
  CarouselControls.inSync s /\
  (0 <= Carousel.currentIndex s
   <= Z.max 0 (Z.of_nat (List.length (Carousel.cards s)) - 1))%Z /\
  List.length (Carousel.cards s) = List.length (Carousel.cards s0) /\
  List.length (Carousel.indicators s) = List.length (Carousel.indicators s0).
Proof.
  assert (Hscroll : forall idx s,
             CarouselControls.inSync s /\
             (0 <= Carousel.currentIndex s
              <= Z.max 0 (Z.of_nat (List.length (Carousel.cards s)) - 1))%Z ->
             CarouselControls.inSync (Carousel.scrollToIndex idx s) /\
             (0 <= Carousel.currentIndex (Carousel.scrollToIndex idx s)
              <= Z.max 0 (Z.of_nat (List.length (Carousel.cards (Carousel.scrollToIndex idx s))) - 1))%Z /\
             List.length (Carousel.cards (Carousel.scrollToIndex idx s))
             = List.length (Carousel.cards s) /\
             List.length (Carousel.indicators (Carousel.scrollToIndex idx s))
             = List.length (Carousel.indicators s)).
  { intros idx t [Hsync Hr]. destruct (Carousel.cards t) as [|c cs] eqn:Hc.
    - rewrite scrollToIndex_empty by assumption. rewrite Hc. auto.
    - assert (Hne : Carousel.cards t <> []) by (rewrite Hc; discriminate).
      destruct (scrollToIndex_clamps idx t Hne) as (_ & Hrange & _ & Hs & _ & Hl & Hi).
      rewrite Hl, Hi, Hc in *. repeat split; try apply Hs; lia. }
  induction 1 as [|s ev Hr IH].
  - split; [apply inSync_marked|].
    cbn [Carousel.initialState Carousel.currentIndex Carousel.cards Carousel.indicators].
    unfold Carousel.markActiveSlide, Carousel.updateIndicators. rewrite !length_mapi.
    repeat split; lia.
  - destruct IH as (Hsync & Hrange & Hl & Hi).
    destruct ev as [| |i|x|]; cbn [CarouselControls.handle].
    + unfold CarouselControls.onPrevClick.
      destruct (Hscroll (Carousel.currentIndex s - 1)%Z s (conj Hsync Hrange)) as (A & B & C & D).
      rewrite C, D. rewrite C in B. auto.
    + unfold CarouselControls.onNextClick.
      destruct (Hscroll (Carousel.currentIndex s + 1)%Z s (conj Hsync Hrange)) as (A & B & C & D).
      rewrite C, D. rewrite C in B. auto.
    + unfold CarouselControls.onIndicatorClick.
      destruct (nth_error (Carousel.indicators s) i); [|auto].
      destruct (Hscroll (Z.of_nat i) s (conj Hsync Hrange)) as (A & B & C & D).
      rewrite C, D. rewrite C in B. auto.
    + split; [exact Hsync|]. cbn. auto.
    + destruct (Z.eq_dec (Z.of_nat (Carousel.indexFromScroll s)) (Carousel.currentIndex s))
        as [Heq|Hne].
      * rewrite (settled_same s Heq). auto.
      * rewrite (settled_moved s Hne). cbv zeta.
        split; [apply inSync_marked|].
        cbn [Carousel.currentIndex Carousel.cards Carousel.indicators].
        unfold Carousel.markActiveSlide, Carousel.updateIndicators. rewrite !length_mapi.
        pose proof (indexFromScroll_range s). repeat split; try assumption; lia.
Qed.

(** X3. In every state the carousel reaches after initialization (previous,
    next and indicator clicks, scrolling, scroll-settle resolutions) the
    cards and the indicators carry their active flag exactly at
    [currentIndex], [currentIndex] is the index of a card, the numbers of
    cards and indicators are unchanged, and, when the carousel has cards,
    exactly one card is active. *)
Theorem carousel_single_active_card (s0 s : Carousel.State) :
  CarouselControls.Reachable s0 s ->
  CarouselControls.inSync s /\
  (0 <= Carousel.currentIndex s
   <= Z.max 0 (Z.of_nat (List.length (Carousel.cards s0)) - 1))%Z /\
  List.length (Carousel.cards s) = List.length (Carousel.cards s0) /\
  List.length (Carousel.indicators s) = List.length (Carousel.indicators s0) /\
  (Carousel.cards s0 <> [] ->
   List.length (filter CarouselControls.isActiveSlide (Carousel.cards s)) = 1%nat).
Proof.
  intros Hr. destruct (carousel_invariant s0 s Hr) as (Hsync & Hrange & Hl & Hi).
  rewrite Hl in Hrange. repeat split; try apply Hsync; try assumption; try lia.
  intros Hne.
  assert (Hpos : (0 < List.length (Carousel.cards s0))%nat).
  { destruct (Carousel.cards s0); [congruence | simpl; lia]. }
  apply (one_flagged _ _ (Z.to_nat (Carousel.currentIndex s))).
  - lia.
  - intros i c Hic. rewrite (proj1 Hsync i c Hic). unfold Carousel.isIndex.
    destruct (Z.eqb_spec (Z.of_nat i) (Carousel.currentIndex s));
      destruct (Nat.eqb_spec i (Z.to_nat (Carousel.currentIndex s)));
      try reflexivity; lia.
Qed.

(** X3, on the sample carousel after a click on next and a drag. *)
Lemma carousel_single_active_card_witness :
  CarouselControls.Reachable sampleCarousel
    (CarouselControls.handle (CarouselControls.ScrollMoved 1100%float)
       (CarouselControls.handle CarouselControls.NextClick
          (Carousel.initialState sampleCarousel))) /\
  Carousel.cards sampleCarousel <> [] /\
  List.length
    (filter CarouselControls.isActiveSlide
       (Carousel.cards
          (CarouselControls.handle (CarouselControls.ScrollMoved 1100%float)
             (CarouselControls.handle CarouselControls.NextClick
                (Carousel.initialState sampleCarousel))))) = 1%nat.
Proof.
  assert (Hr : CarouselControls.Reachable sampleCarousel
                 (CarouselControls.handle (CarouselControls.ScrollMoved 1100%float)
                    (CarouselControls.handle CarouselControls.NextClick
                       (Carousel.initialState sampleCarousel)))).
  { do 2 apply CarouselControls.Reachable_step. apply CarouselControls.Reachable_init. }
  assert (Hne : Carousel.cards sampleCarousel <> []) by discriminate.
  split; [exact Hr|]. split; [exact Hne|].
  exact (proj2 (proj2 (proj2 (proj2 (carousel_single_active_card _ _ Hr)))) Hne).
Defined.

(** ** The mobile menu *)

Lemma isOpen_closeMenu s : MobileMenu.isOpen (MobileMenu.closeMenu s) = false.
Proof.
  unfold MobileMenu.isOpen, MobileMenu.closeMenu. cbn [MobileMenu.bodyClasses].
  rewrite TokenFacts.contains_remove, String.eqb_refl. apply andb_false_r.
Qed.

Lemma isOpen_openMenu s : MobileMenu.isOpen (MobileMenu.openMenu s) = true.
Proof.
  unfold MobileMenu.isOpen, MobileMenu.openMenu. cbn [MobileMenu.bodyClasses].
  rewrite TokenFacts.contains_add, String.eqb_refl. apply orb_true_r.
Qed.

Lemma isOpen_handle ev s :
  MobileMenu.isOpen (MobileMenu.handle ev s) =
  match ev with
  | MobileMenu.Click MobileMenu.OnToggle => negb (MobileMenu.isOpen s)
  | MobileMenu.Click MobileMenu.OnNavLink => false
  | MobileMenu.Click MobileMenu.Elsewhere => false
  | MobileMenu.Click MobileMenu.InsideNav => MobileMenu.isOpen s
  | MobileMenu.Key key => MobileMenu.isOpen s && negb (String.eqb key "Escape")
  end.
Proof.
  destruct ev as [[| | |]|key]; cbn [MobileMenu.handle MobileMenu.onClick MobileMenu.onDocumentClick].
  - unfold MobileMenu.onToggleClick. destruct (MobileMenu.isOpen s) eqn:Ho; cbn [negb].
    + apply isOpen_closeMenu.
    + apply isOpen_openMenu.
  - apply isOpen_closeMenu.
  - reflexivity.
  - destruct (MobileMenu.isOpen s) eqn:Ho; [apply isOpen_closeMenu | assumption].
  - unfold MobileMenu.onKeydown.
    destruct (String.eqb key "Escape"), (MobileMenu.isOpen s) eqn:Ho; cbn [andb negb];
      try assumption; apply isOpen_closeMenu.
Qed.

(** X4. From a page loaded with the menu closed, in every state the menu
    reaches, [aria-expanded] of the toggle says whether the body carries
    [menu-open], and the nav is visible while it does.  A click on the
    toggle flips the menu (the document listener it also reaches does not
    undo it); a click on a nav link or outside the nav, and the Escape
    key, leave it closed; other keys and clicks inside the nav leave it as
    it is. *)
Theorem menu_state_consistent (s0 s : MobileMenu.State) :
  MobileMenu.isOpen s0 = false ->
  MobileMenu.Reachable s0 s ->
  MobileMenu.ariaExpanded s = Some (String_of_bool (MobileMenu.isOpen s)) /\
  (MobileMenu.isOpen s = true -> MobileMenu.navVisibility s = "visible") /\
  MobileMenu.isOpen (MobileMenu.onClick MobileMenu.OnToggle s) = negb (MobileMenu.isOpen s) /\
  MobileMenu.isOpen (MobileMenu.onClick MobileMenu.OnNavLink s) = false /\
  MobileMenu.isOpen (MobileMenu.onClick MobileMenu.Elsewhere s) = false /\
  MobileMenu.isOpen (MobileMenu.onKeydown "Escape" s) = false /\
  MobileMenu.onClick MobileMenu.InsideNav s = s /\
  (forall key, key <> "Escape" -> MobileMenu.onKeydown key s = s).
Proof.
  intros H0 Hr.
  assert (Hinv : MobileMenu.ariaExpanded s = Some (String_of_bool (MobileMenu.isOpen s)) /\
                 (MobileMenu.isOpen s = true -> MobileMenu.navVisibility s = "visible")).
  { induction Hr as [|s ev Hr [IH1 IH2]].
    - assert (Hi : MobileMenu.isOpen (MobileMenu.init s0) = false) by exact H0.
      rewrite Hi. split; [reflexivity | discriminate].
    - destruct ev as [[| | |]|key];
        cbn [MobileMenu.handle MobileMenu.onClick MobileMenu.onDocumentClick].
      + unfold MobileMenu.onToggleClick. destruct (MobileMenu.isOpen s) eqn:Ho.
        * rewrite isOpen_closeMenu. split; [reflexivity | discriminate].
        * rewrite isOpen_openMenu. split; reflexivity.
      + rewrite isOpen_closeMenu. split; [reflexivity | discriminate].
      + split; assumption.
      + destruct (MobileMenu.isOpen s) eqn:Ho.
        * rewrite isOpen_closeMenu. split; [reflexivity | discriminate].
        * rewrite Ho. split; [assumption | discriminate].
      + unfold MobileMenu.onKeydown.
        destruct (String.eqb key "Escape"), (MobileMenu.isOpen s) eqn:Ho; cbn [andb];
          try (rewrite Ho; split; assumption).
        rewrite isOpen_closeMenu. split; [reflexivity | discriminate]. }
  destruct Hinv as [Ha Hv]. split; [exact Ha|]. split; [exact Hv|].
  split; [apply (isOpen_handle (MobileMenu.Click MobileMenu.OnToggle))|].
  split; [apply (isOpen_handle (MobileMenu.Click MobileMenu.OnNavLink))|].
  split; [apply (isOpen_handle (MobileMenu.Click MobileMenu.Elsewhere))|].
  split.
  { change (MobileMenu.isOpen (MobileMenu.handle (MobileMenu.Key "Escape") s) = false).
    rewrite isOpen_handle. apply andb_false_r. }
  split; [reflexivity|].
  intros key Hk. unfold MobileMenu.onKeydown.
  destruct (String.eqb_spec key "Escape"); [contradiction | reflexivity].
Qed.

(** X4, on the sample menu after a click on the toggle. *)
Lemma menu_state_consistent_witness :
  MobileMenu.isOpen sampleMenu = false /\
  MobileMenu.Reachable sampleMenu
    (MobileMenu.handle (MobileMenu.Click MobileMenu.OnToggle) (MobileMenu.init sampleMenu)) /\
  MobileMenu.ariaExpanded
    (MobileMenu.handle (MobileMenu.Click MobileMenu.OnToggle) (MobileMenu.init sampleMenu))
  = Some "true".
Proof.
  assert (H0 : MobileMenu.isOpen sampleMenu = false) by reflexivity.
  assert (Hr : MobileMenu.Reachable sampleMenu
                 (MobileMenu.handle (MobileMenu.Click MobileMenu.OnToggle)
                                    (MobileMenu.init sampleMenu))).
  { apply MobileMenu.Reachable_step. apply MobileMenu.Reachable_init. }
  split; [exact H0|]. split; [exact Hr|].
  exact (proj1 (menu_state_consistent _ _ H0 Hr)).
Defined.

(** ** The observer callback and the navigation functions *)

Lemma delays_forEachMatch sel (f : nat -> Element -> Element) (els : list Element) :
  (forall i e, transitionDelay (f i e) = transitionDelay e) ->
  forall i, map transitionDelay (forEachMatchFrom sel f i els) = map transitionDelay els.
Proof.
  intros Hf. induction els as [|e r IH]; intros i; cbn [forEachMatchFrom map].
  - reflexivity.
  - destruct (matches sel e); cbn [map]; rewrite IH; [rewrite Hf|]; reflexivity.
Qed.

Lemma observerEntry_frame d entry :
  map ariaHidden (sections (observerEntry d entry)) = map ariaHidden (sections d) /\
  map delaysOf (sections (observerEntry d entry)) = map delaysOf (sections d) /\
  otherIds (observerEntry d entry) = otherIds d /\
  scrolledTo (observerEntry d entry) = scrolledTo d /\
  activeElement (observerEntry d entry) = activeElement d.
Proof.
  rewrite observerEntry_sections. split; [|split].
  - apply map_updateAt. intros s.
    destruct (Qlt_bool (1 # 2) (intersectionRatio entry)); reflexivity.
  - apply map_updateAt. intros s. unfold delaysOf.
    destruct (Qlt_bool (1 # 2) (intersectionRatio entry)); cbn [descendants]; [|reflexivity].
    apply delays_forEachMatch. reflexivity.
  - unfold observerEntry.
    destruct (Qlt_bool (1 # 2) (intersectionRatio entry)); repeat split; reflexivity.
Qed.

(** X5. An observer callback never writes [aria-hidden] and never writes a
    transition delay, whatever it reports, and leaves the other ids, the
    scroll target and the focus alone: a section it activates keeps the
    [aria-hidden] it had.  An entry at ratio 0.5 or less leaves the nav
    links as they were, so a link can stay current for a section that is
    no longer active. *)
Theorem observer_callback_frame (entries : list IntersectionObserverEntry) (d : Doc) :
  map ariaHidden (sections (observerCallback entries d)) = map ariaHidden (sections d) /\
  map delaysOf (sections (observerCallback entries d)) = map delaysOf (sections d) /\
  otherIds (observerCallback entries d) = otherIds d /\
  scrolledTo (observerCallback entries d) = scrolledTo d /\
  activeElement (observerCallback entries d) = activeElement d /\
  (forall entry, Qlt_bool (1 # 2) (intersectionRatio entry) = false ->
                 navLinks (observerEntry d entry) = navLinks d).
Proof.
  assert (H : map ariaHidden (sections (observerCallback entries d)) = map ariaHidden (sections d) /\
              map delaysOf (sections (observerCallback entries d)) = map delaysOf (sections d) /\
              otherIds (observerCallback entries d) = otherIds d /\
              scrolledTo (observerCallback entries d) = scrolledTo d /\
              activeElement (observerCallback entries d) = activeElement d).
  { unfold observerCallback. revert d.
    induction entries as [|e r IH]; intros d; cbn [fold_left].
    - repeat split; reflexivity.
    - destruct (IH (observerEntry d e)) as (A & B & C & D & E).
      destruct (observerEntry_frame d e) as (A' & B' & C' & D' & E').
      rewrite A, B, C, D, E. auto. }
  destruct H as (A & B & C & D & E). repeat split; try assumption.
  intros entry Hr. unfold observerEntry. rewrite Hr. reflexivity.
Qed.

Lemma navLinks_tryFocus h id0 d : navLinks (tryFocus h id0 d) = navLinks d.
Proof. unfold tryFocus. destruct (focusOutcome h id0); reflexivity. Qed.

Lemma scrolledTo_tryFocus h id0 d : scrolledTo (tryFocus h id0 d) = scrolledTo d.
Proof. unfold tryFocus. destruct (focusOutcome h id0); reflexivity. Qed.

(** X6. What [navigateToSection] does to the sections, the nav links and the
    scroll target does not depend on the host's answer to [focus()]: a
    focus that throws is swallowed and the section is activated all the
    same.  When the id is found the section is scrolled to, and it holds
    the focus exactly when the host moved it. *)
Theorem navigation_survives_focus_failure (h h' : Host) (id0 : string) (d : Doc) :
  sections (navigateToSection h id0 d) = sections (navigateToSection h' id0 d) /\
  navLinks (navigateToSection h id0 d) = navLinks (navigateToSection h' id0 d) /\
  scrolledTo (navigateToSection h id0 d) = scrolledTo (navigateToSection h' id0 d) /\
  (getElementById id0 d = true ->
   sections (navigateToSection h id0 d) = sections (setActiveSection id0 d) /\
   navLinks (navigateToSection h id0 d) = navLinks (setActiveSection id0 d) /\
   scrolledTo (navigateToSection h id0 d) = Some id0 /\
   activeElement (navigateToSection h id0 d)
   = match focusOutcome h id0 with
     | FocusMoves => Some id0
     | _ => activeElement d
     end).
Proof.
  assert (Hfound : forall k, getElementById id0 d = true ->
            sections (navigateToSection k id0 d) = sections (setActiveSection id0 d) /\
            navLinks (navigateToSection k id0 d) = navLinks (setActiveSection id0 d) /\
            scrolledTo (navigateToSection k id0 d) = Some id0 /\
            activeElement (navigateToSection k id0 d)
            = match focusOutcome k id0 with
              | FocusMoves => Some id0
              | _ => activeElement d
              end).
  { intros k Hf. unfold navigateToSection. rewrite Hf. cbn [negb].
    rewrite !setActiveSection_unfold.
    cbn [sections navLinks scrolledTo activeElement].
    rewrite sections_tryFocus, navLinks_tryFocus, scrolledTo_tryFocus.
    repeat split. unfold tryFocus. destruct (focusOutcome k id0); reflexivity. }
  destruct (getElementById id0 d) eqn:Hf.
  - destruct (Hfound h eq_refl) as (A & B & C & D).
    destruct (Hfound h' eq_refl) as (A' & B' & C' & _).
    rewrite A, B, C, A', B', C'. repeat split; try reflexivity; assumption.
  - unfold navigateToSection. rewrite Hf. repeat split; try reflexivity; discriminate.
Qed.

(** X6, on the sample document with a host whose [focus()] throws. *)
Lemma navigation_survives_focus_failure_witness :
  getElementById "about" sampleDoc = true /\
  scrolledTo (navigateToSection {| focusOutcome := fun _ => FocusThrows |} "about" sampleDoc)
  = Some "about".
Proof.
  split; [reflexivity|].
  exact (proj1 (proj2 (proj2
    (proj2 (proj2 (proj2
       (navigation_survives_focus_failure
          {| focusOutcome := fun _ => FocusThrows |} sampleHost "about" sampleDoc)))
       eq_refl)))).
Defined.

(** X7. The older copy's [navigateToSection] never touches the sections or
    the nav links: it only scrolls and focuses, and activation is left to
    the observer.  It throws exactly when the element exists and the host
    throws on [focus()]; the scroll request has been issued by then. *)
Theorem legacy_navigation_never_activates (h : Host) (id0 : string) (d : Doc) :
  sections (snd (Legacy.navigateToSection h id0 d)) = sections d /\
  navLinks (snd (Legacy.navigateToSection h id0 d)) = navLinks d /\
  (completes (fst (Legacy.navigateToSection h id0 d)) = false <->
   getElementById id0 d = true /\ focusOutcome h id0 = FocusThrows) /\
  scrolledTo (snd (Legacy.navigateToSection h id0 d))
  = if getElementById id0 d then Some id0 else scrolledTo d.
Proof.
  unfold Legacy.navigateToSection, bind, gets, modify, throw, ret.
  destruct (getElementById id0 d) eqn:Hf; cbn [negb fst snd].
  - unfold tryFocus. destruct (focusOutcome h id0) eqn:Ho; cbn; rewrite ?Ho; cbn;
      repeat split; try reflexivity; try discriminate;
      intros [_ H]; discriminate.
  - cbn. repeat split; try reflexivity; try discriminate. intros [H _]. discriminate.
Qed.

Lemma getActiveIndex_none d :
  activeCount d = 0%nat -> getActiveIndex d = (-1)%Z.
Proof.
  unfold activeCount, getActiveIndex, getSections, findIndex. intros H.
  pose proof (findIndexFrom_find isActiveSection (sections d) 0%Z) as Hf.
  destruct (find isActiveSection (sections d)) as [x|] eqn:Hx; [|assumption].
  apply find_some in Hx. destruct Hx as [Hin Hact].
  assert (Hin' : In x (filter isActiveSection (sections d)))
    by (apply filter_In; split; assumption).
  destruct (filter isActiveSection (sections d)); [contradiction | discriminate].
Qed.

(** X8. When no section is active (an observer callback can leave the page
    so), ArrowDown or PageDown activates the first section (the sections
    and nav links are those [setActiveSection] leaves for its id, it is the
    scroll target, it is active and it is the only active section), and
    ArrowUp or PageUp does nothing, on a document whose sections carry
    pairwise distinct, non-empty ids. *)
Theorem keyboard_from_no_active_section (h : Host) (d : Doc) :
  sections d <> [] ->
  NoDup (map id (sections d)) ->
  Forall (fun s => id s <> "") (sections d) ->
  activeCount d = 0%nat ->
  (forall key, key = "ArrowDown" \/ key = "PageDown" ->
     exists first,
       nth_error (sections d) 0 = Some first /\
       sections (onKeydown h key d) = sections (setActiveSection (id first) d) /\
       navLinks (onKeydown h key d) = navLinks (setActiveSection (id first) d) /\
       scrolledTo (onKeydown h key d) = Some (id first) /\
       onlyActive 0 (onKeydown h key d) /\
       activeCount (onKeydown h key d) = 1%nat) /\
  (forall key, key = "ArrowUp" \/ key = "PageUp" -> onKeydown h key d = d).
Proof.
  intros Hne Hnd Hids Hzero. pose proof (getActiveIndex_none d Hzero) as Hidx.
  rewrite Forall_forall in Hids. split.
  - intros key Hkey.
    assert (Hk : onKeydown h key d = goToNextSection h d)
      by (destruct Hkey as [-> | ->]; reflexivity).
    rewrite Hk. unfold goToNextSection, getSections. rewrite Hidx.
    destruct (sections d) as [|first rest] eqn:Hd; [congruence|].
    destruct (Z.ltb_spec (-1) (Z.of_nat (List.length (first :: rest)) - 1));
      [|simpl List.length in *; lia].
    change (index (first :: rest) (-1 + 1)) with (Some first).
    exists first. split; [reflexivity|].
    apply (navigate_effect h d 0 first).
    + rewrite Hd. assumption.
    + rewrite Hd. reflexivity.
    + apply Hids. left. reflexivity.
  - intros key Hkey.
    assert (Hk : onKeydown h key d = goToPrevSection h d)
      by (destruct Hkey as [-> | ->]; reflexivity).
    rewrite Hk. unfold goToPrevSection. rewrite Hidx. reflexivity.
Qed.

(** X8, on the sample document after the observer has deactivated the
    first section. *)
Lemma keyboard_from_no_active_section_witness :
  activeCount (observerCallback [mkEntry 0 (3 # 10)] (bootstrap sampleDoc)) = 0%nat /\
  onlyActive 0
    (onKeydown sampleHost "ArrowDown"
       (observerCallback [mkEntry 0 (3 # 10)] (bootstrap sampleDoc))).
Proof.
  assert (H1 : sections (observerCallback [mkEntry 0 (3 # 10)] (bootstrap sampleDoc)) <> [])
    by discriminate.
  assert (H2 : NoDup (map id (sections (observerCallback [mkEntry 0 (3 # 10)]
                                           (bootstrap sampleDoc))))).
  { simpl. repeat constructor; simpl; intuition discriminate. }
  assert (H3 : Forall (fun s => id s <> "")
                 (sections (observerCallback [mkEntry 0 (3 # 10)] (bootstrap sampleDoc)))).
  { simpl. repeat constructor; simpl; discriminate. }
  assert (H4 : activeCount (observerCallback [mkEntry 0 (3 # 10)] (bootstrap sampleDoc)) = 0%nat)
    by reflexivity.
  split; [exact H4|].
  destruct (proj1 (keyboard_from_no_active_section sampleHost _ H1 H2 H3 H4)
                  "ArrowDown" (or_introl eq_refl)) as (first & _ & _ & _ & _ & Ho & _).
  exact Ho.
Defined.

(** ** [setActiveSection]: what it leaves alone *)

Lemma nth_error_forEachMatch sel (f : nat -> Element -> Element) (els : list Element) :
  forall i j e,
    nth_error els j = Some e ->
    exists n, nth_error (forEachMatchFrom sel f i els) j
              = Some (if matches sel e then f n e else e).
Proof.
  induction els as [|a r IH]; intros i [|j] e H; simpl in H; try discriminate.
  - injection H as ->. cbn [forEachMatchFrom].
    destruct (matches sel e) eqn:Hm; exists i; reflexivity.
  - cbn [forEachMatchFrom]. destruct (matches sel a); cbn [nth_error]; eapply IH; eassumption.
Qed.

Lemma length_forEachMatch sel (f : nat -> Element -> Element) (els : list Element) :
  forall i, List.length (forEachMatchFrom sel f i els) = List.length els.
Proof.
  induction els as [|a r IH]; intros i; cbn [forEachMatchFrom]; [reflexivity|].
  destruct (matches sel a); cbn [List.length]; rewrite IH; reflexivity.
Qed.

(** X9. [setActiveSection] keeps the number, order and ids of the sections,
    the hrefs of the nav links, the other ids, the scroll target and the
    focus.  Below every section it keeps the number of elements; an
    element without an animation-role class is left exactly as it was, and
    on every element no class other than [is-visible] is added or
    removed. *)
Theorem setActiveSection_frame (id0 : string) (d : Doc) :
  let d' := setActiveSection id0 d in
  map id (sections d') = map id (sections d) /\
  map href (navLinks d') = map href (navLinks d) /\
  otherIds d' = otherIds d /\ scrolledTo d' = scrolledTo d /\
  activeElement d' = activeElement d /\
  (forall k s s', nth_error (sections d) k = Some s -> nth_error (sections d') k = Some s' ->
     List.length (descendants s') = List.length (descendants s) /\
     forall j e, nth_error (descendants s) j = Some e ->
       exists e', nth_error (descendants s') j = Some e' /\
         (matches REVEAL_TARGETS e = false -> e' = e) /\
         (forall c, c <> "is-visible" ->
            DOMTokenList.contains c (classList e') = DOMTokenList.contains c (classList e))).
Proof.
  intros d'. subst d'. split; [apply ids_setActiveSection|].
  rewrite setActiveSection_unfold. cbn [sections navLinks otherIds scrolledTo activeElement].
  split.
  { rewrite map_map. apply map_ext. intros l. unfold updateNavCurrent_link.
    destruct (option_map _ _) as [s0|]; [destruct (String.eqb _ _)|]; reflexivity. }
  repeat (split; [reflexivity|]).
  intros k s s' Hs Hs'. rewrite nth_error_map, Hs in Hs'. injection Hs' as <-.
  rewrite descendants_body. split.
  - destruct (String.eqb (id s) id0); apply length_forEachMatch.
  - intros j e He.
    assert (Hother : forall c cl, c <> "is-visible" ->
              DOMTokenList.contains c (DOMTokenList.add "is-visible" cl) = DOMTokenList.contains c cl /\
              DOMTokenList.contains c
                (DOMTokenList.remove "is-visible" (DOMTokenList.add "is-visible" cl))
              = DOMTokenList.contains c cl).
    { intros c cl Hc. rewrite TokenFacts.contains_remove, !TokenFacts.contains_add.
      destruct (String.eqb_spec c "is-visible"); [contradiction|].
      destruct (String.eqb_spec "is-visible" c); [congruence|].
      rewrite orb_false_r, andb_true_r. split; reflexivity. }
    destruct (String.eqb (id s) id0); unfold forEachMatch.
    + destruct (nth_error_forEachMatch REVEAL_TARGETS revealTarget _ 0 j e He) as [n Hn].
      eexists. split; [exact Hn|]. split.
      * intros Hm. rewrite Hm. reflexivity.
      * intros c Hc. destruct (matches REVEAL_TARGETS e); [|reflexivity].
        cbn [revealTarget classList]. apply (Hother c _ Hc).
    + destruct (nth_error_forEachMatch REVEAL_TARGETS revealThenHide _ 0 j e He) as [n Hn].
      eexists. split; [exact Hn|]. split.
      * intros Hm. rewrite Hm. reflexivity.
      * intros c Hc. destruct (matches REVEAL_TARGETS e); [|reflexivity].
        cbn [revealThenHide hideTarget revealTarget classList]. apply (Hother c _ Hc).
Qed.

(** ** The theme across page loads *)

Lemma init_state (s : Theme.State) :
  Theme.getItemThrows (Theme.localStorage s) = false ->
  Theme.dataTheme (snd (Theme.init s))
  = match Theme.persisted s with
    | Some v => if truthy v then Some v else Theme.dataTheme s
    | None => Theme.dataTheme s
    end /\
  Theme.localStorage (snd (Theme.init s)) = Theme.localStorage s.
Proof.
  destruct s as [attr [its g w] btn]. cbn [Theme.localStorage Theme.getItemThrows].
  intros ->. unfold Theme.persisted. cbn [Theme.localStorage Theme.items].
  unfold Theme.init, Theme.getItem, bind. cbn [Theme.localStorage Theme.getItemThrows Theme.items].
  destruct (Theme.lookup Theme.KEY its) as [v|]; [destruct (truthy v)|];
    destruct btn as [[p [txt|] [icon|]]|]; cbn; split; reflexivity.
Qed.

(** X10. A preference written by a toggle is read back at the next page
    load: when the write of [toggle] is accepted and a later [init] can
    read the same storage, [init] sets [data-theme] to the theme the toggle
    displayed, whatever the attribute of the fresh page was. *)
Theorem toggle_then_init_restores (s fresh : Theme.State) :
  Theme.setItemThrows (Theme.localStorage s) = false ->
  Theme.getItemThrows (Theme.localStorage fresh) = false ->
  Theme.items (Theme.localStorage fresh)
  = Theme.items (Theme.localStorage (snd (Theme.toggle s))) ->
  Theme.dataTheme (snd (Theme.init fresh)) = Some (Theme.displayed (snd (Theme.toggle s))) /\
  Theme.displayed (snd (Theme.init fresh)) = Theme.displayed (snd (Theme.toggle s)).
Proof.
  intros Hw Hr Hitems.
  destruct (init_state fresh Hr) as [Hattr _].
  destruct (ThemeFacts.toggle_state s) as [Ht Hst].
  assert (Hp : Theme.persisted fresh = Some (Theme.displayed (snd (Theme.toggle s)))).
  { unfold Theme.persisted. rewrite Hitems, Hst, Hw. cbn [Theme.items].
    rewrite ThemeFacts.lookup_store. unfold Theme.displayed. rewrite Ht.
    rewrite ThemeFacts.current_flip. reflexivity. }
  rewrite Hp in Hattr.
  assert (Htruthy : truthy (Theme.displayed (snd (Theme.toggle s))) = true).
  { unfold Theme.displayed. rewrite Ht, ThemeFacts.current_flip. unfold flipTheme.
    destruct (String.eqb _ "light"); reflexivity. }
  rewrite Htruthy in Hattr. split; [exact Hattr|].
  unfold Theme.displayed at 1. rewrite Hattr.
  unfold Theme.displayed. rewrite Ht, ThemeFacts.current_flip. unfold flipTheme.
  destruct (String.eqb _ "light"); reflexivity.
Qed.

(** X11. [init] never writes to the storage.  With a readable storage it
    leaves [data-theme] as it is when no preference, or an empty one, is
    stored, and otherwise sets it to the stored string whatever that string
    is; and, the button being complete, it completes and labels the button
    "Dark" exactly when [data-theme] then is the string "dark", so a page
    without [data-theme] and without a stored preference is labelled
    "Light" although [toggle] reads it as dark. *)
Theorem init_reads_only (s : Theme.State) (b : Theme.Button) (txt icon : string) :
  Theme.getItemThrows (Theme.localStorage s) = false ->
  Theme.themeToggle s = Some b ->
  Theme.toggleText b = Some txt ->
  Theme.toggleIcon b = Some icon ->
  let s' := snd (Theme.init s) in
  fst (Theme.init s) = Normal tt /\
  Theme.localStorage s' = Theme.localStorage s /\
  Theme.dataTheme s'
  = match Theme.persisted s with
    | Some v => if truthy v then Some v else Theme.dataTheme s
    | None => Theme.dataTheme s
    end /\
  exists b',
    Theme.themeToggle s' = Some b' /\
    Theme.ariaPressed b' = Some (String_of_bool (Theme.isDark (Theme.dataTheme s'))) /\
    Theme.toggleText b' = Some (if Theme.isDark (Theme.dataTheme s') then "Dark" else "Light").
Proof.
  destruct s as [attr [its g w] btn]. destruct b as [p t i].
  cbn [Theme.localStorage Theme.getItemThrows Theme.themeToggle Theme.toggleText Theme.toggleIcon].
  intros -> -> -> ->. unfold Theme.persisted. cbn [Theme.localStorage Theme.items].
  unfold Theme.init, Theme.getItem, bind. cbn [Theme.localStorage Theme.getItemThrows Theme.items].
  destruct (Theme.lookup Theme.KEY its) as [v|]; [destruct (truthy v)|]; cbn;
    repeat split; eexists; repeat split; reflexivity.
Qed.

(** X11, on a page without [data-theme] and with an empty storage. *)
Lemma init_reads_only_witness :
  fst (Theme.init (Theme.mkState None (Theme.mkStorage [] false false) (Some sampleButton)))
  = Normal tt /\
  Theme.displayed
    (snd (Theme.init (Theme.mkState None (Theme.mkStorage [] false false) (Some sampleButton))))
  = "dark" /\
  option_map Theme.toggleText
    (Theme.themeToggle
       (snd (Theme.init (Theme.mkState None (Theme.mkStorage [] false false)
                                       (Some sampleButton)))))
  = Some (Some "Light").
Proof.
  split; [|split; reflexivity].
  exact (proj1 (init_reads_only
                  (Theme.mkState None (Theme.mkStorage [] false false) (Some sampleButton))
                  sampleButton "Dark" "🌙" eq_refl eq_refl eq_refl eq_refl)).
Defined.

(** X10, on the sample theme state: toggled to light, a fresh page that
    starts dark comes up light. *)
Lemma toggle_then_init_restores_witness :
  Theme.dataTheme
    (snd (Theme.init
            (Theme.mkState (Some "dark")
                           (Theme.localStorage (snd (Theme.toggle sampleTheme)))
                           (Some sampleButton))))
  = Some "light".
Proof.
  exact (proj1 (toggle_then_init_restores sampleTheme
                  (Theme.mkState (Some "dark")
                                 (Theme.localStorage (snd (Theme.toggle sampleTheme)))
                                 (Some sampleButton))
                  eq_refl eq_refl eq_refl)).
Defined.

(** X12. After a toggle on a page whose theme button is complete, the
    toggle completes whether or not the storage accepts the write, and the
    button agrees with the displayed theme: [aria-pressed] is "true" and
    the label "Dark" exactly when the displayed theme is dark. *)
Theorem toggle_updates_button (s : Theme.State) (b : Theme.Button) (txt icon : string) :
  Theme.themeToggle s = Some b ->
  Theme.toggleText b = Some txt ->
  Theme.toggleIcon b = Some icon ->
  let s' := snd (Theme.toggle s) in
  fst (Theme.toggle s) = Normal tt /\
  exists b',
    Theme.themeToggle s' = Some b' /\
    Theme.ariaPressed b' = Some (String_of_bool (String.eqb (Theme.displayed s') "dark")) /\
    Theme.toggleText b'
    = Some (if String.eqb (Theme.displayed s') "dark" then "Dark" else "Light") /\
    Theme.toggleIcon b'
    = Some (if String.eqb (Theme.displayed s') "dark" then "🌙" else "☀️").
Proof.
  destruct s as [attr [its g w] btn]. destruct b as [p t i].
  cbn [Theme.themeToggle Theme.toggleText Theme.toggleIcon].
  intros -> -> ->.
  assert (Hcur : Theme.current attr = "light" \/ Theme.current attr = "dark").
  { destruct attr as [v|]; cbn; [destruct (String.eqb v "light")|]; auto. }
  destruct w; destruct Hcur as [Hc|Hc];
    unfold Theme.toggle, Theme.getAttribute, gets, bind; cbn [Theme.dataTheme];
    rewrite Hc; cbn; (split; [reflexivity|]); eexists; repeat split; reflexivity.
Qed.

(** X12, on the sample theme state. *)
Lemma toggle_updates_button_witness :
  fst (Theme.toggle sampleTheme) = Normal tt.
Proof.
  exact (proj1 (toggle_updates_button sampleTheme sampleButton "Dark" "🌙"
                  eq_refl eq_refl eq_refl)).
Defined.

(** ** The contact form of the older copy *)

Lemma dropWhile_nil {A} (p : A -> bool) (l : list A) :
  dropWhile p l = [] <-> forallb p l = true.
Proof.
  induction l as [|a l IH]; cbn [dropWhile forallb].
  - split; reflexivity.
  - destruct (p a); cbn [andb].
    + exact IH.
    + split; discriminate.
Qed.

Lemma forallb_dropWhile {A} (p : A -> bool) (l : list A) :
  forallb p (dropWhile p l) = forallb p l.
Proof.
  induction l as [|a l IH]; cbn [dropWhile forallb].
  - reflexivity.
  - destruct (p a) eqn:Hp; cbn [andb forallb].
    + exact IH.
    + rewrite Hp. reflexivity.
Qed.

Lemma forallb_rev {A} (p : A -> bool) (l : list A) : forallb p (rev l) = forallb p l.
Proof.
  induction l as [|a l IH]; cbn [rev forallb]; [reflexivity|].
  rewrite forallb_app, IH. cbn [forallb]. rewrite andb_true_r. apply andb_comm.
Qed.

(** X13. A field counts as blank ([!value.trim()]) exactly when every code
    unit of its value is white space; the empty value is blank.  White
    space is the full set of ECMAScript: an ideographic space (U+3000), a
    no-break space (U+00A0) or a byte order mark (U+FEFF) alone make a
    blank field, a zero width space (U+200B) does not. *)
Theorem blank_iff_white_space (v : DOMString) :
  isBlank v = allChars isWhiteSpace v /\
  isBlank [12288%N] = true /\ isBlank [160%N; 65279%N] = true /\
  isBlank [8203%N] = false /\ isBlank (js "") = true.
Proof.
  split; [|repeat split; reflexivity].
  unfold isBlank, trim, allChars.
  destruct (rev (dropWhile isWhiteSpace (rev (dropWhile isWhiteSpace v)))) as [|a r] eqn:Hr;
    cbn [negb nonEmpty].
  - symmetry. apply (f_equal (@rev codeUnit)) in Hr. rewrite rev_involutive in Hr.
    cbn [rev] in Hr. apply dropWhile_nil in Hr.
    rewrite forallb_rev, forallb_dropWhile in Hr. exact Hr.
  - symmetry. apply not_true_is_false. intros Hall.
    assert (Hnil : dropWhile isWhiteSpace (rev (dropWhile isWhiteSpace v)) = []).
    { apply dropWhile_nil. rewrite forallb_rev, forallb_dropWhile. exact Hall. }
    rewrite Hnil in Hr. discriminate.
Qed.

(** X14. The submit listener of the older copy on a complete form: it
    never throws; when the three checks pass (name, email and message not
    blank, trimmed email matching the pattern) the status reports the
    simulated send and every field is reset to its default value;
    otherwise the status asks to fix the errors and every value stays.  In
    both cases each field's [aria-invalid] says whether that field failed
    its check, and default values are kept. *)
Theorem legacy_submit_outcome (n e m : ContactForm.Field) (st : string) :
  let valid := formValid (ContactForm.value n) (ContactForm.value e) (ContactForm.value m) in
  exists n' e' m',
    Legacy.onSubmit (ContactForm.mkForm (Some n) (Some e) (Some m) (Some st))
    = (Normal tt,
       ContactForm.mkForm (Some n') (Some e') (Some m')
         (Some (if valid then "Thanks — your message was sent (simulation)."
                else "Please fix the errors above."))) /\
    ContactForm.value n' = (if valid then ContactForm.defaultValue n else ContactForm.value n) /\
    ContactForm.value e' = (if valid then ContactForm.defaultValue e else ContactForm.value e) /\
    ContactForm.value m' = (if valid then ContactForm.defaultValue m else ContactForm.value m) /\
    ContactForm.ariaInvalid n' = Some (String_of_bool (isBlank (ContactForm.value n))) /\
    ContactForm.ariaInvalid e'
    = Some (String_of_bool
              (isBlank (ContactForm.value e)
               || negb (ContactForm.isEmailValid (trim (ContactForm.value e))))) /\
    ContactForm.ariaInvalid m' = Some (String_of_bool (isBlank (ContactForm.value m))) /\
    ContactForm.defaultValue n' = ContactForm.defaultValue n /\
    ContactForm.defaultValue e' = ContactForm.defaultValue e /\
    ContactForm.defaultValue m' = ContactForm.defaultValue m.
Proof.
  intros valid. subst valid. unfold formValid, isBlank.
  unfold Legacy.onSubmit, Legacy.requireValue, Legacy.requireEmail,
    Legacy.fieldValue, ContactForm.setError, ContactForm.setStatus, ContactForm.reset,
    bind, gets, modify, ret, throw.
  cbn.
  destruct (nonEmpty (trim (ContactForm.value n))); cbn;
    (destruct (nonEmpty (trim (ContactForm.value e))); cbn;
     [destruct (ContactForm.isEmailValid (trim (ContactForm.value e))); cbn|]);
    destruct (nonEmpty (trim (ContactForm.value m))); cbn;
    do 3 eexists; (split; [reflexivity|]); cbn; repeat split; reflexivity.
Qed.

(** ** The email pattern *)

Lemma nullable_Matches (r : RegExp.t) : RegExp.nullable r = true <-> Matches r [].
Proof.
  induction r as [| |p|r1 IH1 r2 IH2|r1 IH1 r2 IH2|r IH]; cbn [RegExp.nullable].
  - split; [discriminate | intros H; inversion H].
  - split; [intros _; constructor | reflexivity].
  - split; [discriminate | intros H; inversion H].
  - rewrite andb_true_iff, IH1, IH2. split.
    + intros [H1 H2]. apply (MSeq _ _ [] [] H1 H2).
    + intros H. inversion H as [| |? ? s1 s2 H1 H2 Heq| | | |]; subst.
      match goal with Hs : s1 ++ s2 = [] |- _ =>
        apply app_eq_nil in Hs; destruct Hs; subst end.
      split; assumption.
  - rewrite orb_true_iff, IH1, IH2. split.
    + intros [H|H]; [apply MAltL | apply MAltR]; assumption.
    + intros H. inversion H; subst; auto.
  - split; [intros _; constructor | reflexivity].
Qed.

Lemma deriv_sound c (r : RegExp.t) : forall s,
  Matches (RegExp.deriv c r) s -> Matches r (c :: s).
Proof.
  induction r as [| |p|r1 IH1 r2 IH2|r1 IH1 r2 IH2|r IH]; intros s H; cbn [RegExp.deriv] in H.
  - inversion H.
  - inversion H.
  - destruct (p c) eqn:Hp; inversion H; subst. constructor. assumption.
  - destruct (RegExp.nullable r1) eqn:Hn.
    + inversion H as [| | |? ? ? HL|? ? ? HR| |]; subst.
      * inversion HL as [| |? ? s1 s2 H1 H2| | | |]; subst.
        apply (MSeq _ _ (c :: s1) s2); [apply IH1|]; assumption.
      * apply (MSeq _ _ [] (c :: s)); [apply nullable_Matches; assumption|].
        apply IH2. assumption.
    + inversion H as [| |? ? s1 s2 H1 H2| | | |]; subst.
      apply (MSeq _ _ (c :: s1) s2); [apply IH1|]; assumption.
  - inversion H; subst; [apply MAltL; apply IH1 | apply MAltR; apply IH2]; assumption.
  - inversion H as [| |? ? s1 s2 H1 H2| | | |]; subst.
    apply (MStarApp _ (c :: s1) s2); [apply IH|]; assumption.
Qed.

Lemma deriv_complete (r : RegExp.t) (str : DOMString) :
  Matches r str -> forall c s, str = c :: s -> Matches (RegExp.deriv c r) s.
Proof.
  induction 1 as [|p c0 Hp|r1 r2 s1 s2 H1 IH1 H2 IH2|r1 r2 s0 H0 IH0|r1 r2 s0 H0 IH0
                  |r|r s1 s2 H1 IH1 H2 IH2];
    intros c s Heq; cbn [RegExp.deriv].
  - discriminate.
  - injection Heq as -> <-. rewrite Hp. constructor.
  - destruct s1 as [|c1 s1'].
    + cbn in Heq. subst s2.
      assert (Hn : RegExp.nullable r1 = true) by (apply nullable_Matches; assumption).
      rewrite Hn. apply MAltR. apply IH2. reflexivity.
    + cbn in Heq. injection Heq as -> <-.
      assert (Hd : Matches (RegExp.Seq (RegExp.deriv c r1) r2) (s1' ++ s2))
        by (apply MSeq; [apply IH1; reflexivity | assumption]).
      destruct (RegExp.nullable r1); [apply MAltL|]; assumption.
  - apply MAltL. apply IH0. assumption.
  - apply MAltR. apply IH0. assumption.
  - discriminate.
  - destruct s1 as [|c1 s1'].
    + cbn in Heq. apply (IH2 c s Heq).
    + cbn in Heq. injection Heq as -> <-.
      apply MSeq; [apply IH1; reflexivity | assumption].
Qed.

(** The matcher decides the language of the expression. *)
Lemma test_Matches (s : DOMString) : forall r, RegExp.test r s = true <-> Matches r s.
Proof.
  induction s as [|c s IH]; intros r; cbn [RegExp.test].
  - apply nullable_Matches.
  - rewrite IH. split.
    + apply deriv_sound.
    + intros H. eapply deriv_complete; [eassumption | reflexivity].
Qed.

Lemma Matches_Star_Class p (str : DOMString) (r : RegExp.t) :
  Matches r str -> r = RegExp.Star (RegExp.Class p) -> allChars p str = true.
Proof.
  induction 1 as [| | | | |r|r s1 s2 H1 IH1 H2 IH2]; intros Heq; try discriminate.
  - reflexivity.
  - injection Heq as ->. inversion H1; subst. unfold allChars. cbn [app forallb].
    match goal with Hp : p _ = true |- _ => rewrite Hp end.
    apply IH2. reflexivity.
Qed.

Lemma Star_Class_Matches p (s : DOMString) :
  allChars p s = true -> Matches (RegExp.Star (RegExp.Class p)) s.
Proof.
  unfold allChars. induction s as [|c s IH]; cbn [forallb]; intros H.
  - constructor.
  - apply andb_true_iff in H. destruct H as [Hc Hs].
    apply (MStarApp _ [c] s); [constructor; assumption | apply IH; assumption].
Qed.

Lemma Matches_Plus_Class p (s : DOMString) :
  Matches (RegExp.Plus (RegExp.Class p)) s <-> nonEmpty s && allChars p s = true.
Proof.
  unfold RegExp.Plus. split.
  - intros H. inversion H as [| |? ? s1 s2 H1 H2| | | |]; subst.
    inversion H1; subst. unfold allChars. cbn [app nonEmpty forallb andb].
    match goal with Hp : p _ = true |- _ => rewrite Hp end.
    eapply Matches_Star_Class; [eassumption | reflexivity].
  - destruct s as [|c s]; unfold allChars; cbn [nonEmpty forallb andb]; [discriminate|].
    intros H. apply andb_true_iff in H. destruct H as [Hc Hs].
    apply (MSeq _ _ [c] s); [constructor; assumption|].
    apply Star_Class_Matches. assumption.
Qed.

Lemma Matches_char_seq (c : codeUnit) (r : RegExp.t) (s : DOMString) :
  Matches (RegExp.Seq (RegExp.Class (N.eqb c)) r) s <->
  exists s', s = c :: s' /\ Matches r s'.
Proof.
  split.
  - intros H. inversion H as [| |? ? s1 s2 H1 H2| | | |]; subst.
    inversion H1 as [|? c' Hc| | | | |]; subst. apply N.eqb_eq in Hc. subst c'.
    exists s2. split; [reflexivity | assumption].
  - intros (s' & -> & H). apply (MSeq _ _ [c] s'); [|assumption].
    constructor. apply N.eqb_refl.
Qed.

(** X15. [isEmailValid] accepts exactly the strings of the form
    [a@b.c] where each of [a], [b] and [c] is a non-empty run of UTF-16
    code units that are neither white space nor [@] (dots are allowed
    inside them, and so are code units above U+007F: [à@b.co] is accepted,
    an address with an ideographic space in it is not). *)
Theorem isEmailValid_shape (v : DOMString) :
  (ContactForm.isEmailValid v = true <->
   exists a b c,
     v = a ++ [ContactForm.atSign] ++ b ++ [ContactForm.fullStop] ++ c /\
     isWord a = true /\ isWord b = true /\ isWord c = true) /\
  ContactForm.isEmailValid (224%N :: js "@b.co") = true /\
  ContactForm.isEmailValid (js "a" ++ [12288%N] ++ js "@b.co") = false /\
  ContactForm.isEmailValid (js "ada@example.org") = true /\
  ContactForm.isEmailValid (js "ada@example") = false.
Proof.
  split; [|repeat split; reflexivity].
  unfold ContactForm.isEmailValid, ContactForm.emailPattern, isWord.
  rewrite test_Matches. split.
  - intros H. inversion H as [| |? ? a s2 Ha H2| | | |]; subst.
    apply Matches_char_seq in H2. destruct H2 as (s3 & -> & H3).
    inversion H3 as [| |? ? b s4 Hb H4| | | |]; subst.
    apply Matches_char_seq in H4. destruct H4 as (c & -> & Hc).
    exists a, b, c. split; [reflexivity|].
    repeat split; apply Matches_Plus_Class; assumption.
  - intros (a & b & c & -> & Ha & Hb & Hc).
    apply MSeq; [apply Matches_Plus_Class; assumption|].
    apply Matches_char_seq. eexists. split; [reflexivity|].
    apply MSeq; [apply Matches_Plus_Class; assumption|].
    apply Matches_char_seq. eexists. split; [reflexivity|].
    apply Matches_Plus_Class. assumption.
Qed.

(** ** The nav links and the load handler *)

Lemma find_first {A} (p : A -> bool) (l : list A) : forall i x,
  nth_error l i = Some x -> p x = true ->
  (forall j y, (j < i)%nat -> nth_error l j = Some y -> p y = false) ->
  find p l = Some x.
Proof.
  induction l as [|a l IH]; intros [|i] x Hx Hp Hbefore; simpl in Hx; try discriminate.
  - injection Hx as ->. cbn [find]. rewrite Hp. reflexivity.
  - cbn [find]. rewrite (Hbefore 0%nat a (Nat.lt_0_succ i) eq_refl).
    apply (IH i x Hx Hp). intros j y Hj Hy. apply (Hbefore (S j) y); [lia | exact Hy].
Qed.

Lemma find_none_of_count d : activeCount d = 0%nat -> find isActiveSection (sections d) = None.
Proof.
  intros H. destruct (find isActiveSection (sections d)) as [x|] eqn:Hx; [|reflexivity].
  apply find_some in Hx. destruct Hx as [Hin Hact]. unfold activeCount in H.
  assert (Hin' : In x (filter isActiveSection (sections d)))
    by (apply filter_In; split; assumption).
  destruct (filter isActiveSection (sections d)); [contradiction | discriminate].
Qed.

(** X16. [updateNavCurrent] leaves the sections alone.  When no section is
    active it removes [aria-current] from every nav link; otherwise the
    links whose href target is the id of the first active section in
    document order, and only those, get [aria-current="page"], also when
    later sections are active as well. *)
Theorem updateNavCurrent_first_active (d : Doc) :
  let d' := updateNavCurrent d in
  sections d' = sections d /\
  (activeCount d = 0%nat -> forall l', In l' (navLinks d') -> ariaCurrent l' = None) /\
  (forall i s,
      nth_error (sections d) i = Some s -> isActiveSection s = true ->
      (forall j sj, (j < i)%nat -> nth_error (sections d) j = Some sj ->
                    isActiveSection sj = false) ->
      forall k l, nth_error (navLinks d) k = Some l ->
        exists l', nth_error (navLinks d') k = Some l' /\ href l' = href l /\
                   ariaCurrent l'
                   = if String.eqb (slice1 (href l)) (id s) then Some "page" else None).
Proof.
  intros d'. subst d'. unfold updateNavCurrent, getSections. cbn [sections navLinks].
  rewrite index_findIndex. split; [reflexivity|]. split.
  - intros Hzero l' Hl'. rewrite (find_none_of_count d Hzero) in Hl'.
    apply in_map_iff in Hl'. destruct Hl' as (l & <- & _). reflexivity.
  - intros i s Hs Hact Hbefore k l Hl.
    rewrite (find_first isActiveSection (sections d) i s Hs Hact Hbefore).
    exists (updateNavCurrent_link (Some s) l). split.
    { rewrite nth_error_map, Hl. reflexivity. }
    rewrite navLink_active. split; reflexivity.
Qed.

(** X16, on the sample document with the first two sections both active:
    the link of the first one is current, the link of the second is not. *)
Lemma updateNavCurrent_first_active_witness :
  map ariaCurrent
    (navLinks (observerCallback [mkEntry 1 (9 # 10)] (bootstrap sampleDoc)))
  = [Some "page"; None; None] /\
  activeCount (observerCallback [mkEntry 1 (9 # 10)] (bootstrap sampleDoc)) = 2%nat /\
  sections (updateNavCurrent (observerCallback [mkEntry 1 (9 # 10)] (bootstrap sampleDoc)))
  = sections (observerCallback [mkEntry 1 (9 # 10)] (bootstrap sampleDoc)).
Proof.
  split; [reflexivity|]. split; [reflexivity|].
  exact (proj1 (updateNavCurrent_first_active
                  (observerCallback [mkEntry 1 (9 # 10)] (bootstrap sampleDoc)))).
Defined.

Lemma setActive_onlyActive d k s1 :
  NoDup (map id (sections d)) ->
  nth_error (sections d) k = Some s1 ->
  onlyActive k (setActiveSection (id s1) d).
Proof.
  intros Hnd Hk. unfold onlyActive. rewrite sections_setActiveSection.
  apply (body_onlyActive (sections d) (id s1) k s1 Hnd Hk eq_refl).
Qed.

(** A write to a card or an indicator changes no section's id, classes or
    [aria-hidden], and no nav link. *)
Lemma toggleAt_frame token force pl d :
  map id (sections (toggleAt token force pl d)) = map id (sections d) /\
  map sectionClasses (sections (toggleAt token force pl d)) = map sectionClasses (sections d) /\
  map ariaHidden (sections (toggleAt token force pl d)) = map ariaHidden (sections d) /\
  navLinks (toggleAt token force pl d) = navLinks d.
Proof.
  destruct pl as [[k j]|]; cbn [toggleAt sections navLinks]; [|repeat split; reflexivity].
  repeat split; try reflexivity; apply map_updateAt; reflexivity.
Qed.

Lemma toggleEachFrom_frame token idx places : forall i d,
  map id (sections (toggleEachFrom token idx i places d)) = map id (sections d) /\
  map sectionClasses (sections (toggleEachFrom token idx i places d))
  = map sectionClasses (sections d) /\
  map ariaHidden (sections (toggleEachFrom token idx i places d))
  = map ariaHidden (sections d) /\
  navLinks (toggleEachFrom token idx i places d) = navLinks d.
Proof.
  induction places as [|pl r IH]; intros i d; cbn [toggleEachFrom].
  - repeat split; reflexivity.
  - destruct (IH (S i) (toggleAt token (Carousel.isIndex i idx) pl d)) as (H1 & H2 & H3 & H4).
    destruct (toggleAt_frame token (Carousel.isIndex i idx) pl d) as (G1 & G2 & G3 & G4).
    rewrite H1, H2, H3, H4. repeat split; assumption.
Qed.

Lemma toggleEachFrom_outside token idx places : forall i d,
  (forall pl, In pl places -> pl = None) -> toggleEachFrom token idx i places d = d.
Proof.
  induction places as [|pl r IH]; intros i d Hall; cbn [toggleEachFrom]; [reflexivity|].
  rewrite (Hall pl (or_introl eq_refl)). cbn [toggleAt].
  apply IH. intros pl' Hin. apply Hall. right. exact Hin.
Qed.

Lemma In_firstn_In {A} (x : A) : forall n l, In x (firstn n l) -> In x l.
Proof.
  induction n as [|n IH]; intros [|a l] Hin; cbn [firstn] in Hin; try contradiction.
  destruct Hin as [<-|Hin]; [left; reflexivity | right; apply IH; exact Hin].
Qed.

Lemma carouselWrites_frame p :
  map id (sections (carouselWrites p)) = map id (sections (doc p)) /\
  map sectionClasses (sections (carouselWrites p)) = map sectionClasses (sections (doc p)) /\
  map ariaHidden (sections (carouselWrites p)) = map ariaHidden (sections (doc p)) /\
  navLinks (carouselWrites p) = navLinks (doc p).
Proof.
  unfold carouselWrites. destruct (projectCarousel p) as [c|]; [|repeat split; reflexivity].
  match goal with |- context [toggleEachFrom "active-slide" ?x ?i ?pls ?d0] =>
    destruct (toggleEachFrom_frame "active-slide" x pls i d0) as (H1 & H2 & H3 & H4) end.
  match goal with |- context [toggleEachFrom "active" ?x ?i ?pls ?d0] =>
    destruct (toggleEachFrom_frame "active" x pls i d0) as (G1 & G2 & G3 & G4) end.
  rewrite H1, H2, H3, H4. repeat split; assumption.
Qed.

Lemma bootstrap_onlyActive d :
  NoDup (map id (sections d)) -> sections d <> [] ->
  onlyActive 0 (bootstrap d) /\ activeCount (bootstrap d) = 1%nat.
Proof.
  intros Hnd Hne. split; [|apply activeCount_bootstrap; assumption].
  unfold bootstrap, getSections.
  destruct (sections d) as [|first rest] eqn:Hd; [congruence|].
  apply setActive_onlyActive; [rewrite Hd; assumption | rewrite Hd; reflexivity].
Qed.

(** What the load handler of script.js leaves in the document. *)
Lemma script_load_doc (fullYear : nat) (p : Page) :
  doc (snd (Script.onDOMContentLoaded fullYear p))
  = (if completes (fst (Script.onDOMContentLoaded fullYear p))
     then bootstrap (carouselWrites p) else doc p).
Proof.
  destruct p as [d [attr [its g w] btn] fm yr car cps ips menu ls].
  unfold Script.onDOMContentLoaded, Script.activateFirst,
    Script.initNavigation, Script.initSectionObserver,
    Script.initForm, Script.setYear, Script.initProjectCarousel, Script.initMobileMenu,
    Script.initScrollWatcher, Script.hookThemeToggle,
    Theme.init, Theme.getItem,
    Theme.getAttribute, Theme.setAttribute, Theme.updateThemeButton, Theme.setButton,
    zoom, bind, gets, modify, ret, throw.
  cbn.
  destruct g; [cbn; reflexivity|].
  destruct (Theme.lookup Theme.KEY its) as [v|]; [destruct (truthy v)|];
    (destruct btn as [[pr [txt|] [icon|]]|]; cbn;
     try reflexivity;
     destruct (getSections d); cbn;
     (destruct fm as [[[n|] [e|] [m|] st]|]; cbn;
      try reflexivity;
      destruct yr; cbn; destruct car; cbn; destruct menu; cbn; reflexivity)).
Qed.

(** What the load handler of the older copy leaves in the document. *)
Lemma legacy_load_doc (fullYear : nat) (p : Page) :
  doc (snd (Legacy.onDOMContentLoaded fullYear p))
  = (if completes (fst (Legacy.onDOMContentLoaded fullYear p))
     then bootstrap (doc p) else doc p).
Proof.
  destruct p as [d [attr [its g w] btn] fm yr car cps ips menu ls].
  unfold Legacy.onDOMContentLoaded, Script.activateFirst,
    Script.initNavigation, Script.initSectionObserver,
    Script.initForm, Script.setYear, Script.hookThemeToggle, Legacy.initProjectCarousel,
    Theme.init, Theme.getItem,
    Theme.getAttribute, Theme.setAttribute, Theme.updateThemeButton, Theme.setButton,
    zoom, bind, gets, modify, ret, throw.
  cbn.
  destruct g; [cbn; reflexivity|].
  destruct (Theme.lookup Theme.KEY its) as [v|]; [destruct (truthy v)|];
    (destruct btn as [[pr [txt|] [icon|]]|]; cbn;
     try reflexivity;
     destruct (getSections d); cbn;
     (destruct fm as [[[n|] [e|] [m|] st]|]; cbn;
      try reflexivity;
      destruct yr; cbn; destruct car; cbn; reflexivity)).
Qed.

(** X17. The load handler and the document.  In script.js the document
    is written to twice: by the two loops that end [initProjectCarousel],
    which toggle [active] on every indicator and [active-slide] on every
    card wherever these elements sit, descendants of a section included,
    and then by the bootstrap activation of the first section, the last
    step.  Every step that can throw comes before both, so a load that
    throws leaves the document untouched.  The older copy writes to no
    card or indicator at load: there the document is the bootstrapped one
    or untouched.  The writes of the carousel change no section's id,
    classes or [aria-hidden] and no nav link, so with distinct ids and at
    least one section a load that completes leaves the first section, and
    only it, active.  When no card or indicator sits below a section the
    document is the bootstrap of the original one.  On the page whose
    carousel sits in the first section it is not: the first card and the
    first indicator have been marked, the stale mark of the second
    indicator is gone, and the carousel sees the class the activation has
    added to its first card. *)
Theorem load_activates_first_section_last (fullYear : nat) (p : Page) :
  let writes :=
    match projectCarousel p with
    | None => doc p
    | Some c =>
        toggleEachFrom "active-slide" 0 0
          (firstn (List.length (Carousel.cards c)) (cardPlaces p))
          (toggleEachFrom "active" 0 0
             (firstn (List.length (Carousel.indicators c)) (indicatorPlaces p))
             (doc p))
    end in
  let loaded := Script.onDOMContentLoaded fullYear p in
  doc (snd loaded)
  = (if completes (fst loaded) then bootstrap writes else doc p) /\
  doc (snd (Legacy.onDOMContentLoaded fullYear p))
  = (if completes (fst (Legacy.onDOMContentLoaded fullYear p))
     then bootstrap (doc p) else doc p) /\
  map id (sections writes) = map id (sections (doc p)) /\
  map sectionClasses (sections writes) = map sectionClasses (sections (doc p)) /\
  map ariaHidden (sections writes) = map ariaHidden (sections (doc p)) /\
  navLinks writes = navLinks (doc p) /\
  (NoDup (map id (sections (doc p))) -> sections (doc p) <> [] ->
   completes (fst loaded) = true ->
   onlyActive 0 (doc (snd loaded)) /\ activeCount (doc (snd loaded)) = 1%nat) /\
  ((forall pl, In pl (cardPlaces p) -> pl = None) ->
   (forall pl, In pl (indicatorPlaces p) -> pl = None) ->
   writes = doc p) /\
  fst (Script.onDOMContentLoaded 2025 nestedPage) = Normal tt /\
  option_map (fun s => map classList (descendants s))
             (nth_error (sections (doc (snd (Script.onDOMContentLoaded 2025 nestedPage)))) 0)
  = Some [ ["project-card"; "reveal"; "active-slide"; "is-visible"];
           ["project-card"];
           ["indicator"; "active"];
           ["indicator"] ] /\
  option_map (fun s => map classList (descendants s))
             (nth_error (sections (bootstrap (doc nestedPage))) 0)
  = Some [ ["project-card"; "reveal"; "is-visible"];
           ["project-card"];
           ["indicator"];
           ["indicator"; "active"] ] /\
  option_map (fun c => (map Carousel.cardClasses (Carousel.cards c), Carousel.indicators c))
             (projectCarousel (snd (Script.onDOMContentLoaded 2025 nestedPage)))
  = Some ([ ["project-card"; "reveal"; "active-slide"; "is-visible"]; ["project-card"] ],
          [ ["indicator"; "active"]; ["indicator"] ]).
Proof.
  intros writes loaded.
  assert (Hw : writes = carouselWrites p) by reflexivity.
  destruct (carouselWrites_frame p) as (F1 & F2 & F3 & F4).
  assert (Hdoc : doc (snd loaded)
                 = if completes (fst loaded) then bootstrap writes else doc p).
  { rewrite Hw. apply script_load_doc. }
  split; [exact Hdoc|].
  split; [apply legacy_load_doc|].
  rewrite Hw.
  split; [exact F1|]. split; [exact F2|]. split; [exact F3|]. split; [exact F4|].
  split.
  { intros Hnd Hne Hc. rewrite Hdoc, Hc, Hw.
    apply bootstrap_onlyActive.
    - rewrite F1. exact Hnd.
    - intros Hnil. apply Hne. apply (f_equal (map id)) in Hnil. rewrite F1 in Hnil.
      destruct (sections (doc p)); [reflexivity | discriminate]. }
  split.
  { intros Hc Hi. unfold carouselWrites.
    destruct (projectCarousel p) as [c|]; [|reflexivity].
    rewrite (toggleEachFrom_outside "active") by
      (intros pl Hin; apply Hi; apply In_firstn_In in Hin; exact Hin).
    apply toggleEachFrom_outside.
    intros pl Hin. apply Hc. apply In_firstn_In in Hin. exact Hin. }
  repeat split; reflexivity.
Qed.

(** X17, on the sample page, whose carousel sits outside the sections. *)
Lemma load_activates_first_section_last_witness :
  onlyActive 0 (doc (snd (Script.onDOMContentLoaded 2025 samplePage))) /\
  activeCount (doc (snd (Script.onDOMContentLoaded 2025 samplePage))) = 1%nat.
Proof.
  refine (proj1 (proj2 (proj2 (proj2 (proj2 (proj2 (proj2
            (load_activates_first_section_last 2025 samplePage))))))) _ _ _).
  - cbn. repeat constructor; cbn; intuition discriminate.
  - discriminate.
  - reflexivity.
Defined.

(** ** Scroll-settle and the shape of the document *)

Lemma setActiveSection_twice id0 d :
  setActiveSection id0 (setActiveSection id0 d) = setActiveSection id0 d.
Proof.
  rewrite (setActiveSection_unfold id0 (setActiveSection id0 d)).
  rewrite (setActiveSection_unfold id0 d).
  cbn [sections navLinks otherIds scrolledTo activeElement].
  rewrite !map_map, find_map. cbn [id setActiveSection_body].
  f_equal.
  - apply map_ext. intros s. apply body_idem.
  - apply map_ext. intros l. rewrite navLink_twice.
    destruct (find (fun s => String.eqb (id s) id0) (sections d)) as [s0|];
      cbn [option_map]; [rewrite body_idem|]; reflexivity.
Qed.

(** The loop of [chooseClosestSection] looks at positions only. *)
Lemma closestLoop_positions (dist : nat -> number) (f : SectionEl -> SectionEl)
      (l : list SectionEl) : forall i m c,
  closestLoop (fun p => dist (fst p)) snd
              (mapiFrom (fun i x => (i, x)) i (map f l)) m (f c)
  = f (closestLoop (fun p => dist (fst p)) snd
                   (mapiFrom (fun i x => (i, x)) i l) m c).
Proof.
  induction l as [|a l IH]; intros i m c; cbn [map mapiFrom closestLoop fst snd].
  - reflexivity.
  - destruct (belowMin (dist i) m); apply IH.
Qed.

Lemma chooseClosestSection_map vp d d' (f : SectionEl -> SectionEl) :
  sections d' = map f (sections d) ->
  chooseClosestSection vp d' = option_map f (chooseClosestSection vp d).
Proof.
  intros Hs. unfold chooseClosestSection, getSections. rewrite Hs.
  destruct (sections d) as [|first rest]; [reflexivity|].
  cbn [map option_map]. f_equal.
  apply (closestLoop_positions (sectionDistance vp) f (first :: rest) 0 Infinity first).
Qed.

(** X18. When scrolling has stopped, whatever flags the observer left, the
    scroll watcher activates a section that no section is nearer to the
    viewport midpoint than, every section before it being strictly farther
    (or without a distance): the result is [setActiveSection] for its id,
    that section is active and it is the only active one, on a document
    with at least one section and pairwise distinct ids.  The distance is
    [|top + height / 2 - innerHeight / 2|] in binary64 arithmetic.  A second
    resolution with the same layout changes nothing. *)
Theorem settle_activates_nearest_section (vp : Viewport) (d : Doc) :
  sections d <> [] ->
  NoDup (map id (sections d)) ->
  let dist := fun i : nat =>
    PrimFloat.abs (top (boundingClientRect vp i) + height (boundingClientRect vp i) / 2
                   - innerHeight vp / 2)%float in
  (exists k s,
      nth_error (sections d) k = Some s /\
      onScrollSettled vp d = setActiveSection (id s) d /\
      onlyActive k (onScrollSettled vp d) /\
      activeCount (onScrollSettled vp d) = 1%nat /\
      (forall j, (j < List.length (sections d))%nat ->
                 PrimFloat.ltb (dist j) (dist k) = false) /\
      (forall j, (j < k)%nat ->
                 PrimFloat.ltb (dist k) (dist j) = true \/
                 PrimFloat.is_nan (dist j) = true)) /\
  onScrollSettled vp (onScrollSettled vp d) = onScrollSettled vp d.
Proof.
  intros Hne Hnd dist.
  destruct (chooseClosestSection_spec vp d Hne) as (k & s & Hk & Hc & Hmin & Hfirst).
  assert (Hset : onScrollSettled vp d = setActiveSection (id s) d)
    by (unfold onScrollSettled; rewrite Hc; reflexivity).
  split.
  - exists k, s. rewrite Hset. repeat split; try assumption.
    + apply setActive_onlyActive; assumption.
    + apply setActive_onlyActive; assumption.
    + rewrite activeCount_setActiveSection. apply filter_id_unique; [assumption|].
      apply in_map. eapply nth_error_In. eassumption.
  - rewrite Hset. unfold onScrollSettled at 1.
    rewrite (chooseClosestSection_map vp d (setActiveSection (id s) d)
               (setActiveSection_body (id s)) (sections_setActiveSection _ _)).
    rewrite Hc. cbn [option_map id setActiveSection_body].
    apply setActiveSection_twice.
Qed.

(** X18, on the sample page scrolled by 900px after the observer has left
    two sections active: one section is active after the resolution. *)
Lemma settle_activates_nearest_section_witness :
  activeCount (observerCallback [mkEntry 1 (9 # 10)] (bootstrap sampleDoc)) = 2%nat /\
  activeCount
    (onScrollSettled (sampleViewport 900%float)
       (observerCallback [mkEntry 1 (9 # 10)] (bootstrap sampleDoc))) = 1%nat /\
  onScrollSettled (sampleViewport 900%float)
    (onScrollSettled (sampleViewport 900%float)
       (observerCallback [mkEntry 1 (9 # 10)] (bootstrap sampleDoc)))
  = onScrollSettled (sampleViewport 900%float)
      (observerCallback [mkEntry 1 (9 # 10)] (bootstrap sampleDoc)).
Proof.
  assert (H1 : sections (observerCallback [mkEntry 1 (9 # 10)] (bootstrap sampleDoc)) <> [])
    by discriminate.
  assert (H2 : NoDup (map id (sections (observerCallback [mkEntry 1 (9 # 10)]
                                           (bootstrap sampleDoc))))).
  { simpl. repeat constructor; simpl; intuition discriminate. }
  split; [reflexivity|]. split; [reflexivity|].
  exact (proj2 (settle_activates_nearest_section (sampleViewport 900%float) _ H1 H2)).
Defined.

Lemma hrefs_updateNavCurrent a (links : list NavLink) :
  map href (map (updateNavCurrent_link a) links) = map href links.
Proof.
  rewrite map_map. apply map_ext. intros l. unfold updateNavCurrent_link.
  destruct a as [s|]; [destruct (String.eqb _ _)|]; reflexivity.
Qed.

Lemma shape_setActiveSection id0 d : docShape (setActiveSection id0 d) = docShape d.
Proof.
  unfold docShape. rewrite ids_setActiveSection, setActiveSection_unfold.
  cbn [navLinks otherIds]. rewrite hrefs_updateNavCurrent. reflexivity.
Qed.

Lemma shape_navigateToSection h id0 d : docShape (navigateToSection h id0 d) = docShape d.
Proof.
  unfold navigateToSection. destruct (getElementById id0 d); cbn [negb]; [|reflexivity].
  rewrite shape_setActiveSection. unfold docShape, tryFocus.
  destruct (focusOutcome h id0); reflexivity.
Qed.

Lemma shape_observerEntry d entry : docShape (observerEntry d entry) = docShape d.
Proof.
  unfold docShape. rewrite ids_observerEntry. unfold observerEntry.
  destruct (Qlt_bool (1 # 2) (intersectionRatio entry));
    cbn [updateNavCurrent withSections navLinks otherIds];
    rewrite ?hrefs_updateNavCurrent; reflexivity.
Qed.

Lemma shape_handle h ev d : docShape (handle h ev d) = docShape d.
Proof.
  destruct ev as [entries|vp|n|key]; cbn [handle].
  - unfold observerCallback. revert d.
    induction entries as [|e r IH]; intros d; cbn [fold_left]; [reflexivity|].
    rewrite IH. apply shape_observerEntry.
  - unfold onScrollSettled. destruct (chooseClosestSection vp d);
      [apply shape_setActiveSection | reflexivity].
  - unfold onNavClick. destruct (nth_error (navLinks d) n);
      [apply shape_navigateToSection | reflexivity].
  - unfold onKeydown, goToNextSection, goToPrevSection.
    repeat match goal with
           | |- context [if ?b then _ else _] => destruct b
           | |- context [match index ?l ?i with _ => _ end] => destruct (index l i)
           end; try reflexivity; apply shape_navigateToSection.
Qed.

(** X19. Nothing the script does after load creates, removes, reorders or
    renames a section or a nav link: in every reachable state the section
    ids, the nav link hrefs and the ids of the other elements are those of
    the loaded document. *)
Theorem reachable_keeps_shape (h : Host) (d0 d : Doc) :
  Reachable h d0 d -> docShape d = docShape d0.
Proof.
  induction 1 as [|d ev Hr IH].
  - unfold bootstrap, getSections. destruct (sections d0);
      [reflexivity | apply shape_setActiveSection].
  - rewrite shape_handle. assumption.
Qed.

(** X19, on the sample document after a key press and an observer callback. *)
Lemma reachable_keeps_shape_witness :
  docShape (handle sampleHost (Intersection [mkEntry 1 (9 # 10)])
              (handle sampleHost (KeyDown "ArrowDown") (bootstrap sampleDoc)))
  = docShape sampleDoc.
Proof.
  apply (reachable_keeps_shape sampleHost).
  do 2 apply Reachable_step. apply Reachable_init.
Defined.
